(** * SBDL pixel-accurate collision core: a shallow embedding

    The functions of [SBDL.h] that decide whether two scaled and rotated
    sprites overlap ([getAlpha], [resizeBilinear], [getRotatedBoundingBox],
    [getRotatedAlphaMap], [getIntersectionRect], [hasCollision]) are
    transcribed below and their documented properties are stated and proved.
    So are the loop of [loadTextureUnderneath] that fills the alpha map of a
    texture, and the keyboard and mouse state that [updateEvents] keeps.

    Conventions of the embedding:
    - [int] is a 32-bit two's complement integer, carried as a [Z] that every
      arithmetic operation wraps back into range; [long] is the 64-bit
      counterpart (LP64).
    - [double] is IEEE-754 binary64, carried as [spec_float] with the
      operations of [SpecFloat] at precision 53.
    - an [int*] buffer is a [list Z]; a read or a write outside the buffer
      is a fault, so functions that touch buffers return an [option].
    - [sin] and [cos] come from the C library; they are parameters. *)

From Stdlib Require Import ZArith Lia Bool.
From Stdlib Require Import Floats.SpecFloat.
From stdpp Require Import base list.

Local Open Scope Z_scope.

(** ** Machine integers *)

Module CInt.

Definition INT_MIN : Z := - 2 ^ 31.
Definition INT_MAX : Z := 2 ^ 31 - 1.

Definition wrap32 (z : Z) : Z := (z + 2 ^ 31) mod 2 ^ 32 - 2 ^ 31.
Definition wrap64 (z : Z) : Z := (z + 2 ^ 63) mod 2 ^ 64 - 2 ^ 63.

Definition in_int (z : Z) : Prop := INT_MIN <= z <= INT_MAX.

(** [int] arithmetic. *)
Definition iadd (a b : Z) : Z := wrap32 (a + b).
Definition isub (a b : Z) : Z := wrap32 (a - b).
Definition imul (a b : Z) : Z := wrap32 (a * b).
(** [/] truncates towards zero. *)
Definition idiv (a b : Z) : Z := wrap32 (Z.quot a b).
(** [/] by a divisor that is not a constant: a zero divisor, and the one
    quotient that does not fit, trap. *)
Definition idiv_trap (a b : Z) : option Z :=
  if (b =? 0) || ((a =? INT_MIN) && (b =? -1)) then None
  else Some (Z.quot a b).
Definition ishl (a n : Z) : Z := wrap32 (Z.shiftl a n).
Definition imin (a b : Z) : Z := Z.min a b.
Definition imax (a b : Z) : Z := Z.max a b.

(** [long] arithmetic. *)
Definition ladd (a b : Z) : Z := wrap64 (a + b).
Definition lsub (a b : Z) : Z := wrap64 (a - b).
Definition lmul (a b : Z) : Z := wrap64 (a * b).
(** [>>] on a signed operand is an arithmetic shift. *)
Definition lshr (a n : Z) : Z := Z.shiftr a n.
(** The cast [(int)] of a [long]. *)
Definition int_of_long (a : Z) : Z := wrap32 a.

End CInt.
Import CInt.

(** ** Buffers *)

Module Mem.

Definition read (buf : list Z) (i : Z) : option Z :=
  if (0 <=? i) && (i <? Z.of_nat (length buf)) then buf !! Z.to_nat i else None.

Definition write (buf : list Z) (i : Z) (v : Z) : option (list Z) :=
  if (0 <=? i) && (i <? Z.of_nat (length buf))
  then Some (<[Z.to_nat i := v]> buf) else None.

(** [new int[n]]: a negative size does not allocate. The cells hold
    [init]: zero for [new int[n]()], whatever was there otherwise. *)
Definition alloc (n : Z) (init : Z) : option (list Z) :=
  if 0 <=? n then Some (replicate (Z.to_nat n) init) else None.

End Mem.

(** ** Rectangles *)

(** [SDL_Rect]; the fields [x], [y], [w] and [h]. *)
Record SDL_Rect : Type := mkRect { rx : Z; ry : Z; rw : Z; rh : Z }.

Definition rect_in_int (r : SDL_Rect) : Prop :=
  in_int (rx r) /\ in_int (ry r) /\ in_int (rw r) /\ in_int (rh r).

(** [SBDL::getIntersectionRect] *)
Definition getIntersectionRect (rect1 rect2 : SDL_Rect) : SDL_Rect :=
  let x1 := imax (rx rect1) (rx rect2) in
  let y1 := imax (ry rect1) (ry rect2) in
  let x2 := imin (iadd (rx rect1) (rw rect1)) (iadd (rx rect2) (rw rect2)) in
  let y2 := imin (iadd (ry rect1) (rh rect1)) (iadd (ry rect2) (rh rect2)) in
  let width := isub x2 x1 in
  let height := isub y2 y1 in
  if (0 <? width) && (0 <? height)
  then mkRect x1 y1 width height
  else mkRect 0 0 0 0.

(** ** Binary64 floating point

    Every operation rounds to nearest, ties to even, on its own: a product
    and a sum are not fused. *)

Module Double.

Definition prec : Z := 53.
Definition emax : Z := 1024.

Definition double : Type := spec_float.

Definition mul : double -> double -> double := SFmul prec emax.
Definition add : double -> double -> double := SFadd prec emax.
Definition sub : double -> double -> double := SFsub prec emax.
Definition div : double -> double -> double := SFdiv prec emax.

(** The conversion of an [int] to a [double]; it is exact. *)
Definition of_int (z : Z) : double := binary_normalize prec emax z 0 false.

(** [M_PI], 0x400921FB54442D18. *)
Definition M_PI : double := S754_finite false 7074237752028440 (-51).

(** An integer of magnitude [mag] and sign [s] as a [double]; a zero keeps
    the sign. *)
Definition of_sign_mag (s : bool) (mag : Z) : double :=
  if mag =? 0 then S754_zero s
  else binary_normalize prec emax (cond_Zopp s mag) 0 false.

(** [ceil] of [<math.h>]. *)
Definition ceil (x : double) : double :=
  match x with
  | S754_finite s m e =>
      if 0 <=? e then x
      else
        let q := Z.shiftl (Zpos m) e in
        let exact := Z.shiftl q (- e) =? Zpos m in
        of_sign_mag s (if s || exact then q else q + 1)
  | _ => x
  end.

(** [round] of [<math.h>]: to nearest, halfway cases away from zero. *)
Definition round (x : double) : double :=
  match x with
  | S754_finite s m e =>
      if 0 <=? e then x
      else of_sign_mag s (Z.shiftl (Zpos m + Z.shiftl 1 (- e - 1)) e)
  | _ => x
  end.

(** The conversion of a [double] to an [int] drops the fraction. A value
    that does not fit has no defined result; the model returns what the
    x86 conversion instruction does, [INT_MIN]. *)
Definition to_int (x : double) : Z :=
  match x with
  | S754_zero _ => 0
  | S754_finite s m e =>
      let z := cond_Zopp s (Z.shiftl (Zpos m) e) in
      if (INT_MIN <=? z) && (z <=? INT_MAX) then z else INT_MIN
  | _ => INT_MIN
  end.

Definition is_zero (x : double) : Prop := exists s, x = S754_zero s.

End Double.
Import Double.

(** The two functions of the C library the code calls on angles. *)
Record Libm : Type := mkLibm {
  c_sin : double -> double;
  c_cos : double -> double
}.

(** What the C standard (Annex F) fixes about them at a zero argument. *)
Definition libm_at_zero (lm : Libm) : Prop :=
  (forall s, is_zero (c_sin lm (S754_zero s))) /\
  (forall s, c_cos lm (S754_zero s) = of_int 1).

(** ** Textures and surfaces *)

Record Texture : Type := mkTexture {
  width : Z;
  height : Z;
  alphaMap : list Z
}.

(** The part of [SDL_PixelFormat] and [SDL_Surface] that [getAlpha] reads.
    [pixels] is the byte buffer of the surface. *)
Record SDL_PixelFormat : Type := mkFormat {
  BytesPerPixel : Z;
  Amask : Z;
  Ashift : Z;
  Aloss : Z
}.

Record SDL_Surface : Type := mkSurface {
  format : SDL_PixelFormat;
  pitch : Z;
  pixels : list Z
}.

(** What [getAlpha] takes from SDL: the byte order of the host and the alpha
    that [SDL_GetRGBA] extracts from a pixel value. *)
Record SDL : Type := mkSDL {
  SDL_BIG_ENDIAN_host : bool;
  SDL_GetRGBA_alpha : Z -> SDL_PixelFormat -> Z
}.

(** ** The code *)

Section Code.

Variable sdl : SDL.
Variable lm : Libm.
(** The content of storage that was never written: an uninitialised local
    variable, the cells of [new int[n]]. *)
Variable junk : Z.

(** *** [SBDL::getAlpha] *)

(** [*(Uint16* )p] and [*(Uint32* )p]: the bytes at [p] in host order. *)
Definition load_bytes (buf : list Z) (p : Z) (n : nat) : option (list Z) :=
  mapM (fun k => Mem.read buf (p + Z.of_nat k)) (seq 0 n).

Definition assemble_le (bs : list Z) : Z :=
  foldr (fun b acc => Z.lor b (Z.shiftl acc 8)) 0 bs.

Definition load_packed (buf : list Z) (p : Z) (n : nat) : option Z :=
  bs ← load_bytes buf p n;
  Some (assemble_le (if SDL_BIG_ENDIAN_host sdl then reverse bs else bs)).

Definition getAlpha (surface : SDL_Surface) (x y : Z) : option Z :=
  let bpp := BytesPerPixel (format surface) in
  let p := imul y (pitch surface) + imul x bpp in
  pixelColor ←
    (if bpp =? 1 then Mem.read (pixels surface) p
     else if bpp =? 2 then load_packed (pixels surface) p 2
     else if bpp =? 3 then
       p0 ← Mem.read (pixels surface) p;
       p1 ← Mem.read (pixels surface) (p + 1);
       p2 ← Mem.read (pixels surface) (p + 2);
       if SDL_BIG_ENDIAN_host sdl
       then Some (Z.lor (Z.lor (Z.shiftl p0 16) (Z.shiftl p1 8)) p2)
       else Some (Z.lor (Z.lor p0 (Z.shiftl p1 8)) (Z.shiftl p2 16))
     else if bpp =? 4 then load_packed (pixels surface) p 4
     else Some junk);
  Some (SDL_GetRGBA_alpha sdl pixelColor (format surface)).

(** *** [SBDL::resizeBilinear] *)

(** The body of the inner loop for one target cell: the four neighbours
    and their blend. [x] and [y] are the fixed-point source coordinates. *)
Definition sample (pixels : list Z) (w : Z) (y_index y_diff one_min_y_diff : Z)
    (x : Z) : option Z :=
  let xr := int_of_long (lshr x 16) in
  let x_diff := lsub x (ishl xr 16) in
  let one_min_x_diff := lsub 65536 x_diff in
  let index := iadd y_index xr in
  pA ← Mem.read pixels index;
  pB ← Mem.read pixels (iadd index 1);
  pC ← Mem.read pixels (iadd index w);
  pD ← Mem.read pixels (iadd (iadd index w) 1);
  let A := Z.land pA 255 in
  let B := Z.land pB 255 in
  let C := Z.land pC 255 in
  let D := Z.land pD 255 in
  Some (int_of_long (lshr
    (ladd (ladd (ladd
       (lmul (lmul A one_min_x_diff) one_min_y_diff)
       (lmul (lmul B x_diff) one_min_y_diff))
       (lmul (lmul C y_diff) one_min_x_diff))
       (lmul (lmul D x_diff) y_diff)) 32)).

(** The loop over [j]: [n] iterations remain; the state is the buffer,
    the write position and [x]. *)
Fixpoint resize_row (pixels : list Z) (w x_ratio : Z)
    (y_index y_diff one_min_y_diff : Z)
    (n : nat) (x : Z) (temp : list Z) (offset : Z) : option (list Z * Z) :=
  match n with
  | O => Some (temp, offset)
  | S n' =>
      alpha ← sample pixels w y_index y_diff one_min_y_diff x;
      temp' ← Mem.write temp offset alpha;
      resize_row pixels w x_ratio y_index y_diff one_min_y_diff
        n' (ladd x x_ratio) temp' (iadd offset 1)
  end.

(** The loop over [i]. *)
Fixpoint resize_rows (pixels : list Z) (w w2 x_ratio y_ratio : Z)
    (n : nat) (y : Z) (temp : list Z) (offset : Z) : option (list Z) :=
  match n with
  | O => Some temp
  | S n' =>
      let yr := int_of_long (lshr y 16) in
      let y_diff := lsub y (ishl yr 16) in
      let one_min_y_diff := lsub 65536 y_diff in
      let y_index := imul yr w in
      '(temp', offset') ←
        resize_row pixels w x_ratio y_index y_diff one_min_y_diff
          (Z.to_nat w2) 0 temp offset;
      resize_rows pixels w w2 x_ratio y_ratio n' (ladd y y_ratio) temp' offset'
  end.

Definition resizeBilinear (pixels : list Z) (w h w2 h2 : Z) : option (list Z) :=
  temp ← Mem.alloc (imul w2 h2) junk;
  x_ratio ← idiv_trap (ishl (isub w 1) 16) w2;
  y_ratio ← idiv_trap (ishl (isub h 1) 16) h2;
  resize_rows pixels w w2 x_ratio y_ratio (Z.to_nat h2) 0 temp 0.

(** *** [SBDL::getRotatedBoundingBox] *)

(** [ceil(a * angle_sin + b * angle_cos)] and [ceil(a * angle_cos - b *
    angle_sin)] stored into an [int]; each operation rounds on its own. *)
Definition ceil_plus (a b : Z) (angle_sin angle_cos : double) : Z :=
  to_int (ceil (add (mul (of_int a) angle_sin) (mul (of_int b) angle_cos))).

Definition ceil_minus (a b : Z) (angle_sin angle_cos : double) : Z :=
  to_int (ceil (sub (mul (of_int a) angle_cos) (mul (of_int b) angle_sin))).

Definition getRotatedBoundingBox (rect : SDL_Rect) (angle : double) : SDL_Rect :=
  let c_x := iadd (rx rect) (idiv (rw rect) 2) in
  let c_y := iadd (ry rect) (idiv (rh rect) 2) in
  let rect_x := isub (rx rect) c_x in
  let rect_y := isub (ry rect) c_y in
  let angle_sin := c_sin lm (div (mul angle M_PI) (of_int 180)) in
  let angle_cos := c_cos lm (div (mul angle M_PI) (of_int 180)) in
  let x1 := rect_x in
  let x4 := rect_x in
  let x2 := iadd rect_x (rw rect) in
  let x3 := iadd rect_x (rw rect) in
  let y1 := rect_y in
  let y2 := rect_y in
  let y3 := iadd rect_y (rh rect) in
  let y4 := iadd rect_y (rh rect) in
  let x1_2 := ceil_plus y1 x1 angle_sin angle_cos in
  let y1_2 := ceil_minus y1 x1 angle_sin angle_cos in
  let x2_2 := ceil_plus y2 x2 angle_sin angle_cos in
  let y2_2 := ceil_minus y2 x2 angle_sin angle_cos in
  let x3_2 := ceil_plus y3 x3 angle_sin angle_cos in
  let y3_2 := ceil_minus y3 x3 angle_sin angle_cos in
  let x4_2 := ceil_plus y4 x4 angle_sin angle_cos in
  let y4_2 := ceil_minus y4 x4 angle_sin angle_cos in
  let x1 := imin x1_2 (imin x2_2 (imin x3_2 x4_2)) in
  let x2 := imax x1_2 (imax x2_2 (imax x3_2 x4_2)) in
  let y2 := imin y1_2 (imin y2_2 (imin y3_2 y4_2)) in
  let y3 := imax y1_2 (imax y2_2 (imax y3_2 y4_2)) in
  mkRect (iadd x1 c_x) (iadd y2 c_y)
         (iadd (isub x2 x1) 1) (iadd (isub y3 y2) 1).

(** *** [SBDL::getRotatedAlphaMap] *)

(** [round(a * angle_sin + b * angle_cos)] and its companion, stored into
    an [int]. *)
Definition round_plus (a b : Z) (angle_sin angle_cos : double) : Z :=
  to_int (round (add (mul (of_int a) angle_sin) (mul (of_int b) angle_cos))).

Definition round_minus (a b : Z) (angle_sin angle_cos : double) : Z :=
  to_int (round (sub (mul (of_int a) angle_cos) (mul (of_int b) angle_sin))).

(** The index of [result] that the source cell [(i, j)] is written to. *)
Definition scatter_index (width height : Z) (angle_sin angle_cos : double)
    (boundingBox : SDL_Rect) (i j : Z) : Z :=
  let c_x := idiv width 2 in
  let c_y := idiv height 2 in
  let x := round_plus (isub i c_y) (isub j c_x) angle_sin angle_cos in
  let y := round_minus (isub i c_y) (isub j c_x) angle_sin angle_cos in
  iadd (iadd (iadd
    (imul (iadd (iadd y c_y) (idiv (isub (rh boundingBox) height) 2))
          (rw boundingBox))
    x) c_x) (idiv (isub (rw boundingBox) width) 2).

(** The loop over [j] in row [i]: [n] iterations remain. The counter stays
    below [width], so its increment does not wrap. *)
Fixpoint rotate_row (alphaMap : list Z) (width height : Z)
    (angle_sin angle_cos : double) (boundingBox : SDL_Rect) (i : Z)
    (n : nat) (j : Z) (result : list Z) : option (list Z) :=
  match n with
  | O => Some result
  | S n' =>
      v ← Mem.read alphaMap (iadd (imul i width) j);
      result' ←
        (if v =? 0 then Some result
         else Mem.write result
                (scatter_index width height angle_sin angle_cos boundingBox i j) v);
      rotate_row alphaMap width height angle_sin angle_cos boundingBox i
        n' (j + 1) result'
  end.

(** The loop over [i]. *)
Fixpoint rotate_rows (alphaMap : list Z) (width height : Z)
    (angle_sin angle_cos : double) (boundingBox : SDL_Rect)
    (n : nat) (i : Z) (result : list Z) : option (list Z) :=
  match n with
  | O => Some result
  | S n' =>
      result' ← rotate_row alphaMap width height angle_sin angle_cos
                  boundingBox i (Z.to_nat width) 0 result;
      rotate_rows alphaMap width height angle_sin angle_cos boundingBox
        n' (i + 1) result'
  end.

Definition getRotatedAlphaMap (alphaMap : list Z) (width height : Z)
    (angle : double) : option (list Z) :=
  let angle := mul angle (of_int (-1)) in
  let angle_sin := c_sin lm (div (mul angle M_PI) (of_int 180)) in
  let angle_cos := c_cos lm (div (mul angle M_PI) (of_int 180)) in
  let boundingBox := getRotatedBoundingBox (mkRect 0 0 width height) angle in
  result ← Mem.alloc (imul (rw boundingBox) (rh boundingBox)) 0;
  rotate_rows alphaMap width height angle_sin angle_cos boundingBox
    (Z.to_nat height) 0 result.

(** *** [SBDL::hasCollision] *)

(** The calls whose cost the bounding-box test is there to avoid are
    recorded: [hasCollision] runs in a monad that threads the list of the
    calls made so far and stops at a fault. *)
Inductive call : Type :=
| CallResize (w h w2 h2 : Z)
| CallRotate (width height : Z) (angle : double).

Definition M (A : Type) : Type := list call -> option (A * list call).

Definition ret {A} (a : A) : M A := fun tr => Some (a, tr).

Definition bind {A B} (m : M A) (k : A -> M B) : M B :=
  fun tr => match m tr with
            | Some (a, tr') => k a tr'
            | None => None
            end.

Definition called {A} (c : call) (r : option A) : M A :=
  fun tr => match r with
            | Some a => Some (a, tr ++ [c])
            | None => None
            end.

Definition resizeBilinear_call (pixels : list Z) (w h w2 h2 : Z) : M (list Z) :=
  called (CallResize w h w2 h2) (resizeBilinear pixels w h w2 h2).

Definition getRotatedAlphaMap_call (alphaMap : list Z) (width height : Z)
    (angle : double) : M (list Z) :=
  called (CallRotate width height angle)
         (getRotatedAlphaMap alphaMap width height angle).

(** The index of the cell of a map that the screen coordinate [(j, i)]
    falls on, [(i - box.y) * box.w + j - box.x]. *)
Definition scan_index (box : SDL_Rect) (i j : Z) : Z :=
  isub (iadd (imul (isub i (ry box)) (rw box)) j) (rx box).

(** The test of the inner loop; [&&] reads [map2] only when the cell of
    [map1] is not zero. *)
Definition both_opaque (map1 map2 : list Z) (box1 box2 : SDL_Rect)
    (i j : Z) : option bool :=
  v1 ← Mem.read map1 (scan_index box1 i j);
  if v1 =? 0 then Some false
  else
    v2 ← Mem.read map2 (scan_index box2 i j);
    Some (negb (v2 =? 0)).

(** The loop over [j]; [true] as soon as one coordinate hits. *)
Fixpoint scan_row (map1 map2 : list Z) (box1 box2 : SDL_Rect) (i : Z)
    (n : nat) (j : Z) : option bool :=
  match n with
  | O => Some false
  | S n' =>
      hit ← both_opaque map1 map2 box1 box2 i j;
      if hit : bool then Some true
      else scan_row map1 map2 box1 box2 i n' (j + 1)
  end.

(** The loop over [i]. *)
Fixpoint scan_rows (map1 map2 : list Z) (box1 box2 intersection : SDL_Rect)
    (n : nat) (i : Z) : option bool :=
  match n with
  | O => Some false
  | S n' =>
      hit ← scan_row map1 map2 box1 box2 i
              (Z.to_nat (iadd (rx intersection) (rw intersection) - rx intersection))
              (rx intersection);
      if hit : bool then Some true
      else scan_rows map1 map2 box1 box2 intersection n' (i + 1)
  end.

Definition hasCollision (texture1 : Texture) (rect1 : SDL_Rect) (angle1 : double)
    (texture2 : Texture) (rect2 : SDL_Rect) (angle2 : double) : M bool :=
  let box1 := getRotatedBoundingBox rect1 angle1 in
  let box2 := getRotatedBoundingBox rect2 angle2 in
  let intersection := getIntersectionRect box1 box2 in
  if rw intersection =? 0 then ret false
  else
    bind (resizeBilinear_call (alphaMap texture1) (width texture1)
            (height texture1) (rw rect1) (rh rect1)) (fun resized_map1 =>
    bind (resizeBilinear_call (alphaMap texture2) (width texture2)
            (height texture2) (rw rect2) (rh rect2)) (fun resized_map2 =>
    bind (getRotatedAlphaMap_call resized_map1 (rw rect1) (rh rect1) angle1)
         (fun map1 =>
    bind (getRotatedAlphaMap_call resized_map2 (rw rect2) (rh rect2) angle2)
         (fun map2 =>
    fun tr =>
      match scan_rows map1 map2 box1 box2 intersection
              (Z.to_nat (iadd (ry intersection) (rh intersection) - ry intersection))
              (ry intersection) with
      | Some b => Some (b, tr)
      | None => None
      end)))).

End Code.

(** ** Loading a texture *)

(** A decoded image as [loadTextureUnderneath] reads it: the surface and its
    fields [w] and [h]. *)
Record Picture : Type := mkPicture {
  pic_surface : SDL_Surface;
  pic_w : Z;
  pic_h : Z
}.

(** The calls of SDL that may change the surface before its alpha is read. *)
Record SDL_video : Type := mkVideo {
  SDL_MapRGB : SDL_PixelFormat -> Z -> Z -> Z -> Z;
  SDL_SetColorKey : Picture -> Z -> Picture;
  SDL_SetSurfaceAlphaMod : Picture -> Z -> Picture
}.

(** How a call of [loadTextureUnderneath] ends: with [exit], or with a
    texture. The handle of the texture on the graphics card is left out. *)
Inductive loaded : Type :=
| Exit (status : Z)
| Loaded (t : Texture).

Section Loading.

Variable sdl : SDL.
Variable video : SDL_video.
Variable junk : Z.

(** The loop over [j] in row [i]: [n] iterations remain. *)
Fixpoint alpha_row (pic : Picture) (i : Z) (n : nat) (j : Z)
    (alphaMap : list Z) : option (list Z) :=
  match n with
  | O => Some alphaMap
  | S n' =>
      alpha ← getAlpha sdl junk (pic_surface pic) j i;
      alphaMap' ← Mem.write alphaMap (iadd (imul i (pic_w pic)) j) alpha;
      alpha_row pic i n' (j + 1) alphaMap'
  end.

(** The loop over [i]. *)
Fixpoint alpha_rows (pic : Picture) (n : nat) (i : Z)
    (alphaMap : list Z) : option (list Z) :=
  match n with
  | O => Some alphaMap
  | S n' =>
      alphaMap' ← alpha_row pic i (Z.to_nat (pic_w pic)) 0 alphaMap;
      alpha_rows pic n' (i + 1) alphaMap'
  end.

(** The surface when the loops start: after the colour key and the alpha
    modulation, where they are asked for. *)
Definition prepared (pic : Picture) (changeColor : bool) (r g b alpha : Z) : Picture :=
  let pic :=
    if changeColor
    then SDL_SetColorKey video pic (SDL_MapRGB video (format (pic_surface pic)) r g b)
    else pic in
  if alpha =? 255 then pic else SDL_SetSurfaceAlphaMod video pic alpha.

(** [Core::loadTextureUnderneath]; [image] is what [IMG_Load] returned,
    [None] for the null pointer. *)
Definition loadTextureUnderneath (image : option Picture) (changeColor : bool)
    (r g b alpha : Z) : option loaded :=
  match image with
  | None => Some (Exit 1)
  | Some pic =>
      let pic := prepared pic changeColor r g b alpha in
      alphaMap ← Mem.alloc (imul (pic_w pic) (pic_h pic)) junk;
      alphaMap' ← alpha_rows pic (Z.to_nat (pic_h pic)) 0 alphaMap;
      Some (Loaded (mkTexture (pic_w pic) (pic_h pic) alphaMap'))
  end.

End Loading.

(** ** Keyboard and mouse *)

(** An event as [updateEvents] looks at it: its type, and the fields of the
    member of the union that are read. A button that goes down and a button
    that comes up take the same branch. *)
Inductive SDL_Event : Type :=
| SDL_MouseButtonEvent (button state clicks : Z)
| SDL_MouseWheelEvent (x y : Z)
| SDL_MouseMotionEvent (x y : Z)
| SDL_QuitEvent
| SDL_OtherEvent.

Definition SDL_BUTTON_LEFT : Z := 1.
Definition SDL_RELEASED : Z := 0.
Definition SDL_PRESSED : Z := 1.

(** The structure [Mouse]. *)
Module Mouse.

Record t : Type := mk {
  x : Z;
  y : Z;
  left : bool;
  right : bool;
  middle : bool;
  scroll_up : bool;
  scroll_down : bool;
  scroll_left : bool;
  scroll_right : bool;
  state : Z;
  clicks : Z;
  button : Z
}.

Definition clicked (m : t) (b c s : Z) : bool :=
  (button m =? b) && (clicks m =? c) && (state m =? s).

End Mouse.

(** The variables of the name space [Core] that the keyboard and the mouse
    use. [keystate] is a pointer into SDL: null, or the address of the array
    that SDL keeps up to date. *)
Module Core.

Record t : Type := mk {
  running : bool;
  keystate_size : Z;
  keystate : bool;
  old_keystate : option (list Z)
}.

End Core.

(** The state that [updateEvents] works on: the variables of the engine,
    and the keyboard array that SDL owns. *)
Record Engine : Type := mkEngine {
  core : Core.t;
  mouse : Mouse.t;
  SDL_keyboard : list Z
}.

(** The state when the program starts. *)
Definition engine_start (keyboard : list Z) : Engine :=
  mkEngine (Core.mk true (-1) false None)
           (Mouse.mk 0 0 false false false false false false false 0 0 0)
           keyboard.

Definition isRunning (e : Engine) : bool := Core.running (core e).

(** [Core::keystate[scanCode]] and [Core::old_keystate[scanCode]]. *)
Definition read_keystate (e : Engine) (scanCode : Z) : option Z :=
  if Core.keystate (core e) then Mem.read (SDL_keyboard e) scanCode else None.

Definition read_old_keystate (e : Engine) (scanCode : Z) : option Z :=
  old ← Core.old_keystate (core e); Mem.read old scanCode.

(** [&&] reads its second operand only when the first one is true. *)
Definition keyPressed (e : Engine) (scanCode : Z) : option bool :=
  o ← read_old_keystate e scanCode;
  if negb (o =? 0) then Some false
  else k ← read_keystate e scanCode; Some (negb (k =? 0)).

Definition keyReleased (e : Engine) (scanCode : Z) : option bool :=
  o ← read_old_keystate e scanCode;
  if o =? 0 then Some false
  else k ← read_keystate e scanCode; Some (k =? 0).

Definition keyHeld (e : Engine) (scanCode : Z) : option bool :=
  o ← read_old_keystate e scanCode;
  if o =? 0 then Some false
  else k ← read_keystate e scanCode; Some (negb (k =? 0)).

Section Events.

(** The content of [new Uint8[n]]. *)
Variable junk : Z.

(** [for (i = 0; i < keystate_size; i++) old_keystate[i] = 0]. *)
Fixpoint clear_keys (n : nat) (i : Z) (old : list Z) : option (list Z) :=
  match n with
  | O => Some old
  | S n' =>
      old' ← Mem.write old i 0;
      clear_keys n' (i + 1) old'
  end.

(** [for (i = 0; i < keystate_size; i++) old_keystate[i] = keystate[i]];
    the two pointers are followed in the body of the loop only. *)
Fixpoint copy_keys (keystate : option (list Z)) (n : nat) (i : Z)
    (old_keystate : option (list Z)) : option (option (list Z)) :=
  match n with
  | O => Some old_keystate
  | S n' =>
      keys ← keystate;
      k ← Mem.read keys i;
      old ← old_keystate;
      old' ← Mem.write old i k;
      copy_keys keystate n' (i + 1) (Some old')
  end.

(** The first part of [updateEvents]: the keyboard. [SDL_GetKeyboardState]
    returns the address of the array of SDL and stores its length. *)
Definition update_keys (e : Engine) : option Core.t :=
  let c := core e in
  let numkeys := Z.of_nat (length (SDL_keyboard e)) in
  if Core.keystate_size c =? -1 then
    old ← Mem.alloc numkeys junk;
    old' ← clear_keys (Z.to_nat numkeys) 0 old;
    Some (Core.mk (Core.running c) numkeys true (Some old'))
  else
    old' ← copy_keys (if Core.keystate c then Some (SDL_keyboard e) else None)
              (Z.to_nat (Core.keystate_size c)) 0 (Core.old_keystate c);
    Some (Core.mk (Core.running c) numkeys true old').

(** The branch of [updateEvents] that runs when no event is waiting. *)
Definition no_event (m : Mouse.t) : Mouse.t :=
  Mouse.mk (Mouse.x m) (Mouse.y m) false false false false false false false
           (Mouse.state m) (Mouse.clicks m) 0.

(** The body of the loop over the waiting events. *)
Definition handle_event (running : bool) (m : Mouse.t) (event : SDL_Event)
    : bool * Mouse.t :=
  match event with
  | SDL_MouseButtonEvent button state clicks =>
      let '(l, mi, r) :=
        if button =? 1 then (true, false, false)
        else if button =? 2 then (false, true, false)
        else if button =? 3 then (false, false, true)
        else (false, false, false) in
      (running,
       Mouse.mk (Mouse.x m) (Mouse.y m) l r mi
                (Mouse.scroll_up m) (Mouse.scroll_down m)
                (Mouse.scroll_left m) (Mouse.scroll_right m)
                state clicks button)
  | SDL_MouseWheelEvent x y =>
      (running,
       Mouse.mk (Mouse.x m) (Mouse.y m)
                (Mouse.left m) (Mouse.right m) (Mouse.middle m)
                (0 <? y) (y <? 0) (x <? 0) (0 <? x)
                (Mouse.state m) (Mouse.clicks m) (Mouse.button m))
  | SDL_MouseMotionEvent x y =>
      (running,
       Mouse.mk x y (Mouse.left m) (Mouse.right m) (Mouse.middle m)
                (Mouse.scroll_up m) (Mouse.scroll_down m)
                (Mouse.scroll_left m) (Mouse.scroll_right m)
                (Mouse.state m) (Mouse.clicks m) (Mouse.button m))
  | SDL_QuitEvent => (false, m)
  | SDL_OtherEvent => (running, m)
  end.

(** [while (SDL_PollEvent(&Core::event))]: the waiting events, one by one. *)
Fixpoint poll_events (events : list SDL_Event) (running : bool) (m : Mouse.t)
    : bool * Mouse.t :=
  match events with
  | [] => (running, m)
  | event :: events' =>
      let '(running', m') := handle_event running m event in
      poll_events events' running' m'
  end.

(** [SBDL::updateEvents]. What the call takes from outside are the keyboard
    array as [SDL_PumpEvents] leaves it, [pumped], and the events that wait
    in the queue. *)
Definition updateEvents (pumped : list Z) (events : list SDL_Event) (e : Engine)
    : option Engine :=
  c ← update_keys e;
  match events with
  | [] => Some (mkEngine c (no_event (mouse e)) pumped)
  | _ =>
      let '(running', m') := poll_events events (Core.running c) (mouse e) in
      Some (mkEngine (Core.mk running' (Core.keystate_size c) (Core.keystate c)
                        (Core.old_keystate c))
                     m' pumped)
  end.

End Events.

Section Pointer.

(** [SDL_PointInRect] on the point [(x, y)]. *)
Variable SDL_PointInRect : Z -> Z -> SDL_Rect -> bool.

Definition pointInRect (x y : Z) (rect : SDL_Rect) : bool :=
  SDL_PointInRect x y rect.

Definition mouseInRect (e : Engine) (rect : SDL_Rect) : bool :=
  pointInRect (Mouse.x (mouse e)) (Mouse.y (mouse e)) rect.

Definition rectClicked (e : Engine) (rect : SDL_Rect) : bool :=
  pointInRect (Mouse.x (mouse e)) (Mouse.y (mouse e)) rect &&
  Mouse.clicked (mouse e) SDL_BUTTON_LEFT 1 SDL_RELEASED.

Definition rectPressed (e : Engine) (rect : SDL_Rect) : bool :=
  pointInRect (Mouse.x (mouse e)) (Mouse.y (mouse e)) rect &&
  Mouse.clicked (mouse e) SDL_BUTTON_LEFT 1 SDL_PRESSED.

End Pointer.

(** ** A C library to compute with

    [sin] and [cos] by their power series in fixed point with 256 fractional
    bits, after reduction of the argument modulo 2 pi, rounded to the nearest
    [double]. The error before the final rounding is far below half a unit
    in the last place for the angles used in this file. *)

Module SeriesLibm.

Definition frac_bits : Z := 256.
Definition one_fx : Z := 2 ^ frac_bits.

(** The integer part of pi * 2^256. *)
Definition pi_fx : Z :=
  363771576891766324280234942777729862653393377328392429958772151117938894466185.

(** The nearest [double] of [n / d], [d > 0]: a quotient of 65 bits or
    more with a sticky bit, then one rounding. *)
Definition of_frac (n d : Z) : double :=
  if n =? 0 then S754_zero false
  else
    let k := 64 + Z.log2 d - Z.log2 (Z.abs n) in
    let num := if 0 <=? k then Z.abs n * 2 ^ k else Z.abs n in
    let den := if 0 <=? k then d else d * 2 ^ (- k) in
    let m := 2 * (num / den) + (if num mod den =? 0 then 0 else 1) in
    binary_normalize prec emax (if n <? 0 then - m else m) (- k - 1) false.

(** A finite [double] in fixed point. *)
Definition to_fx (s : bool) (m : positive) (e : Z) : Z :=
  cond_Zopp s (Z.shiftl (Zpos m) (e + frac_bits)).

Definition reduce (x_fx : Z) : Z := x_fx mod (2 * pi_fx).

(** [sum + t - t r^2/((k+1)(k+2)) + ...], [n] more terms. *)
Fixpoint series (n : nat) (r2 : Z) (k : Z) (t : Z) (sum : Z) : Z :=
  match n with
  | O => sum
  | S n' =>
      let t' := - (t * r2 / one_fx) / ((k + 1) * (k + 2)) in
      series n' r2 (k + 2) t' (sum + t')
  end.

Definition small (m : positive) (e : Z) : bool :=
  Z.log2 (Zpos m) + e <? -30.

Definition sin (x : double) : double :=
  match x with
  | S754_zero _ => x
  | S754_finite s m e =>
      if small m e then x
      else
        let r := reduce (to_fx s m e) in
        of_frac (series 60 (r * r / one_fx) 1 r r) one_fx
  | _ => S754_nan
  end.

Definition cos (x : double) : double :=
  match x with
  | S754_zero _ => of_int 1
  | S754_finite s m e =>
      if small m e then of_int 1
      else
        let r := reduce (to_fx s m e) in
        of_frac (series 60 (r * r / one_fx) 0 one_fx one_fx) one_fx
  | _ => S754_nan
  end.

Definition libm : Libm := mkLibm sin cos.

End SeriesLibm.

(** ** An SDL to compute with

    A little-endian host; [SDL_GetRGBA] on a format without a palette whose
    alpha channel has all eight bits: the channel is masked out and shifted
    down, and a format without an alpha mask is opaque. *)
Definition sdl_packed : SDL :=
mkSDL false
  (fun pixel fmt =>
     if Amask fmt =? 0 then 255
     else Z.shiftr (Z.land pixel (Amask fmt)) (Ashift fmt)).

(** ** Notions used in the statements *)

(** An opacity value. *)
Definition opacity (v : Z) : Prop := 0 <= v <= 255.

(** A [double] that holds the integer [z] in the format of [of_int]. *)
Definition holds (x : double) (z : Z) : Prop :=
  (z = 0 /\ is_zero x) \/
  (exists p k : positive,
     Z.abs z = Zpos p /\ Zpos (digits2_pos p) + Zpos k = 53 /\
     x = S754_finite (z <? 0) (Pos.iter xO p k) (- Zpos k)).

(** *** What the rotation leaves in a cell *)

Section Scatter.

Variables (alphaMap : list Z) (width height : Z).
(** The index a source cell is written to. *)
Variable dest : Z -> Z -> Z.

(** The source cell [(i, j)] holds [v], and [v] is not zero. *)
Definition opaque_at (i j v : Z) : Prop :=
  (0 <= i < height /\ 0 <= j < width) /\
  Mem.read alphaMap (iadd (imul i width) j) = Some v /\ v <> 0.

(** [(i, j)] comes before [(i', j')] in the row-major scan. *)
Definition row_major_lt (i j i' j' : Z) : Prop :=
  i < i' \/ (i = i' /\ j < j').

(** Cell [d] of the rotated map holds [r]: zero when no opaque source cell
    is sent to [d], else the value of the last one in scan order. *)
Definition rotated_cell (d r : Z) : Prop :=
  (r = 0 /\ forall i j v, opaque_at i j v -> dest i j <> d) \/
  (exists i j,
     opaque_at i j r /\ dest i j = d /\
     forall i' j' v', opaque_at i' j' v' -> row_major_lt i j i' j' ->
                      dest i' j' <> d).

(** The same, when the scan has only come as far as [(i0, j0)]. *)
Definition scattered (i0 j0 d r : Z) : Prop :=
  (r = 0 /\
   forall i j v, opaque_at i j v -> row_major_lt i j i0 j0 -> dest i j <> d) \/
  (exists i j,
     opaque_at i j r /\ row_major_lt i j i0 j0 /\ dest i j = d /\
     forall i' j' v', opaque_at i' j' v' -> row_major_lt i' j' i0 j0 ->
                      row_major_lt i j i' j' -> dest i' j' <> d).

(** Every cell of a result of [size] cells is in that state. *)
Definition all_cells (size : nat) (i0 j0 : Z) (result : list Z) : Prop :=
  length result = size /\
  forall d, 0 <= d < Z.of_nat size ->
  exists r, result !! Z.to_nat d = Some r /\ scattered i0 j0 d r.

End Scatter.

(** *** What the scan of the intersection looks for *)

(** The screen coordinate [(j, i)] lies in the rectangle. *)
Definition in_rect (r : SDL_Rect) (j i : Z) : Prop :=
  rx r <= j < rx r + rw r /\ ry r <= i < ry r + rh r.

(** The cell in column [x] and row [y] of a map is not zero, when the map
    is read in rows as long as [box] is wide. *)
Definition nonzero_at (map : list Z) (box : SDL_Rect) (x y : Z) : Prop :=
  exists v, Mem.read map (y * rw box + x) = Some v /\ v <> 0.

(** A box whose coordinates and sizes leave the [int] arithmetic of the
    scan far from wrapping. *)
Definition on_screen (box : SDL_Rect) : Prop :=
  (- 2 ^ 30 <= rx box <= 2 ^ 30 /\ - 2 ^ 30 <= ry box <= 2 ^ 30) /\
  (0 < rw box <= 2 ^ 15 /\ 0 < rh box <= 2 ^ 15).

(** *** Where a source cell lands in the rotated map *)

(** The box [getRotatedAlphaMap] computes for its result: the bounding box
    of the map at the negated angle. The result has as many cells as this
    box, and the width of this box is the length of its rows. *)
Definition rotation_box (lm : Libm) (width height : Z) (angle : double) : SDL_Rect :=
  getRotatedBoundingBox lm (mkRect 0 0 width height) (mul angle (of_int (-1))).

(** The column and the row of the result that the source cell [(i, j)] is
    sent to: its rounded rotated position, moved from the centre of the map
    to the centre of the box. The index of the write is
    [row * boundingBox.w + column]. *)
Definition rotated_column (width height : Z) (angle_sin angle_cos : double)
    (boundingBox : SDL_Rect) (i j : Z) : Z :=
  let c_x := idiv width 2 in
  let c_y := idiv height 2 in
  let x := round_plus (isub i c_y) (isub j c_x) angle_sin angle_cos in
  iadd (iadd x c_x) (idiv (isub (rw boundingBox) width) 2).

Definition rotated_row (width height : Z) (angle_sin angle_cos : double)
    (boundingBox : SDL_Rect) (i j : Z) : Z :=
  let c_x := idiv width 2 in
  let c_y := idiv height 2 in
  let y := round_minus (isub i c_y) (isub j c_x) angle_sin angle_cos in
  iadd (iadd y c_y) (idiv (isub (rh boundingBox) height) 2).

(** *** The map of a sprite *)

(** The map [hasCollision] builds for a sprite: the alpha map of the
    texture, resampled to the size of the rectangle and then rotated. *)
Definition sprite_map (lm : Libm) (junk : Z) (texture : Texture) (rect : SDL_Rect)
    (angle : double) : option (list Z) :=
  resized_map ← resizeBilinear junk (alphaMap texture) (width texture)
                  (height texture) (rw rect) (rh rect);
  getRotatedAlphaMap lm resized_map (rw rect) (rh rect) angle.

(** The cell in column [x] and row [y] of a map whose rows are as long as
    [layout] is wide is there, and is not zero. *)
Definition opaque_cell (map : list Z) (layout : SDL_Rect) (x y : Z) : Prop :=
  (0 <= x < rw layout /\ 0 <= y < rh layout) /\ nonzero_at map layout x y.

(** A C library that returns, for the sine and the cosine of a quarter turn
    in either direction, the doubles nearest to their values. *)
Definition libm_at_quarter_turn (lm : Libm) : Prop :=
  let left_turn := div (mul (of_int 90) M_PI) (of_int 180) in
  let right_turn := div (mul (mul (of_int 90) (of_int (-1))) M_PI) (of_int 180) in
  (c_sin lm left_turn = S754_finite false 4503599627370496 (-52) /\
   c_cos lm left_turn = S754_finite false 4967757600021511 (-106)) /\
  (c_sin lm right_turn = S754_finite true 4503599627370496 (-52) /\
   c_cos lm right_turn = S754_finite false 4967757600021511 (-106)).

(** *** Rectangles, textures and pictures the code is meant for *)

(** A rectangle whose four fields are within [2^29] of zero: the sums and
    differences that [getIntersectionRect] forms do not wrap. *)
Definition far_from_wrap (r : SDL_Rect) : Prop :=
  (- 2 ^ 29 <= rx r <= 2 ^ 29 /\ - 2 ^ 29 <= ry r <= 2 ^ 29) /\
  (- 2 ^ 29 <= rw r <= 2 ^ 29 /\ - 2 ^ 29 <= rh r <= 2 ^ 29).

(** A texture the resampler can read: at least two cells a side, and an
    alpha map of [width * height] cells. *)
Definition resamplable (t : Texture) : Prop :=
  (2 <= width t <= 32768 /\ 2 <= height t <= 32768) /\
  Z.of_nat (length (alphaMap t)) = width t * height t.

(** A destination rectangle on a screen: a positive size below [2^15], an
    origin within [2^29] of zero. *)
Definition drawable (r : SDL_Rect) : Prop :=
  (- 2 ^ 29 <= rx r <= 2 ^ 29 /\ - 2 ^ 29 <= ry r <= 2 ^ 29) /\
  (0 < rw r < 2 ^ 15 /\ 0 < rh r < 2 ^ 15).

(** A texture of a single row of cells. *)
Definition single_row (t : Texture) : Prop :=
  height t = 1 /\ 0 < width t <= INT_MAX /\ Z.of_nat (length (alphaMap t)) = width t.


(** A picture whose buffer holds [h] rows of [pitch] bytes, each row long
    enough for [w] pixels of one of the four byte widths. *)
Definition well_formed (pic : Picture) : Prop :=
  let s := pic_surface pic in
  1 <= BytesPerPixel (format s) <= 4 /\
  (0 <= pic_w pic /\ 0 <= pic_h pic) /\
  pic_w pic * BytesPerPixel (format s) <= pitch s /\
  pitch s * pic_h pic <= Z.of_nat (length (pixels s)) <= INT_MAX.

(** An SDL whose colour key and alpha modulation leave the picture as it
    is, as they do on a surface without a palette; the colour is packed as
    24 bits. *)
Definition video_still : SDL_video :=
mkVideo (fun _ r g b => Z.lor (Z.lor (Z.shiftl r 16) (Z.shiftl g 8)) b)
  (fun pic _ => pic) (fun pic _ => pic).

(** *** The keyboard and the mouse *)

(** The engine after a first call of [updateEvents]: the two pointers are
    set, and the copy of the keyboard has the length of the keyboard. *)
Definition keys_ready (e : Engine) : Prop :=
  Core.keystate_size (core e) = Z.of_nat (length (SDL_keyboard e)) /\
  Core.keystate (core e) = true /\
  exists old, Core.old_keystate (core e) = Some old /\
              length old = length (SDL_keyboard e).

(** The three flags of the buttons say what the field [button] says. *)
Definition buttons_agree (m : Mouse.t) : Prop :=
  Mouse.left m = (Mouse.button m =? 1) /\
  Mouse.middle m = (Mouse.button m =? 2) /\
  Mouse.right m = (Mouse.button m =? 3).

(** The click, as the fields [button], [state] and [clicks], of the last
    event of a button among the waiting events; [found] when there is none. *)
Fixpoint last_button (events : list SDL_Event) (found : Z * Z * Z) : Z * Z * Z :=
  match events with
  | [] => found
  | SDL_MouseButtonEvent button state clicks :: events' =>
      last_button events' (button, state, clicks)
  | _ :: events' => last_button events' found
  end.

Definition is_quit (event : SDL_Event) : bool :=
  match event with SDL_QuitEvent => true | _ => false end.

(** Engines to compute with: after a click of the left button, after a
    request to quit, and after a call that found no event. *)
Definition engine_after_click : Engine :=
mkEngine (Core.mk true 4 true (Some [0; 0; 0; 0]))
  (Mouse.mk 5 6 true false false false true false false 1 1 1) [1; 1; 0; 0].

Definition engine_after_quit : Engine :=
mkEngine (Core.mk false 4 true (Some [1; 1; 0; 0]))
  (Mouse.mk 8 9 true false false false true false false 1 1 1) [1; 0; 0; 1].

Definition engine_idle : Engine :=
mkEngine (Core.mk true 4 true (Some [1; 1; 0; 0]))
  (Mouse.mk 5 6 false false false false false false false 1 1 0) [1; 0; 0; 1].

(** * Properties *)

(** One step through a computation that may fault. *)
Ltac step_bind :=
  match goal with
  | |- (?m ≫= _) = Some _ -> _ =>
      let E := fresh "E" in destruct m eqn:E; simpl; [|discriminate]
  end.

(** Linear arithmetic with [/], [mod] and the truncating [quot]. *)
Ltac zdiv := Z.to_euclidean_division_equations; lia.

(** Closed comparisons of integers. *)
Ltac by_computation := vm_compute; repeat split; (discriminate || reflexivity).

(** ** Wrap-around arithmetic *)

Lemma wrap32_in_int (z : Z) : in_int (wrap32 z).
Proof.
  unfold in_int, wrap32, INT_MIN, INT_MAX.
  pose proof (Z.mod_pos_bound (z + 2 ^ 31) (2 ^ 32)). lia.
Qed.

Lemma wrap32_id (z : Z) : in_int z -> wrap32 z = z.
Proof.
  unfold in_int, wrap32, INT_MIN, INT_MAX. intros H.
  rewrite Z.mod_small; lia.
Qed.

Lemma wrap32_shift (z k : Z) : wrap32 (z + k * 2 ^ 32) = wrap32 z.
Proof.
  unfold wrap32. replace (z + k * 2 ^ 32 + 2 ^ 31) with (z + 2 ^ 31 + k * 2 ^ 32) by ring.
  now rewrite Z_mod_plus_full.
Qed.

Lemma wrap32_congr (z : Z) : exists k, wrap32 z = z + k * 2 ^ 32.
Proof.
  exists (- ((z + 2 ^ 31) / 2 ^ 32)). unfold wrap32.
  rewrite Z.mod_eq by lia. ring.
Qed.

Lemma wrap32_add_l (a b : Z) : wrap32 (wrap32 a + b) = wrap32 (a + b).
Proof.
  destruct (wrap32_congr a) as [k ->].
  replace (a + k * 2 ^ 32 + b) with (a + b + k * 2 ^ 32) by ring.
  apply wrap32_shift.
Qed.

Lemma wrap32_add_r (a b : Z) : wrap32 (a + wrap32 b) = wrap32 (a + b).
Proof. rewrite (Z.add_comm a), wrap32_add_l. f_equal. ring. Qed.

Lemma wrap32_sub_l (a b : Z) : wrap32 (wrap32 a - b) = wrap32 (a - b).
Proof. unfold Z.sub. apply wrap32_add_l. Qed.

Lemma wrap32_sub_r (a b : Z) : wrap32 (a - wrap32 b) = wrap32 (a - b).
Proof.
  destruct (wrap32_congr b) as [k ->].
  replace (a - (b + k * 2 ^ 32)) with (a - b + (- k) * 2 ^ 32) by ring.
  apply wrap32_shift.
Qed.

Lemma wrap32_mul_l (a b : Z) : wrap32 (wrap32 a * b) = wrap32 (a * b).
Proof.
  destruct (wrap32_congr a) as [k ->].
  replace ((a + k * 2 ^ 32) * b) with (a * b + (k * b) * 2 ^ 32) by ring.
  apply wrap32_shift.
Qed.

Lemma wrap64_id (z : Z) : - 2 ^ 63 <= z < 2 ^ 63 -> wrap64 z = z.
Proof. unfold wrap64. intros H. rewrite Z.mod_small; lia. Qed.

(** ** Buffers *)

Lemma read_Some (buf : list Z) (i v : Z) :
  Mem.read buf i = Some v ->
  0 <= i < Z.of_nat (length buf) /\ buf !! Z.to_nat i = Some v.
Proof.
  unfold Mem.read. destruct (0 <=? i) eqn:E1; [|discriminate].
  destruct (i <? Z.of_nat (length buf)) eqn:E2; [|discriminate].
  simpl. intros H. split; [lia | exact H].
Qed.

Lemma read_in_bounds (buf : list Z) (i : Z) :
  0 <= i < Z.of_nat (length buf) -> exists v, Mem.read buf i = Some v.
Proof.
  intros H. unfold Mem.read.
  replace (0 <=? i) with true by lia. replace (i <? Z.of_nat (length buf)) with true by lia.
  simpl. apply lookup_lt_is_Some_2. lia.
Qed.

Lemma read_None (buf : list Z) (i : Z) :
  ~ (0 <= i < Z.of_nat (length buf)) -> Mem.read buf i = None.
Proof.
  intros H. unfold Mem.read.
  destruct (0 <=? i) eqn:E1; [|reflexivity].
  destruct (i <? Z.of_nat (length buf)) eqn:E2; [|reflexivity]. lia.
Qed.

Lemma write_Some (buf : list Z) (i v : Z) (buf' : list Z) :
  Mem.write buf i v = Some buf' ->
  0 <= i < Z.of_nat (length buf) /\ buf' = <[Z.to_nat i := v]> buf.
Proof.
  unfold Mem.write. destruct (0 <=? i) eqn:E1; [|discriminate].
  destruct (i <? Z.of_nat (length buf)) eqn:E2; [|discriminate].
  simpl. intros [= <-]. split; [lia | reflexivity].
Qed.

Lemma write_in_bounds (buf : list Z) (i v : Z) :
  0 <= i < Z.of_nat (length buf) ->
  Mem.write buf i v = Some (<[Z.to_nat i := v]> buf).
Proof.
  intros H. unfold Mem.write.
  replace (0 <=? i) with true by lia. replace (i <? Z.of_nat (length buf)) with true by lia.
  reflexivity.
Qed.

(** ** The intersection of two rectangles *)

(** C8, as the code has it: a rectangle of positive width and height is its
    own intersection with itself, and any other rectangle meets itself in
    the sentinel. *)
Theorem getIntersectionRect_self (A : SDL_Rect) :
  rect_in_int A ->
  (0 < rw A /\ 0 < rh A -> getIntersectionRect A A = A) /\
  (~ (0 < rw A /\ 0 < rh A) -> getIntersectionRect A A = mkRect 0 0 0 0).
Proof.
  intros (Hx & Hy & Hw & Hh). destruct A as [x y w h]; simpl in *.
  unfold getIntersectionRect, imax, imin, isub, iadd; simpl.
  rewrite !Z.max_id, !Z.min_id, !wrap32_sub_l.
  replace (x + w - x) with w by ring. replace (y + h - y) with h by ring.
  rewrite !wrap32_id by assumption.
  destruct (Z.ltb_spec 0 w) as [Hpw | Hpw]; destruct (Z.ltb_spec 0 h) as [Hph | Hph];
    cbn [andb]; (split; [intros [? ?]; (reflexivity || lia) | intros Hn; (reflexivity || (exfalso; apply Hn; split; assumption))]).
Qed.

Lemma getIntersectionRect_self_witness :
  (0 < 10 /\ 0 < 20 ->
   getIntersectionRect (mkRect 3 4 10 20) (mkRect 3 4 10 20) = mkRect 3 4 10 20) /\
  (~ (0 < 10 /\ 0 < 20) ->
   getIntersectionRect (mkRect 3 4 10 20) (mkRect 3 4 10 20) = mkRect 0 0 0 0).
Proof.
  apply (getIntersectionRect_self (mkRect 3 4 10 20)).
  unfold rect_in_int, in_int, INT_MIN, INT_MAX; simpl; lia.
Defined.

(** C8 as stated fails on a rectangle of zero width: the guard on the width
    and height sends it to the sentinel. *)
Lemma getIntersectionRect_self_degenerate :
  getIntersectionRect (mkRect 3 4 0 5) (mkRect 3 4 0 5) <> mkRect 3 4 0 5.
Proof. vm_compute. discriminate. Qed.

(** ** The bilinear resampler *)

Lemma land_255_range (a : Z) : 0 <= Z.land a 255 <= 255.
Proof.
  assert (E : Z.land a 255 = a mod 2 ^ 8) by (apply (Z.land_ones a 8); lia).
  rewrite E. pose proof (Z.mod_pos_bound a (2 ^ 8)). lia.
Qed.

Lemma fixed_point_fraction (x : Z) :
  - 2 ^ 31 <= x < 2 ^ 31 ->
  lsub x (ishl (int_of_long (lshr x 16)) 16) = x mod 65536 /\
  int_of_long (lshr x 16) = x / 65536.
Proof.
  intros Hx. unfold lsub, ishl, int_of_long, lshr.
  rewrite Z.shiftr_div_pow2 by lia. change (2 ^ 16) with 65536.
  assert (Hq : - 32768 <= x / 65536 < 32768).
  { split; [apply Z.div_le_lower_bound | apply Z.div_lt_upper_bound]; lia. }
  rewrite (wrap32_id (x / 65536)) by (unfold in_int, INT_MIN, INT_MAX; lia).
  rewrite Z.shiftl_mul_pow2 by lia. change (2 ^ 16) with 65536.
  rewrite wrap32_id by (unfold in_int, INT_MIN, INT_MAX; lia).
  pose proof (Z.mod_pos_bound x 65536).
  assert (E : x - x / 65536 * 65536 = x mod 65536) by (rewrite Z.mod_eq by lia; ring).
  rewrite E. split; [apply wrap64_id; lia | reflexivity].
Qed.

Lemma scale_bound (A a : Z) : 0 <= A <= 255 -> 0 <= a -> 0 <= A * a <= 255 * a.
Proof.
  intros HA Ha. split; [apply Z.mul_nonneg_nonneg | apply Z.mul_le_mono_nonneg_r]; lia.
Qed.

Lemma weight_bound (A a : Z) : 0 <= A <= 255 -> 0 <= a <= 65536 -> 0 <= A * a <= 255 * 65536.
Proof.
  intros HA Ha. split; [apply Z.mul_nonneg_nonneg | apply Z.mul_le_mono_nonneg]; lia.
Qed.

Lemma blend_range (A B C D xd yd : Z) :
  0 <= A <= 255 -> 0 <= B <= 255 -> 0 <= C <= 255 -> 0 <= D <= 255 ->
  0 <= xd < 65536 -> 0 <= yd < 65536 ->
  let omx := lsub 65536 xd in
  let omy := lsub 65536 yd in
  0 <= int_of_long (lshr
         (ladd (ladd (ladd (lmul (lmul A omx) omy) (lmul (lmul B xd) omy))
                  (lmul (lmul C yd) omx)) (lmul (lmul D xd) yd)) 32) <= 255.
Proof.
  intros HA HB HC HD Hx Hy omx omy.
  assert (Eomx : omx = 65536 - xd) by (unfold omx, lsub; apply wrap64_id; lia).
  assert (Eomy : omy = 65536 - yd) by (unfold omy, lsub; apply wrap64_id; lia).
  rewrite Eomx, Eomy. clear omx omy Eomx Eomy.
  set (ox := 65536 - xd). set (oy := 65536 - yd).
  assert (Hox : 0 <= ox <= 65536) by (unfold ox; lia).
  assert (Hoy : 0 <= oy <= 65536) by (unfold oy; lia).
  assert (Ha : 0 <= ox * oy) by (apply Z.mul_nonneg_nonneg; lia).
  assert (Hb : 0 <= xd * oy) by (apply Z.mul_nonneg_nonneg; lia).
  assert (Hc : 0 <= yd * ox) by (apply Z.mul_nonneg_nonneg; lia).
  assert (Hd : 0 <= xd * yd) by (apply Z.mul_nonneg_nonneg; lia).
  assert (Hsum : ox * oy + xd * oy + yd * ox + xd * yd = 4294967296) by (unfold ox, oy; ring).
  pose proof (scale_bound A _ HA Ha) as HAa.
  pose proof (scale_bound B _ HB Hb) as HBb.
  pose proof (scale_bound C _ HC Hc) as HCc.
  pose proof (scale_bound D _ HD Hd) as HDd.
  assert (HAo : 0 <= A * ox <= 255 * 65536) by (apply weight_bound; lia).
  assert (HBx : 0 <= B * xd <= 255 * 65536) by (apply weight_bound; lia).
  assert (HCy : 0 <= C * yd <= 255 * 65536) by (apply weight_bound; lia).
  assert (HDx : 0 <= D * xd <= 255 * 65536) by (apply weight_bound; lia).
  unfold lmul, ladd, lshr, int_of_long.
  rewrite (wrap64_id (A * ox)) by lia.
  rewrite (wrap64_id (B * xd)) by lia.
  rewrite (wrap64_id (C * yd)) by lia.
  rewrite (wrap64_id (D * xd)) by lia.
  replace (A * ox * oy) with (A * (ox * oy)) by ring.
  replace (B * xd * oy) with (B * (xd * oy)) by ring.
  replace (C * yd * ox) with (C * (yd * ox)) by ring.
  replace (D * xd * yd) with (D * (xd * yd)) by ring.
  set (a := ox * oy) in *. set (b := xd * oy) in *.
  set (c := yd * ox) in *. set (d := xd * yd) in *.
  set (Aa := A * a) in *. set (Bb := B * b) in *.
  set (Cc := C * c) in *. set (Dd := D * d) in *.
  rewrite (wrap64_id Aa) by lia.
  rewrite (wrap64_id Bb) by lia.
  rewrite (wrap64_id Cc) by lia.
  rewrite (wrap64_id Dd) by lia.
  rewrite (wrap64_id (Aa + Bb)) by lia.
  rewrite (wrap64_id (Aa + Bb + Cc)) by lia.
  rewrite (wrap64_id (Aa + Bb + Cc + Dd)) by lia.
  rewrite Z.shiftr_div_pow2 by lia.
  assert (HS : 0 <= Aa + Bb + Cc + Dd <= 255 * 2 ^ 32) by lia.
  assert (Hq : 0 <= (Aa + Bb + Cc + Dd) / 2 ^ 32 <= 255).
  { split; [apply Z.div_pos; lia | apply Z.div_le_upper_bound; lia]. }
  rewrite wrap32_id by (unfold in_int, INT_MIN, INT_MAX; lia). exact Hq.
Qed.

Lemma sample_range (pixels : list Z) (w y_index yd x alpha : Z) :
  0 <= yd < 65536 -> - 2 ^ 31 <= x < 2 ^ 31 ->
  sample pixels w y_index yd (lsub 65536 yd) x = Some alpha ->
  opacity alpha.
Proof.
  intros Hyd Hx. unfold sample.
  destruct (fixed_point_fraction x Hx) as [-> _].
  do 4 step_bind.
  intros [= <-]. pose proof (Z.mod_pos_bound x 65536).
  apply blend_range; auto using land_255_range; lia.
Qed.

Lemma resize_row_inv (pixels : list Z) (w x_ratio y_index yd : Z) (n : nat) :
  forall (x : Z) (temp : list Z) (offset : Z) (temp' : list Z) (offset' : Z),
  0 <= yd < 65536 ->
  - 2 ^ 31 <= x_ratio <= 2 ^ 31 ->
  (forall k, 0 <= k < Z.of_nat n -> - 2 ^ 31 <= x + k * x_ratio < 2 ^ 31) ->
  Z.of_nat (length temp) <= INT_MAX ->
  0 <= offset <= Z.of_nat (length temp) ->
  Forall opacity (take (Z.to_nat offset) temp) ->
  resize_row pixels w x_ratio y_index yd (lsub 65536 yd) n x temp offset
    = Some (temp', offset') ->
  offset' = offset + Z.of_nat n /\ length temp' = length temp /\
  offset' <= Z.of_nat (length temp) /\
  Forall opacity (take (Z.to_nat offset') temp').
Proof.
  induction n as [|n IH]; intros x temp offset temp' offset' Hyd Hr Hx Hlen Hoff Hpre; simpl.
  - intros [= <- <-]. repeat split; [lia | lia | assumption].
  - destruct (sample _ _ _ _ _ _) as [alpha|] eqn:Es; simpl; [|discriminate].
    destruct (Mem.write _ _ _) as [temp1|] eqn:Ew; simpl; [|discriminate].
    apply write_Some in Ew as [Hin ->].
    assert (Hx0 : - 2 ^ 31 <= x < 2 ^ 31) by (specialize (Hx 0); lia).
    apply sample_range in Es; [|assumption..].
    unfold iadd, ladd. unfold INT_MAX in Hlen.
    rewrite wrap32_id by (unfold in_int, INT_MIN, INT_MAX; lia).
    rewrite wrap64_id by lia.
    intros Hrec.
    assert (Hx' : forall k, 0 <= k < Z.of_nat n ->
                  - 2 ^ 31 <= x + x_ratio + k * x_ratio < 2 ^ 31).
    { intros k Hk. replace (x + x_ratio + k * x_ratio) with (x + (k + 1) * x_ratio) by ring.
      apply Hx. lia. }
    assert (Hlen' : Z.of_nat (length (<[Z.to_nat offset:=alpha]> temp)) <= 2 ^ 31 - 1)
      by (rewrite length_insert; assumption).
    assert (Hpre' : Forall opacity (take (Z.to_nat (offset + 1))
                                      (<[Z.to_nat offset:=alpha]> temp))).
    { replace (Z.to_nat (offset + 1)) with (S (Z.to_nat offset)) by lia.
      rewrite (take_S_r _ _ alpha) by (apply list_lookup_insert_eq; lia).
      rewrite take_insert_ge by lia. apply Forall_app. split; [assumption|].
      apply Forall_singleton. exact Es. }
    assert (Hoff' : 0 <= offset + 1 <= Z.of_nat (length (<[Z.to_nat offset:=alpha]> temp)))
      by (rewrite length_insert; lia).
    destruct (IH _ _ _ _ _ Hyd Hr Hx' Hlen' Hoff' Hpre' Hrec) as (H1 & H2 & H3 & H4).
    rewrite length_insert in H2, H3. repeat split; [lia | assumption | lia | assumption].
Qed.

Lemma ratio_steps (r n k : Z) :
  Z.abs r * n <= 2 ^ 31 -> 0 <= k < n -> - 2 ^ 31 <= k * r < 2 ^ 31.
Proof.
  intros Hr Hk.
  assert (H1 : Z.abs (k * r) = k * Z.abs r) by (rewrite Z.abs_mul, (Z.abs_eq k); lia).
  assert (H2 : k * Z.abs r <= (n - 1) * Z.abs r)
    by (apply Z.mul_le_mono_nonneg_r; lia).
  destruct (Z.eq_dec r 0) as [-> | Hnz]; [lia|].
  assert (H3 : (n - 1) * Z.abs r = Z.abs r * n - Z.abs r) by ring.
  lia.
Qed.

Lemma quot_ratio (a b : Z) :
  in_int a -> 0 < b -> Z.abs (Z.quot a b) * b <= 2 ^ 31 /\ - 2 ^ 31 <= Z.quot a b <= 2 ^ 31.
Proof.
  unfold in_int, INT_MIN, INT_MAX. intros Ha Hb.
  assert (H1 : Z.abs (Z.quot a b) = Z.quot (Z.abs a) b).
  { rewrite <- Z.quot_abs by lia. now rewrite (Z.abs_eq b) by lia. }
  pose proof (Z.mul_quot_le (Z.abs a) b ltac:(lia) ltac:(lia)) as H2.
  assert (H3 : 0 <= Z.quot (Z.abs a) b) by (apply Z.quot_pos; lia).
  assert (H4 : Z.quot (Z.abs a) b <= b * Z.quot (Z.abs a) b).
  { replace (Z.quot (Z.abs a) b) with (1 * Z.quot (Z.abs a) b) at 1 by ring.
    apply Z.mul_le_mono_nonneg_r; lia. }
  split; [rewrite H1; lia | lia].
Qed.

Lemma resize_rows_inv (pixels : list Z) (w w2 x_ratio y_ratio : Z) (n : nat) :
  forall (y : Z) (temp : list Z) (offset : Z) (out : list Z),
  0 < w2 ->
  Z.abs x_ratio * w2 <= 2 ^ 31 -> - 2 ^ 31 <= x_ratio <= 2 ^ 31 ->
  - 2 ^ 31 <= y_ratio <= 2 ^ 31 ->
  (forall k, 0 <= k < Z.of_nat n -> - 2 ^ 31 <= y + k * y_ratio < 2 ^ 31) ->
  Z.of_nat (length temp) <= INT_MAX ->
  0 <= offset <= Z.of_nat (length temp) ->
  Forall opacity (take (Z.to_nat offset) temp) ->
  resize_rows pixels w w2 x_ratio y_ratio n y temp offset = Some out ->
  length out = length temp /\
  offset + Z.of_nat n * w2 <= Z.of_nat (length temp) /\
  Forall opacity (take (Z.to_nat (offset + Z.of_nat n * w2)) out).
Proof.
  induction n as [|n IH]; intros y temp offset out Hw2 Hxr Hxr' Hyr Hy Hlen Hoff Hpre; simpl.
  - intros [= <-]. rewrite Z.add_0_r. repeat split; [lia | assumption].
  - assert (Hy0 : - 2 ^ 31 <= y < 2 ^ 31) by (specialize (Hy 0); lia).
    destruct (fixed_point_fraction y Hy0) as [-> _].
    pose proof (Z.mod_pos_bound y 65536 ltac:(lia)) as Hyd.
    destruct (resize_row _ _ _ _ _ _ _ _ _ _) as [[temp1 offset1]|] eqn:Er; simpl; [|discriminate].
    apply resize_row_inv in Er; try assumption.
    2:{ intros k Hk. simpl. apply (ratio_steps x_ratio w2 k); lia. }
    destruct Er as (E1 & E2 & E3 & E4). subst offset1.
    unfold ladd. rewrite wrap64_id by lia. intros Hrec.
    assert (Hy' : forall k, 0 <= k < Z.of_nat n ->
                  - 2 ^ 31 <= y + y_ratio + k * y_ratio < 2 ^ 31).
    { intros k Hk. replace (y + y_ratio + k * y_ratio) with (y + (k + 1) * y_ratio) by ring.
      apply Hy. lia. }
    assert (Hlen1 : Z.of_nat (length temp1) <= INT_MAX) by (rewrite E2; assumption).
    assert (Hoff1 : 0 <= offset + Z.of_nat (Z.to_nat w2) <= Z.of_nat (length temp1))
      by (rewrite E2; lia).
    destruct (IH _ _ _ _ Hw2 Hxr Hxr' Hyr Hy' Hlen1 Hoff1 E4 Hrec) as (H1 & H2 & H3).
    rewrite E2 in H1, H2.
    replace (offset + Z.of_nat (Z.to_nat w2) + Z.of_nat n * w2)
      with (offset + Z.of_nat (S n) * w2) in H2, H3 by lia.
    repeat split; assumption.
Qed.

(** C9: whatever the source cells hold, every cell of the output of a
    resample that completes, that is, whose reads and writes stay inside
    their buffers, lies between 0 and 255. *)
Theorem resizeBilinear_range (junk : Z) (pixels : list Z) (w h w2 h2 : Z)
    (out : list Z) :
  0 < w2 -> 0 < h2 ->
  resizeBilinear junk pixels w h w2 h2 = Some out ->
  Forall (fun v => 0 <= v <= 255) out.
Proof.
  intros Hw2 Hh2. unfold resizeBilinear.
  destruct (Mem.alloc _ _) as [temp|] eqn:Ea; simpl; [|discriminate].
  destruct (idiv_trap _ w2) as [x_ratio|] eqn:Ex; simpl; [|discriminate].
  destruct (idiv_trap _ h2) as [y_ratio|] eqn:Ey; simpl; [|discriminate].
  unfold idiv_trap in Ex, Ey.
  destruct (_ || _) in Ex; [discriminate|]. destruct (_ || _) in Ey; [discriminate|].
  injection Ex as <-. injection Ey as <-.
  destruct (quot_ratio (ishl (isub w 1) 16) w2 (wrap32_in_int _) Hw2) as [Hx1 Hx2].
  destruct (quot_ratio (ishl (isub h 1) 16) h2 (wrap32_in_int _) Hh2) as [Hy1 Hy2].
  unfold Mem.alloc in Ea. destruct (0 <=? imul w2 h2) eqn:En; [|discriminate].
  injection Ea as <-.
  pose proof (wrap32_in_int (w2 * h2)) as Hn. fold (imul w2 h2) in Hn.
  unfold in_int, INT_MIN, INT_MAX in Hn.
  intros Hrun. apply resize_rows_inv in Hrun; try assumption.
  - destruct Hrun as (H1 & H2 & H3). rewrite length_replicate in H1, H2.
    rewrite Z.add_0_l, Z2Nat.id in H2, H3 by lia.
    destruct (wrap32_congr (w2 * h2)) as [k Hk]. fold (imul w2 h2) in Hk.
    rewrite (Z.mul_comm h2 w2) in H2, H3.
    pose proof (Z.mul_pos_pos w2 h2 Hw2 Hh2) as Hpos.
    assert (k = 0) by lia. subst k.
    rewrite take_ge in H3 by lia. exact H3.
  - intros k Hk. simpl. apply (ratio_steps _ h2 k); lia.
  - rewrite length_replicate. unfold INT_MAX. lia.
  - rewrite length_replicate. lia.
  - simpl. constructor.
Qed.

Lemma resizeBilinear_range_witness :
  Forall (fun v => 0 <= v <= 255) [232; 244; 204; 239; 247; 200; 247; 251; 195].
Proof.
  apply (resizeBilinear_range (-1) [1000; -5; 70000; 255; -2; 64] 3 2 3 3);
    [lia | lia | vm_compute; reflexivity].
Defined.

(** ** Integers in binary64 *)

Lemma digits2_pos_bounds (p : positive) :
  2 ^ (Zpos (digits2_pos p) - 1) <= Zpos p < 2 ^ Zpos (digits2_pos p).
Proof.
  induction p as [p IH | p IH |]; simpl digits2_pos;
    try pose proof (Pos2Z.is_pos (digits2_pos p)) as Hpos.
  - rewrite Pos2Z.inj_succ, (Pos2Z.inj_xI p).
    replace (Z.succ (Zpos (digits2_pos p)) - 1) with (Z.succ (Zpos (digits2_pos p) - 1)) by lia.
    rewrite (Z.pow_succ_r 2 (Zpos (digits2_pos p) - 1)), (Z.pow_succ_r 2 (Zpos (digits2_pos p))) by lia. lia.
  - rewrite Pos2Z.inj_succ, (Pos2Z.inj_xO p).
    replace (Z.succ (Zpos (digits2_pos p)) - 1) with (Z.succ (Zpos (digits2_pos p) - 1)) by lia.
    rewrite (Z.pow_succ_r 2 (Zpos (digits2_pos p) - 1)), (Z.pow_succ_r 2 (Zpos (digits2_pos p))) by lia. lia.
  - simpl. lia.
Qed.

Lemma digits2_pos_iter_xO (p k : positive) :
  Zpos (digits2_pos (Pos.iter xO p k)) = Zpos (digits2_pos p) + Zpos k.
Proof.
  induction k as [|k IH] using Pos.peano_ind.
  - simpl. lia.
  - rewrite Pos.iter_succ. simpl digits2_pos. lia.
Qed.

Lemma Zpos_iter_xO (p k : positive) :
  Zpos (Pos.iter xO p k) = Zpos p * 2 ^ Zpos k.
Proof.
  induction k as [|k IH] using Pos.peano_ind.
  - simpl. lia.
  - rewrite Pos.iter_succ, (Pos2Z.inj_xO (Pos.iter xO p k)), IH, Pos2Z.inj_succ, Z.pow_succ_r by lia. ring.
Qed.

(** A mantissa of 53 bits with an exponent in range is left alone by the
    rounding step. *)
Lemma binary_round_aux_canonical (s : bool) (m : positive) (e : Z) :
  Zpos (digits2_pos m) = 53 -> -1074 <= e <= 971 ->
  binary_round_aux prec emax s (Zpos m) e loc_Exact = S754_finite s m e.
Proof.
  intros Hd He.
  unfold binary_round_aux, shr_fexp, Zdigits2, fexp, emin, prec, emax.
  rewrite Hd.
  replace (Z.max (53 + e - 53) (3 - 1024 - 53) - e) with 0 by lia.
  simpl. rewrite Hd.
  replace (Z.max (53 + e - 53) (3 - 1024 - 53) - e) with 0 by lia.
  simpl. replace (e <=? 1024 - 53) with true by lia. reflexivity.
Qed.

Lemma of_int_1 : of_int 1 = S754_finite false 4503599627370496 (-52).
Proof. reflexivity. Qed.

Lemma of_int_holds (z : Z) : in_int z -> holds (of_int z) z.
Proof.
  unfold in_int, INT_MIN, INT_MAX. intros Hz.
  destruct z as [|p|p]; [left; split; [reflexivity | exists false; reflexivity] | |];
    right; pose proof (digits2_pos_bounds p) as Hd;
    assert (Hd32 : Zpos (digits2_pos p) <= 32)
      by (destruct (Z_le_gt_dec (Zpos (digits2_pos p)) 32) as [|Hgt]; [assumption|];
          pose proof (Z.pow_le_mono_r 2 32 (Zpos (digits2_pos p) - 1)); lia);
    pose proof (Pos2Z.is_pos (digits2_pos p)) as Hdpos;
    exists p, (Z.to_pos (53 - Zpos (digits2_pos p)));
    (split; [reflexivity|]); (split; [rewrite Z2Pos.id; lia|]);
    unfold of_int, binary_normalize, binary_round, shl_align, fexp, emin, prec, emax;
    replace (Z.max (Zpos (digits2_pos p) + 0 - 53) (3 - 1024 - 53) - 0)
      with (Zneg (Z.to_pos (53 - Zpos (digits2_pos p))))
      by (rewrite <- Pos2Z.opp_pos, Z2Pos.id; lia);
    replace (Z.max (Zpos (digits2_pos p) + 0 - 53) (3 - 1024 - 53))
      with (- Zpos (Z.to_pos (53 - Zpos (digits2_pos p))))
      by (rewrite Z2Pos.id; lia);
    apply binary_round_aux_canonical;
    [ rewrite digits2_pos_iter_xO, Z2Pos.id; lia | rewrite Z2Pos.id; lia
    | rewrite digits2_pos_iter_xO, Z2Pos.id; lia | rewrite Z2Pos.id; lia ].
Qed.

Lemma holds_cases (x : double) (z : Z) :
  holds x z ->
  (z = 0 /\ is_zero x) \/
  (z <> 0 /\ exists (m : positive) (k : positive),
     x = S754_finite (z <? 0) m (- Zpos k) /\
     Zpos (digits2_pos m) = 53 /\ Zpos k <= 52 /\
     Zpos m = Z.abs z * 2 ^ Zpos k).
Proof.
  intros [H | (p & k & Hp & Hd & ->)]; [left; exact H | right].
  split; [lia|]. exists (Pos.iter xO p k), k.
  pose proof (Pos2Z.is_pos (digits2_pos p)).
  repeat split.
  - rewrite digits2_pos_iter_xO. exact Hd.
  - lia.
  - rewrite Zpos_iter_xO, Hp. reflexivity.
Qed.

Lemma shr_fexp_canonical (m : positive) (e : Z) :
  Zpos (digits2_pos m) = 53 -> -1074 <= e ->
  shr_fexp prec emax (Zpos m) e loc_Exact = (Build_shr_record (Zpos m) false false, e).
Proof.
  intros Hd He. unfold shr_fexp, Zdigits2, fexp, emin, prec, emax. rewrite Hd.
  replace (Z.max (53 + e - 53) (3 - 1024 - 53) - e) with 0 by lia. reflexivity.
Qed.

Lemma shr_fexp_52 (m : positive) (e : Z) :
  Zpos (digits2_pos m) = 53 -> -1074 <= e + 52 ->
  shr_fexp prec emax (Zpos (Pos.iter xO m 52)) e loc_Exact
  = (Build_shr_record (Zpos m) false false, e + 52).
Proof.
  intros Hd He. unfold shr_fexp, Zdigits2, fexp, emin, prec, emax.
  rewrite digits2_pos_iter_xO, Hd.
  replace (Z.max (53 + 52 + e - 53) (3 - 1024 - 53) - e) with 52 by lia. reflexivity.
Qed.

(** Multiplication by 1.0 is exact. *)
Lemma mul_one (x : double) (z : Z) : holds x z -> mul x (of_int 1) = x.
Proof.
  intros H. apply holds_cases in H as [[_ [s ->]] | (_ & m & k & -> & Hd & Hk & _)].
  - destruct s; reflexivity.
  - rewrite of_int_1. unfold mul, SFmul.
    replace (m * 4503599627370496)%positive with (Pos.iter xO m 52)
      by (rewrite Pos.mul_comm; reflexivity).
    unfold binary_round_aux. fold prec emax.
    rewrite shr_fexp_52 by (assumption || lia). simpl.
    rewrite shr_fexp_canonical by (assumption || lia). simpl.
    replace (- Zpos k + -52 + 52 <=? emax - prec) with true by (unfold emax, prec; lia).
    rewrite xorb_false_r. f_equal. lia.
Qed.

(** Multiplication by a zero gives a zero. *)
Lemma mul_zero (x y : double) (z : Z) : holds x z -> is_zero y -> is_zero (mul x y).
Proof.
  intros H [sy ->]. apply holds_cases in H as [[_ [s ->]] | (_ & m & k & -> & _)];
    eexists; reflexivity.
Qed.

Lemma cond_Zopp_abs (z : Z) : cond_Zopp (z <? 0) (Z.abs z) = z.
Proof. unfold cond_Zopp. destruct (Z.ltb_spec z 0); lia. Qed.

(** The conversion back to [int], after [ceil] or [round] or directly. *)
Lemma to_int_holds (x : double) (z : Z) : in_int z -> holds x z -> to_int x = z.
Proof.
  intros Hz H. apply holds_cases in H as [[-> [s ->]] | (Hnz & m & k & -> & Hd & Hk & Hm)].
  - reflexivity.
  - assert (Hpow : 0 < 2 ^ Zpos k) by (apply Z.pow_pos_nonneg; lia).
    unfold to_int. rewrite Z.shiftl_opp_r, Z.shiftr_div_pow2, Hm, Z.div_mul by lia.
    rewrite cond_Zopp_abs. unfold in_int in Hz.
    replace (INT_MIN <=? z) with true by lia. replace (z <=? INT_MAX) with true by lia.
    reflexivity.
Qed.

Lemma ceil_holds (x : double) (z : Z) : in_int z -> holds x z -> holds (ceil x) z.
Proof.
  intros Hz H. destruct (holds_cases x z H) as [[-> [s ->]] | (Hnz & m & k & -> & Hd & Hk & Hm)].
  - exact H.
  - assert (Hpow : 0 < 2 ^ Zpos k) by (apply Z.pow_pos_nonneg; lia).
    unfold ceil. replace (0 <=? - Zpos k) with false by lia.
    rewrite (Z.shiftl_opp_r (Zpos m) (Zpos k)), Z.shiftr_div_pow2, Hm, Z.div_mul by lia.
    rewrite Z.opp_involutive, Z.shiftl_mul_pow2, <- Hm, Z.eqb_refl, orb_true_r by lia.
    unfold of_sign_mag. replace (Z.abs z =? 0) with false by lia.
    rewrite cond_Zopp_abs. apply of_int_holds. exact Hz.
Qed.

Lemma round_holds (x : double) (z : Z) : in_int z -> holds x z -> holds (round x) z.
Proof.
  intros Hz H. destruct (holds_cases x z H) as [[-> [s ->]] | (Hnz & m & k & -> & Hd & Hk & Hm)].
  - exact H.
  - unfold round. replace (0 <=? - Zpos k) with false by lia.
    replace (- - Zpos k - 1) with (Zpos k - 1) by lia.
    rewrite Z.shiftl_opp_r, Z.shiftr_div_pow2, Hm by lia.
    rewrite Z.shiftl_mul_pow2 by lia.
    assert (E2 : 2 ^ Zpos k = 2 * 2 ^ (Zpos k - 1)).
    { rewrite <- Z.pow_succ_r by lia. f_equal. lia. }
    assert (Hpow : 0 < 2 ^ (Zpos k - 1)) by (apply Z.pow_pos_nonneg; lia).
    assert (Eq : (Z.abs z * 2 ^ Zpos k + 1 * 2 ^ (Zpos k - 1)) / 2 ^ Zpos k = Z.abs z).
    { symmetry. apply (Z.div_unique _ _ _ (2 ^ (Zpos k - 1))); lia. }
    rewrite Eq. unfold of_sign_mag. replace (Z.abs z =? 0) with false by lia.
    rewrite cond_Zopp_abs. apply of_int_holds. exact Hz.
Qed.

(** Adding a zero, or taking one away, changes nothing that [holds]. *)
Lemma add_zero_l (x y : double) (z : Z) : is_zero x -> holds y z -> holds (add x y) z.
Proof.
  intros [sx ->] H. destruct (holds_cases y z H) as [[-> [s ->]] | (_ & m & k & -> & _)].
  - left. split; [reflexivity|]. destruct sx, s; eexists; reflexivity.
  - exact H.
Qed.

Lemma sub_zero_r (x y : double) (z : Z) : holds x z -> is_zero y -> holds (sub x y) z.
Proof.
  intros H [sy ->]. destruct (holds_cases x z H) as [[-> [s ->]] | (_ & m & k & -> & _)].
  - left. split; [reflexivity|]. destruct sy, s; eexists; reflexivity.
  - exact H.
Qed.

(** With a sine that is a zero and a cosine of 1.0, the rotation of an
    integer point is the point. *)
Section AxisAligned.

Variables (angle_sin angle_cos : double).
Hypothesis sin_zero : is_zero angle_sin.
Hypothesis cos_one : angle_cos = of_int 1.

Variables a b : Z.
Hypothesis a_int : in_int a.
Hypothesis b_int : in_int b.

Lemma plus_holds :
  holds (add (mul (of_int a) angle_sin) (mul (of_int b) angle_cos)) b.
Proof.
  apply add_zero_l.
  - apply (mul_zero _ _ a); [apply of_int_holds; assumption | assumption].
  - rewrite cos_one, (mul_one _ b); apply of_int_holds; assumption.
Qed.

Lemma minus_holds :
  holds (sub (mul (of_int a) angle_cos) (mul (of_int b) angle_sin)) a.
Proof.
  apply sub_zero_r.
  - rewrite cos_one, (mul_one _ a); apply of_int_holds; assumption.
  - apply (mul_zero _ _ b); [apply of_int_holds; assumption | assumption].
Qed.

Lemma ceil_plus_axis : ceil_plus a b angle_sin angle_cos = b.
Proof. apply to_int_holds, ceil_holds, plus_holds; assumption. Qed.

Lemma ceil_minus_axis : ceil_minus a b angle_sin angle_cos = a.
Proof. apply to_int_holds, ceil_holds, minus_holds; assumption. Qed.

Lemma round_plus_axis : round_plus a b angle_sin angle_cos = b.
Proof. apply to_int_holds, round_holds, plus_holds; assumption. Qed.

Lemma round_minus_axis : round_minus a b angle_sin angle_cos = a.
Proof. apply to_int_holds, round_holds, minus_holds; assumption. Qed.

End AxisAligned.

(** ** The bounding box at angle zero *)

Lemma radians_zero (angle : double) :
  is_zero angle -> is_zero (div (mul angle M_PI) (of_int 180)).
Proof. intros [s ->]. exists s. destruct s; reflexivity. Qed.

Lemma libm_sin_zero (lm : Libm) (angle : double) :
  libm_at_zero lm -> is_zero angle ->
  is_zero (c_sin lm (div (mul angle M_PI) (of_int 180))).
Proof.
  intros [Hs _] Ha. destruct (radians_zero angle Ha) as [s ->]. apply Hs.
Qed.

Lemma libm_cos_zero (lm : Libm) (angle : double) :
  libm_at_zero lm -> is_zero angle ->
  c_cos lm (div (mul angle M_PI) (of_int 180)) = of_int 1.
Proof.
  intros [_ Hc] Ha. destruct (radians_zero angle Ha) as [s ->]. apply Hc.
Qed.

(** One axis of the box: the centre, the two ends relative to it, and what
    the code makes of them. *)
Lemma axis_extent (x w : Z) :
  in_int x -> 0 <= w < INT_MAX ->
  let c := iadd x (idiv w 2) in
  let lo := isub x c in
  let hi := iadd lo w in
  lo <= hi /\ iadd lo c = x /\ iadd (isub hi lo) 1 = w + 1.
Proof.
  intros Hx Hw c lo hi. unfold in_int, INT_MIN, INT_MAX in Hx, Hw.
  assert (Elo : lo = - Z.quot w 2).
  { unfold lo, c, isub, iadd, idiv. rewrite wrap32_add_r, wrap32_sub_r.
    replace (x - (x + Z.quot w 2)) with (- Z.quot w 2) by ring.
    apply wrap32_id. unfold in_int, INT_MIN, INT_MAX. zdiv. }
  assert (Ehi : hi = w - Z.quot w 2).
  { unfold hi, iadd. rewrite Elo.
    replace (- Z.quot w 2 + w) with (w - Z.quot w 2) by ring.
    apply wrap32_id. unfold in_int, INT_MIN, INT_MAX. zdiv. }
  split; [lia|]. split.
  - unfold c, iadd, idiv. rewrite (wrap32_add_r x), wrap32_add_r, Elo.
    replace (- Z.quot w 2 + (x + Z.quot w 2)) with x by ring.
    apply wrap32_id. unfold in_int, INT_MIN, INT_MAX. lia.
  - unfold iadd, isub. rewrite wrap32_add_l, Elo, Ehi.
    replace (w - Z.quot w 2 - - Z.quot w 2 + 1) with (w + 1) by ring.
    apply wrap32_id. unfold in_int, INT_MIN, INT_MAX. lia.
Qed.

Lemma bounding_box_axis (lm : Libm) (rect : SDL_Rect) (angle : double) :
  libm_at_zero lm -> is_zero angle ->
  rect_in_int rect -> 0 <= rw rect < INT_MAX -> 0 <= rh rect < INT_MAX ->
  getRotatedBoundingBox lm rect angle
  = mkRect (rx rect) (ry rect) (rw rect + 1) (rh rect + 1).
Proof.
  intros Hlm Ha (Hx & Hy & _ & _) Hw Hh. destruct rect as [x y w h]; simpl in *.
  pose proof (libm_sin_zero lm angle Hlm Ha) as Hs.
  pose proof (libm_cos_zero lm angle Hlm Ha) as Hc.
  destruct (axis_extent x w Hx Hw) as (Hx1 & Hx2 & Hx3).
  destruct (axis_extent y h Hy Hh) as (Hy1 & Hy2 & Hy3).
  unfold getRotatedBoundingBox; simpl.
  set (angle_sin := c_sin lm _) in *. set (angle_cos := c_cos lm _) in *.
  set (c_x := iadd x (idiv w 2)) in *. set (c_y := iadd y (idiv h 2)) in *.
  set (xlo := isub x c_x) in *. set (ylo := isub y c_y) in *.
  set (xhi := iadd xlo w) in *. set (yhi := iadd ylo h) in *.
  assert (Ixlo : in_int xlo) by apply wrap32_in_int.
  assert (Iylo : in_int ylo) by apply wrap32_in_int.
  assert (Ixhi : in_int xhi) by apply wrap32_in_int.
  assert (Iyhi : in_int yhi) by apply wrap32_in_int.
  rewrite !(ceil_plus_axis angle_sin angle_cos Hs Hc) by assumption.
  rewrite !(ceil_minus_axis angle_sin angle_cos Hs Hc) by assumption.
  unfold imin, imax.
  replace (Z.min xlo (Z.min xhi (Z.min xhi xlo))) with xlo by lia.
  replace (Z.max xlo (Z.max xhi (Z.max xhi xlo))) with xhi by lia.
  replace (Z.min ylo (Z.min ylo (Z.min yhi yhi))) with ylo by lia.
  replace (Z.max ylo (Z.max ylo (Z.max yhi yhi))) with yhi by lia.
  rewrite Hx2, Hx3, Hy2, Hy3. reflexivity.
Qed.

Lemma series_libm_at_zero : libm_at_zero SeriesLibm.libm.
Proof. split; intros s; [exists s|]; reflexivity. Qed.

(** C4, as the code has it: at angle zero the bounding box of a rectangle
    of non-negative width and height keeps the origin of the rectangle and
    is one wider and one higher, the inclusive count of the columns from
    [x] to [x + w] and of the rows from [y] to [y + h]. *)
Theorem getRotatedBoundingBox_zero_angle (lm : Libm) (R : SDL_Rect) :
  libm_at_zero lm -> rect_in_int R ->
  0 <= rw R < INT_MAX -> 0 <= rh R < INT_MAX ->
  getRotatedBoundingBox lm R (of_int 0) = mkRect (rx R) (ry R) (rw R + 1) (rh R + 1).
Proof.
  intros Hlm HR Hw Hh. apply bounding_box_axis; try assumption.
  exists false. reflexivity.
Qed.

Lemma getRotatedBoundingBox_zero_angle_witness :
  getRotatedBoundingBox SeriesLibm.libm (mkRect 3 7 10 20) (of_int 0)
  = mkRect 3 7 11 21.
Proof.
  apply (getRotatedBoundingBox_zero_angle SeriesLibm.libm (mkRect 3 7 10 20)).
  - exact series_libm_at_zero.
  - unfold rect_in_int, in_int, INT_MIN, INT_MAX; simpl; lia.
  - unfold INT_MAX; simpl; lia.
  - unfold INT_MAX; simpl; lia.
Defined.

(** C4 as stated fails: the box of the 10 x 10 rectangle at the origin is
    11 x 11. *)
Lemma getRotatedBoundingBox_zero_angle_grows :
  getRotatedBoundingBox SeriesLibm.libm (mkRect 0 0 10 10) (of_int 0)
  <> mkRect 0 0 10 10.
Proof. vm_compute. discriminate. Qed.

(** ** The alpha of a pixel *)

(** C5, as the code has it: for a byte width outside 1, 2, 3 and 4 no branch
    of the [switch] assigns [pixelColor]; nothing stops the function, it
    returns the alpha that [SDL_GetRGBA] finds in the unassigned variable. *)
Theorem getAlpha_unsupported_width (sdl : SDL) (junk : Z) (surface : SDL_Surface)
    (x y : Z) :
  BytesPerPixel (format surface) <> 1 -> BytesPerPixel (format surface) <> 2 ->
  BytesPerPixel (format surface) <> 3 -> BytesPerPixel (format surface) <> 4 ->
  getAlpha sdl junk surface x y
  = Some (SDL_GetRGBA_alpha sdl junk (format surface)).
Proof.
  intros H1 H2 H3 H4. unfold getAlpha.
  destruct (Z.eqb_spec (BytesPerPixel (format surface)) 1); [contradiction|].
  destruct (Z.eqb_spec (BytesPerPixel (format surface)) 2); [contradiction|].
  destruct (Z.eqb_spec (BytesPerPixel (format surface)) 3); [contradiction|].
  destruct (Z.eqb_spec (BytesPerPixel (format surface)) 4); [contradiction|].
  reflexivity.
Qed.

Lemma getAlpha_unsupported_width_witness :
  getAlpha sdl_packed 305419896
    (mkSurface (mkFormat 5 4278190080 24 0) 20 (replicate 40 0)) 1 1
  = Some 18.
Proof.
  apply (getAlpha_unsupported_width sdl_packed 305419896
           (mkSurface (mkFormat 5 4278190080 24 0) 20 (replicate 40 0)) 1 1);
    simpl; lia.
Defined.

(** C5 as stated fails: at five bytes per pixel the call does not stop with
    an error, it returns an alpha. *)
Lemma getAlpha_five_bytes_returns :
  getAlpha sdl_packed 305419896
    (mkSurface (mkFormat 5 4278190080 24 0) 20 (replicate 40 0)) 1 1
  <> None.
Proof. vm_compute. discriminate. Qed.

(** ** The collision test: the cheap reject *)

(** C2: when the two bounding boxes meet in the sentinel, [hasCollision]
    answers [false] and the list of recorded calls is the one it started
    with: neither the resampler nor the rotation was called. *)
Theorem hasCollision_cheap_reject (lm : Libm) (junk : Z)
    (texture1 : Texture) (rect1 : SDL_Rect) (angle1 : double)
    (texture2 : Texture) (rect2 : SDL_Rect) (angle2 : double) (tr : list call) :
  getIntersectionRect (getRotatedBoundingBox lm rect1 angle1)
                      (getRotatedBoundingBox lm rect2 angle2) = mkRect 0 0 0 0 ->
  hasCollision lm junk texture1 rect1 angle1 texture2 rect2 angle2 tr
  = Some (false, tr).
Proof. intros H. unfold hasCollision. rewrite H. reflexivity. Qed.

Lemma hasCollision_cheap_reject_witness :
  hasCollision SeriesLibm.libm 0
    (mkTexture 10 10 (replicate 100 255)) (mkRect 0 0 10 10) (of_int 0)
    (mkTexture 10 10 (replicate 100 255)) (mkRect 100 100 10 10) (of_int 0) []
  = Some (false, []).
Proof.
  apply (hasCollision_cheap_reject SeriesLibm.libm 0
           (mkTexture 10 10 (replicate 100 255)) (mkRect 0 0 10 10) (of_int 0)
           (mkTexture 10 10 (replicate 100 255)) (mkRect 100 100 10 10) (of_int 0) []).
  vm_compute. reflexivity.
Defined.

(** X13: the record is not idle: past the reject, a call that completes
    has made the two resamples and the two rotations, in this order, and
    nothing else. *)
Lemma hasCollision_calls (lm : Libm) (junk : Z)
    (texture1 : Texture) (rect1 : SDL_Rect) (angle1 : double)
    (texture2 : Texture) (rect2 : SDL_Rect) (angle2 : double)
    (tr tr' : list call) (b : bool) :
  rw (getIntersectionRect (getRotatedBoundingBox lm rect1 angle1)
                          (getRotatedBoundingBox lm rect2 angle2)) <> 0 ->
  hasCollision lm junk texture1 rect1 angle1 texture2 rect2 angle2 tr
  = Some (b, tr') ->
  tr' = tr ++ [CallResize (width texture1) (height texture1) (rw rect1) (rh rect1);
               CallResize (width texture2) (height texture2) (rw rect2) (rh rect2);
               CallRotate (rw rect1) (rh rect1) angle1;
               CallRotate (rw rect2) (rh rect2) angle2].
Proof.
  intros Hne. unfold hasCollision.
  destruct (Z.eqb_spec (rw (getIntersectionRect (getRotatedBoundingBox lm rect1 angle1)
                              (getRotatedBoundingBox lm rect2 angle2))) 0);
    [contradiction|].
  unfold bind, resizeBilinear_call, getRotatedAlphaMap_call, called.
  destruct (resizeBilinear junk _ _ _ _ _) as [m1|]; [|discriminate].
  destruct (resizeBilinear junk _ _ _ _ _) as [m2|]; [|discriminate].
  destruct (getRotatedAlphaMap lm m1 _ _ _) as [q1|]; [|discriminate].
  destruct (getRotatedAlphaMap lm m2 _ _ _) as [q2|]; [|discriminate].
  destruct (scan_rows _ _ _ _ _ _ _) as [hit|]; [|discriminate].
  intros [= _ <-]. rewrite <- !app_assoc. reflexivity.
Qed.

Lemma hasCollision_calls_witness :
  [CallResize 10 10 10 10; CallResize 10 10 10 10;
   CallRotate 10 10 (of_int 0); CallRotate 10 10 (of_int 0)]
  = [] ++ [CallResize (width (mkTexture 10 10 (replicate 100 255)))
             (height (mkTexture 10 10 (replicate 100 255)))
             (rw (mkRect 0 0 10 10)) (rh (mkRect 0 0 10 10));
           CallResize (width (mkTexture 10 10 (replicate 100 255)))
             (height (mkTexture 10 10 (replicate 100 255)))
             (rw (mkRect 9 0 10 10)) (rh (mkRect 9 0 10 10));
           CallRotate (rw (mkRect 0 0 10 10)) (rh (mkRect 0 0 10 10)) (of_int 0);
           CallRotate (rw (mkRect 9 0 10 10)) (rh (mkRect 9 0 10 10)) (of_int 0)].
Proof.
  apply (hasCollision_calls SeriesLibm.libm 0
           (mkTexture 10 10 (replicate 100 255)) (mkRect 0 0 10 10) (of_int 0)
           (mkTexture 10 10 (replicate 100 255)) (mkRect 9 0 10 10) (of_int 0)
           [] _ true).
  - vm_compute. discriminate.
  - vm_compute. reflexivity.
Defined.

(** ** The collision test on two opaque squares side by side *)

Lemma resize_opaque_10 (junk : Z) :
  resizeBilinear junk (replicate 100 255) 10 10 10 10 = Some (replicate 100 255).
Proof. vm_compute. reflexivity. Qed.

Lemma negated_zero : is_zero (mul (of_int 0) (of_int (-1))).
Proof. exists true. reflexivity. Qed.

(** The rotation of the opaque square by zero degrees: the square, with one
    more column and one more row of zeros. *)
Lemma rotate_opaque_10 (lm : Libm) :
  libm_at_zero lm ->
  getRotatedAlphaMap lm (replicate 100 255) 10 10 (of_int 0)
  = Some (concat (replicate 10 (replicate 10 255 ++ [0])) ++ replicate 11 0).
Proof.
  intros Hlm. unfold getRotatedAlphaMap.
  rewrite (bounding_box_axis lm (mkRect 0 0 10 10) _ Hlm negated_zero)
    by (unfold rect_in_int, in_int, INT_MIN, INT_MAX; simpl; lia).
  rewrite (libm_cos_zero lm _ Hlm negated_zero).
  destruct (libm_sin_zero lm _ Hlm negated_zero) as [s ->].
  destruct s; vm_compute; reflexivity.
Qed.

(** The box of a 10 x 10 square on the top row of the screen. *)
Lemma square_box (lm : Libm) (x : Z) :
  libm_at_zero lm -> 0 <= x <= 1000 ->
  getRotatedBoundingBox lm (mkRect x 0 10 10) (of_int 0) = mkRect x 0 11 11.
Proof.
  intros Hlm Hx.
  apply (bounding_box_axis lm (mkRect x 0 10 10) (of_int 0) Hlm).
  - exists false. reflexivity.
  - unfold rect_in_int, in_int, INT_MIN, INT_MAX. simpl. lia.
  - unfold INT_MAX. simpl. lia.
  - unfold INT_MAX. simpl. lia.
Qed.

(** C7: two opaque 10 x 10 textures drawn at their own size and at angle
    zero, the second one starting in the column where the first one ends:
    [hasCollision] answers [false], after the two resamples and the two
    rotations. *)
Theorem hasCollision_edge_adjacent (lm : Libm) (junk : Z) :
  libm_at_zero lm ->
  hasCollision lm junk
    (mkTexture 10 10 (replicate 100 255)) (mkRect 0 0 10 10) (of_int 0)
    (mkTexture 10 10 (replicate 100 255)) (mkRect 10 0 10 10) (of_int 0) []
  = Some (false, [CallResize 10 10 10 10; CallResize 10 10 10 10;
                  CallRotate 10 10 (of_int 0); CallRotate 10 10 (of_int 0)]).
Proof.
  intros Hlm. unfold hasCollision.
  rewrite (square_box lm 0 Hlm), (square_box lm 10 Hlm) by lia.
  cbn [width height alphaMap rw rh rx ry].
  change (getIntersectionRect (mkRect 0 0 11 11) (mkRect 10 0 11 11))
    with (mkRect 10 0 1 11).
  cbn [rw rh rx ry]. change (1 =? 0) with false. cbv iota.
  unfold bind, resizeBilinear_call, getRotatedAlphaMap_call, called.
  rewrite resize_opaque_10, (rotate_opaque_10 lm Hlm).
  vm_compute. reflexivity.
Qed.

Lemma hasCollision_edge_adjacent_witness :
  hasCollision SeriesLibm.libm 0
    (mkTexture 10 10 (replicate 100 255)) (mkRect 0 0 10 10) (of_int 0)
    (mkTexture 10 10 (replicate 100 255)) (mkRect 10 0 10 10) (of_int 0) []
  = Some (false, [CallResize 10 10 10 10; CallResize 10 10 10 10;
                  CallRotate 10 10 (of_int 0); CallRotate 10 10 (of_int 0)]).
Proof.
  apply (hasCollision_edge_adjacent SeriesLibm.libm 0). exact series_libm_at_zero.
Defined.

(** The same two squares one column closer do collide. *)
Lemma hasCollision_one_column_overlap (lm : Libm) (junk : Z) :
  libm_at_zero lm ->
  exists tr,
    hasCollision lm junk
      (mkTexture 10 10 (replicate 100 255)) (mkRect 0 0 10 10) (of_int 0)
      (mkTexture 10 10 (replicate 100 255)) (mkRect 9 0 10 10) (of_int 0) []
    = Some (true, tr).
Proof.
  intros Hlm. eexists. unfold hasCollision.
  rewrite (square_box lm 0 Hlm), (square_box lm 9 Hlm) by lia.
  cbn [width height alphaMap rw rh rx ry].
  change (getIntersectionRect (mkRect 0 0 11 11) (mkRect 9 0 11 11))
    with (mkRect 9 0 2 11).
  cbn [rw rh rx ry]. change (2 =? 0) with false. cbv iota.
  unfold bind, resizeBilinear_call, getRotatedAlphaMap_call, called.
  rewrite resize_opaque_10, (rotate_opaque_10 lm Hlm).
  vm_compute. reflexivity.
Qed.

(** ** The rotation of an alpha map *)

Section ScatterProof.

Variables (alphaMap : list Z) (width height : Z).
Variables (angle_sin angle_cos : double) (boundingBox : SDL_Rect).

Let dest := scatter_index width height angle_sin angle_cos boundingBox.
Let opaque := opaque_at alphaMap width height.
Let state := scattered alphaMap width height dest.

Variable size : nat.

Let all_cells := all_cells alphaMap width height dest size.

Hypothesis reads_in_bounds :
  forall i j, 0 <= i < height -> 0 <= j < width ->
  exists v, Mem.read alphaMap (iadd (imul i width) j) = Some v.
Hypothesis writes_in_bounds :
  forall i j v, opaque i j v -> 0 <= dest i j < Z.of_nat size.

(** A cell of the source that is zero changes nothing. *)
Lemma scattered_skip (i j d r : Z) :
  Mem.read alphaMap (iadd (imul i width) j) = Some 0 ->
  state i j d r -> state i (j + 1) d r.
Proof.
  intros Hz [[Hr Hno] | (i1 & j1 & Hop & Hlt & Hd & Hlast)].
  - left. split; [exact Hr|]. intros i' j' v' Hop' Hlt'.
    destruct (Z.eq_dec i' i) as [-> | Hi]; [destruct (Z.eq_dec j' j) as [-> | Hj]|].
    + destruct Hop' as (_ & Hread & Hnz). congruence.
    + apply (Hno i j' v' Hop'). unfold row_major_lt in *. lia.
    + apply (Hno i' j' v' Hop'). unfold row_major_lt in *. lia.
  - right. exists i1, j1. split; [exact Hop|]. split; [|split; [exact Hd|]].
    + unfold row_major_lt in *. lia.
    + intros i' j' v' Hop' Hlt' Hafter.
      destruct (Z.eq_dec i' i) as [-> | Hi]; [destruct (Z.eq_dec j' j) as [-> | Hj]|].
      * destruct Hop' as (_ & Hread & Hnz). congruence.
      * apply (Hlast i j' v' Hop'); [unfold row_major_lt in *; lia | assumption].
      * apply (Hlast i' j' v' Hop'); [unfold row_major_lt in *; lia | assumption].
Qed.

(** An opaque cell takes over the cell it is written to ... *)
Lemma scattered_hit (i j v : Z) :
  opaque i j v -> state i (j + 1) (dest i j) v.
Proof.
  intros Hop. right. exists i, j. split; [exact Hop|]. split; [|split; [reflexivity|]].
  - unfold row_major_lt. lia.
  - intros i' j' v' _ Hlt Hafter. unfold row_major_lt in *. lia.
Qed.

(** ... and leaves the others as they are. *)
Lemma scattered_miss (i j v d r : Z) :
  opaque i j v -> dest i j <> d ->
  state i j d r -> state i (j + 1) d r.
Proof.
  intros Hop Hne [[Hr Hno] | (i1 & j1 & Hop1 & Hlt & Hd & Hlast)].
  - left. split; [exact Hr|]. intros i' j' v' Hop' Hlt'.
    destruct (Z.eq_dec i' i) as [-> | Hi]; [destruct (Z.eq_dec j' j) as [-> | Hj]|].
    + exact Hne.
    + apply (Hno i j' v' Hop'). unfold row_major_lt in *. lia.
    + apply (Hno i' j' v' Hop'). unfold row_major_lt in *. lia.
  - right. exists i1, j1. split; [exact Hop1|]. split; [|split; [exact Hd|]].
    + unfold row_major_lt in *. lia.
    + intros i' j' v' Hop' Hlt' Hafter.
      destruct (Z.eq_dec i' i) as [-> | Hi]; [destruct (Z.eq_dec j' j) as [-> | Hj]|].
      * exact Hne.
      * apply (Hlast i j' v' Hop'); [unfold row_major_lt in *; lia | assumption].
      * apply (Hlast i' j' v' Hop'); [unfold row_major_lt in *; lia | assumption].
Qed.

(** The end of a row is the start of the next one. *)
Lemma scattered_next_row (i d r : Z) :
  state i width d r -> state (i + 1) 0 d r.
Proof.
  assert (Hrow : forall i' j' v', opaque i' j' v' ->
            (row_major_lt i' j' (i + 1) 0 <-> row_major_lt i' j' i width)).
  { intros i' j' v' ((Hi & Hj) & _). unfold row_major_lt. lia. }
  intros [[Hr Hno] | (i1 & j1 & Hop1 & Hlt & Hd & Hlast)].
  - left. split; [exact Hr|]. intros i' j' v' Hop' Hlt'.
    apply (Hno i' j' v' Hop'). apply (Hrow i' j' v' Hop'). exact Hlt'.
  - right. exists i1, j1. split; [exact Hop1|]. split; [|split; [exact Hd|]].
    + apply (Hrow i1 j1 r Hop1). exact Hlt.
    + intros i' j' v' Hop' Hlt' Hafter.
      apply (Hlast i' j' v' Hop'); [apply (Hrow i' j' v' Hop'); exact Hlt' | assumption].
Qed.

Lemma rotate_row_inv (i : Z) (n : nat) :
  forall (j : Z) (result : list Z),
  0 <= i < height -> 0 <= j -> j + Z.of_nat n = width ->
  all_cells i j result ->
  exists result',
    rotate_row alphaMap width height angle_sin angle_cos boundingBox i n j result
    = Some result' /\ all_cells i width result'.
Proof.
  induction n as [|n IH]; intros j result Hi Hj Hn Hall.
  - exists result. split; [reflexivity|]. replace width with j by lia. exact Hall.
  - cbn [rotate_row]. destruct (reads_in_bounds i j Hi ltac:(lia)) as [v Hv].
    rewrite Hv. cbn [mbind option_bind].
    destruct Hall as [Hlen Hcells].
    destruct (Z.eqb_spec v 0) as [-> | Hnz]; cbn [mbind option_bind].
    + apply IH; [assumption | lia | lia |]. split; [exact Hlen|].
      intros d Hd. destruct (Hcells d Hd) as (r & Hr & Hst).
      exists r. split; [exact Hr | apply scattered_skip; assumption].
    + assert (Hop : opaque i j v) by (split; [lia | split; assumption]).
      pose proof (writes_in_bounds i j v Hop) as Hw. fold dest.
      rewrite write_in_bounds by (rewrite Hlen; exact Hw). cbn [mbind option_bind].
      apply IH; [assumption | lia | lia |]. split; [rewrite length_insert; exact Hlen|].
      intros d Hd. destruct (Z.eq_dec (dest i j) d) as [<- | Hne].
      * exists v. split; [apply list_lookup_insert_eq; lia | apply scattered_hit; exact Hop].
      * destruct (Hcells d Hd) as (r & Hr & Hst). exists r. split.
        -- rewrite list_lookup_insert_ne by lia. exact Hr.
        -- apply (scattered_miss i j v); assumption.
Qed.

Lemma rotate_rows_inv (n : nat) :
  forall (i : Z) (result : list Z),
  0 <= i -> 0 <= width -> i + Z.of_nat n = height ->
  all_cells i 0 result ->
  exists result',
    rotate_rows alphaMap width height angle_sin angle_cos boundingBox n i result
    = Some result' /\ all_cells height 0 result'.
Proof.
  induction n as [|n IH]; intros i result Hi Hw Hn Hall.
  - exists result. split; [reflexivity|]. replace height with i by lia. exact Hall.
  - cbn [rotate_rows].
    destruct (rotate_row_inv i (Z.to_nat width) 0 result) as (r1 & -> & [Hlen Hcells]);
      [lia | lia | lia | exact Hall |].
    cbn [mbind option_bind]. apply IH; [lia | lia | lia |]. split; [exact Hlen|].
    intros d Hd. destruct (Hcells d Hd) as (r & Hr & Hst).
    exists r. split; [exact Hr | apply scattered_next_row; exact Hst].
Qed.

Lemma all_cells_start : all_cells 0 0 (replicate size 0).
Proof.
  split; [apply length_replicate|]. intros d Hd. exists 0. split.
  - apply lookup_replicate_2. lia.
  - left. split; [reflexivity|]. intros i j v ((Hi & Hj) & _) Hlt.
    unfold row_major_lt in Hlt. lia.
Qed.

Lemma all_cells_end (result : list Z) (d : Z) :
  all_cells height 0 result -> 0 <= d < Z.of_nat size ->
  exists r, result !! Z.to_nat d = Some r /\
            rotated_cell alphaMap width height dest d r.
Proof.
  assert (Hin : forall i j v, opaque i j v -> row_major_lt i j height 0).
  { intros i j v ((Hi & Hj) & _). unfold row_major_lt. lia. }
  intros [_ Hcells] Hd. destruct (Hcells d Hd) as (r & Hr & Hst).
  exists r. split; [exact Hr|].
  destruct Hst as [[Hz Hno] | (i & j & Hop & Hlt & Hdest & Hlast)].
  - left. split; [exact Hz|]. intros i j v Hop. apply (Hno i j v Hop), (Hin i j v Hop).
  - right. exists i, j. split; [exact Hop|]. split; [exact Hdest|].
    intros i' j' v' Hop' Hafter. apply (Hlast i' j' v' Hop'); [apply (Hin i' j' v' Hop') | exact Hafter].
Qed.

End ScatterProof.

(** The cells of a [width] x [height] map are where the code reads them. *)
Lemma source_reads (alphaMap : list Z) (width height : Z) :
  Z.of_nat (length alphaMap) = width * height -> width * height <= INT_MAX ->
  forall i j, 0 <= i < height -> 0 <= j < width ->
  exists v, Mem.read alphaMap (iadd (imul i width) j) = Some v.
Proof.
  intros Hlen Hmax i j Hi Hj. unfold INT_MAX in Hmax.
  assert (H1 : 0 <= i * width) by (apply Z.mul_nonneg_nonneg; lia).
  assert (H2 : i * width + width <= height * width).
  { replace (i * width + width) with ((i + 1) * width) by ring.
    apply Z.mul_le_mono_nonneg_r; lia. }
  unfold iadd, imul. rewrite wrap32_add_l.
  rewrite wrap32_id by (unfold in_int, INT_MIN, INT_MAX; lia).
  apply read_in_bounds. lia.
Qed.

(** X29: when every write of the rotation of a [width] x [height] map
    lands inside the buffer, the rotation completes, and every cell of its
    result is zero when no opaque source cell is written to its index, and
    otherwise holds the value of the last source cell, in row-major order,
    that is written to it. Source cells that are zero never count. *)
Theorem getRotatedAlphaMap_last_write_wins (lm : Libm) (alphaMap : list Z)
    (width height : Z) (angle : double) :
  let angle' := mul angle (of_int (-1)) in
  let angle_sin := c_sin lm (div (mul angle' M_PI) (of_int 180)) in
  let angle_cos := c_cos lm (div (mul angle' M_PI) (of_int 180)) in
  let boundingBox := getRotatedBoundingBox lm (mkRect 0 0 width height) angle' in
  let dest := scatter_index width height angle_sin angle_cos boundingBox in
  let size := imul (rw boundingBox) (rh boundingBox) in
  0 < width -> 0 < height ->
  Z.of_nat (length alphaMap) = width * height -> width * height <= INT_MAX ->
  0 <= size ->
  (forall i j v, opaque_at alphaMap width height i j v -> 0 <= dest i j < size) ->
  exists result,
    getRotatedAlphaMap lm alphaMap width height angle = Some result /\
    Z.of_nat (length result) = size /\
    forall d, 0 <= d < size ->
    exists r, result !! Z.to_nat d = Some r /\
              rotated_cell alphaMap width height dest d r.
Proof.
  intros angle' angle_sin angle_cos boundingBox dest size Hw Hh Hlen Hmax Hsize Hwrites.
  pose proof (source_reads alphaMap width height Hlen Hmax) as Hreads.
  assert (Hwrites' : forall i j v, opaque_at alphaMap width height i j v ->
                     0 <= dest i j < Z.of_nat (Z.to_nat size)).
  { intros i j v Hop. rewrite Z2Nat.id by exact Hsize. exact (Hwrites i j v Hop). }
  unfold getRotatedAlphaMap.
  fold angle'. fold angle_sin. fold angle_cos. fold boundingBox. fold size.
  unfold Mem.alloc. replace (0 <=? size) with true by lia. cbn [mbind option_bind].
  destruct (rotate_rows_inv alphaMap width height angle_sin angle_cos boundingBox
              (Z.to_nat size) Hreads Hwrites' (Z.to_nat height) 0
              (replicate (Z.to_nat size) 0))
    as (result & Hrun & Hall); [lia | lia | lia | apply all_cells_start |].
  exists result. split; [exact Hrun|]. split.
  - destruct Hall as [-> _]. lia.
  - intros d Hd.
    apply (all_cells_end alphaMap width height angle_sin angle_cos boundingBox
             (Z.to_nat size) result d Hall). lia.
Qed.

Lemma getRotatedAlphaMap_last_write_wins_witness :
  exists result,
    getRotatedAlphaMap SeriesLibm.libm [1; 2; 0; 4; 5; 6; 7; 8; 9] 3 3 (of_int 30)
    = Some result /\
    Z.of_nat (length result) = 25 /\
    forall d, 0 <= d < 25 ->
    exists r, result !! Z.to_nat d = Some r /\
              rotated_cell [1; 2; 0; 4; 5; 6; 7; 8; 9] 3 3
                (scatter_index 3 3
                   (c_sin SeriesLibm.libm
                      (div (mul (mul (of_int 30) (of_int (-1))) M_PI) (of_int 180)))
                   (c_cos SeriesLibm.libm
                      (div (mul (mul (of_int 30) (of_int (-1))) M_PI) (of_int 180)))
                   (getRotatedBoundingBox SeriesLibm.libm (mkRect 0 0 3 3)
                      (mul (of_int 30) (of_int (-1)))))
                d r.
Proof.
  apply (getRotatedAlphaMap_last_write_wins SeriesLibm.libm
           [1; 2; 0; 4; 5; 6; 7; 8; 9] 3 3 (of_int 30)).
  - lia.
  - lia.
  - reflexivity.
  - by_computation.
  - by_computation.
  - intros i j v ((Hi & Hj) & _).
    assert (Ei : i = 0 \/ i = 1 \/ i = 2) by lia.
    assert (Ej : j = 0 \/ j = 1 \/ j = 2) by lia.
    destruct Ei as [-> | [-> | ->]]; destruct Ej as [-> | [-> | ->]]; by_computation.
Defined.

(** *** A cell that lands beside the box *)

(** The index of the write is the row times the width of the box, plus the
    column. *)
Lemma scatter_index_row_column (width height : Z) (angle_sin angle_cos : double)
    (boundingBox : SDL_Rect) (i j : Z) :
  scatter_index width height angle_sin angle_cos boundingBox i j
  = iadd (imul (rotated_row width height angle_sin angle_cos boundingBox i j)
               (rw boundingBox))
         (rotated_column width height angle_sin angle_cos boundingBox i j).
Proof.
  unfold scatter_index, rotated_row, rotated_column. cbv zeta.
  set (start := imul _ (rw boundingBox)).
  set (x := round_plus _ _ angle_sin angle_cos).
  set (c_x := idiv width 2). set (pad := idiv _ 2).
  unfold iadd. rewrite !wrap32_add_l, wrap32_add_r.
  replace (wrap32 (start + x) + c_x + pad) with (wrap32 (start + x) + (c_x + pad)) by lia.
  rewrite wrap32_add_l. f_equal. lia.
Qed.

(** C6 on a map of two columns and four rows turned by 145 degrees, for
    every C library that returns, for the sine and the cosine of
    [-145 * M_PI / 180], the doubles nearest to their values. The box is 4
    cells wide and 6 high and every write lands in the buffer, but the
    rounded rotated position of the source cell in row 0 and column 0 is
    column 4 of row 4, one column to the right of the box: its value is
    written to index 20, which is column 0 of row 5, a cell that is the
    rounded rotated position of no source cell. *)
Theorem getRotatedAlphaMap_beside_the_box (lm : Libm) :
  let angle := mul (of_int 145) (of_int (-1)) in
  let angle_sin := c_sin lm (div (mul angle M_PI) (of_int 180)) in
  let angle_cos := c_cos lm (div (mul angle M_PI) (of_int 180)) in
  let boundingBox := rotation_box lm 2 4 (of_int 145) in
  let column := rotated_column 2 4 angle_sin angle_cos boundingBox in
  let row := rotated_row 2 4 angle_sin angle_cos boundingBox in
  angle_sin = S754_finite true 5166317250038139 (-53) ->
  angle_cos = S754_finite true 7378265682839365 (-53) ->
  exists result,
    getRotatedAlphaMap lm [1; 2; 3; 4; 5; 6; 7; 8] 2 4 (of_int 145) = Some result /\
    (rw boundingBox = 4 /\ rh boundingBox = 6) /\
    (column 0 0 = 4 /\ row 0 0 = 4 /\
     scatter_index 2 4 angle_sin angle_cos boundingBox 0 0 = 20) /\
    result !! Z.to_nat (5 * rw boundingBox + 0) = Some 1 /\
    forall i j, 0 <= i < 4 -> 0 <= j < 2 -> ~ (column i j = 0 /\ row i j = 5).
Proof.
  intros angle angle_sin angle_cos boundingBox column row Hs Hc.
  assert (Hbox : boundingBox = mkRect 0 0 4 6).
  { unfold boundingBox, rotation_box, getRotatedBoundingBox.
    fold angle. fold angle_sin. fold angle_cos. rewrite Hs, Hc. vm_compute. reflexivity. }
  exists [0; 0; 0; 0; 0; 0; 0; 0; 0; 8; 7; 5; 0; 0; 6; 3; 0; 0; 0; 4; 1; 0; 0; 2].
  split; [|split; [|split; [|split]]].
  - unfold getRotatedAlphaMap. fold angle. fold angle_sin. fold angle_cos.
    change (getRotatedBoundingBox lm (mkRect 0 0 2 4) angle) with boundingBox.
    rewrite Hbox, Hs, Hc. vm_compute. reflexivity.
  - rewrite Hbox. split; reflexivity.
  - unfold column, row. rewrite Hbox, Hs, Hc. repeat split; vm_compute; reflexivity.
  - rewrite Hbox. reflexivity.
  - intros i j Hi Hj. unfold column, row. rewrite Hbox, Hs, Hc.
    assert (Ei : i = 0 \/ i = 1 \/ i = 2 \/ i = 3) by lia.
    assert (Ej : j = 0 \/ j = 1) by lia.
    destruct Ei as [-> | [-> | [-> | ->]]]; destruct Ej as [-> | ->];
      vm_compute; intros [H1 H2]; discriminate.
Qed.

Lemma getRotatedAlphaMap_beside_the_box_witness :
  exists result,
    getRotatedAlphaMap SeriesLibm.libm [1; 2; 3; 4; 5; 6; 7; 8] 2 4 (of_int 145)
    = Some result /\
    (rw (rotation_box SeriesLibm.libm 2 4 (of_int 145)) = 4 /\
     rh (rotation_box SeriesLibm.libm 2 4 (of_int 145)) = 6) /\
    (rotated_column 2 4
       (c_sin SeriesLibm.libm (div (mul (mul (of_int 145) (of_int (-1))) M_PI) (of_int 180)))
       (c_cos SeriesLibm.libm (div (mul (mul (of_int 145) (of_int (-1))) M_PI) (of_int 180)))
       (rotation_box SeriesLibm.libm 2 4 (of_int 145)) 0 0 = 4 /\
     rotated_row 2 4
       (c_sin SeriesLibm.libm (div (mul (mul (of_int 145) (of_int (-1))) M_PI) (of_int 180)))
       (c_cos SeriesLibm.libm (div (mul (mul (of_int 145) (of_int (-1))) M_PI) (of_int 180)))
       (rotation_box SeriesLibm.libm 2 4 (of_int 145)) 0 0 = 4 /\
     scatter_index 2 4
       (c_sin SeriesLibm.libm (div (mul (mul (of_int 145) (of_int (-1))) M_PI) (of_int 180)))
       (c_cos SeriesLibm.libm (div (mul (mul (of_int 145) (of_int (-1))) M_PI) (of_int 180)))
       (rotation_box SeriesLibm.libm 2 4 (of_int 145)) 0 0 = 20) /\
    result !! Z.to_nat (5 * rw (rotation_box SeriesLibm.libm 2 4 (of_int 145)) + 0)
    = Some 1 /\
    forall i j, 0 <= i < 4 -> 0 <= j < 2 ->
    ~ (rotated_column 2 4
         (c_sin SeriesLibm.libm (div (mul (mul (of_int 145) (of_int (-1))) M_PI) (of_int 180)))
         (c_cos SeriesLibm.libm (div (mul (mul (of_int 145) (of_int (-1))) M_PI) (of_int 180)))
         (rotation_box SeriesLibm.libm 2 4 (of_int 145)) i j = 0 /\
       rotated_row 2 4
         (c_sin SeriesLibm.libm (div (mul (mul (of_int 145) (of_int (-1))) M_PI) (of_int 180)))
         (c_cos SeriesLibm.libm (div (mul (mul (of_int 145) (of_int (-1))) M_PI) (of_int 180)))
         (rotation_box SeriesLibm.libm 2 4 (of_int 145)) i j = 5).
Proof.
  apply (getRotatedAlphaMap_beside_the_box SeriesLibm.libm); vm_compute; reflexivity.
Defined.

(** *** The rotation by zero degrees *)

(** At angle zero the scatter is in bounds: the source cell [(i, j)] goes to
    row [i] and column [j] of a result that is one column wider and one row
    higher than the source. *)
Lemma scatter_index_axis (width height : Z) (angle_sin angle_cos : double) (i j : Z) :
  is_zero angle_sin -> angle_cos = of_int 1 ->
  0 < width -> 0 < height -> (width + 1) * (height + 1) <= INT_MAX ->
  0 <= i < height -> 0 <= j < width ->
  scatter_index width height angle_sin angle_cos
    (mkRect 0 0 (width + 1) (height + 1)) i j = i * (width + 1) + j /\
  0 <= i * (width + 1) + j < (width + 1) * (height + 1).
Proof.
  intros Hs Hc Hw Hh Harea Hi Hj. unfold INT_MAX in Harea.
  assert (H0 : 0 <= i * (width + 1)) by (apply Z.mul_nonneg_nonneg; lia).
  assert (H1 : i * (width + 1) + (width + 1) <= height * (width + 1)).
  { replace (i * (width + 1) + (width + 1)) with ((i + 1) * (width + 1)) by ring.
    apply Z.mul_le_mono_nonneg_r; lia. }
  assert (H2 : (width + 1) * (height + 1) = height * (width + 1) + (width + 1)) by ring.
  assert (H3 : 0 <= height * (width + 1)) by (apply Z.mul_nonneg_nonneg; lia).
  split; [|lia].
  assert (Hwi : in_int width) by (unfold in_int, INT_MIN, INT_MAX; lia).
  assert (Hhi : in_int height) by (unfold in_int, INT_MIN, INT_MAX; lia).
  unfold scatter_index. cbn [rw rh].
  rewrite (round_plus_axis angle_sin angle_cos Hs Hc) by apply wrap32_in_int.
  rewrite (round_minus_axis angle_sin angle_cos Hs Hc) by apply wrap32_in_int.
  assert (Ecx : idiv width 2 = width / 2)
    by (unfold idiv; rewrite Z.quot_div_nonneg by lia;
        apply wrap32_id; unfold in_int, INT_MIN, INT_MAX; zdiv).
  assert (Ecy : idiv height 2 = height / 2)
    by (unfold idiv; rewrite Z.quot_div_nonneg by lia;
        apply wrap32_id; unfold in_int, INT_MIN, INT_MAX; zdiv).
  assert (Eh : idiv (isub (height + 1) height) 2 = 0).
  { unfold isub. replace (height + 1 - height) with 1 by ring. reflexivity. }
  assert (Ew : idiv (isub (width + 1) width) 2 = 0).
  { unfold isub. replace (width + 1 - width) with 1 by ring. reflexivity. }
  rewrite Ecx, Ecy, Eh, Ew. unfold iadd, isub, imul.
  assert (Hcx : 0 <= width / 2 <= width) by zdiv.
  assert (Hcy : 0 <= height / 2 <= height) by zdiv.
  rewrite (wrap32_id (i - height / 2)) by (unfold in_int, INT_MIN, INT_MAX; lia).
  replace (i - height / 2 + height / 2) with i by ring.
  rewrite (wrap32_id i) by (unfold in_int, INT_MIN, INT_MAX; lia).
  rewrite !Z.add_0_r, (wrap32_id i) by (unfold in_int, INT_MIN, INT_MAX; lia).
  rewrite (wrap32_id (i * (width + 1))) by (unfold in_int, INT_MIN, INT_MAX; lia).
  rewrite (wrap32_id (j - width / 2)) by (unfold in_int, INT_MIN, INT_MAX; lia).
  rewrite (wrap32_id (i * (width + 1) + (j - width / 2)))
    by (unfold in_int, INT_MIN, INT_MAX; lia).
  replace (i * (width + 1) + (j - width / 2) + width / 2) with (i * (width + 1) + j) by ring.
  rewrite (wrap32_id (i * (width + 1) + j))
    by (unfold in_int, INT_MIN, INT_MAX; lia).
  apply wrap32_id. unfold in_int, INT_MIN, INT_MAX. lia.
Qed.

(** So the rotation by zero degrees completes on every map, and copies the
    source cell [(i, j)] to row [i] and column [j] of the result. *)
Lemma getRotatedAlphaMap_zero_angle (lm : Libm) (alphaMap : list Z) (width height : Z) :
  libm_at_zero lm ->
  0 < width -> 0 < height -> (width + 1) * (height + 1) <= INT_MAX ->
  Z.of_nat (length alphaMap) = width * height ->
  exists result,
    getRotatedAlphaMap lm alphaMap width height (of_int 0) = Some result /\
    Z.of_nat (length result) = (width + 1) * (height + 1) /\
    forall i j, 0 <= i < height -> 0 <= j < width ->
    result !! Z.to_nat (i * (width + 1) + j) = alphaMap !! Z.to_nat (i * width + j).
Proof.
  intros Hlm Hw Hh Harea Hlen.
  assert (Hneg : is_zero (mul (of_int 0) (of_int (-1)))) by (exists true; reflexivity).
  pose proof (libm_sin_zero lm _ Hlm Hneg) as Hs.
  pose proof (libm_cos_zero lm _ Hlm Hneg) as Hc.
  assert (Hsmall : width * height <= INT_MAX /\ 0 < (width + 1) * (height + 1)).
  { assert (0 < width * height) by (apply Z.mul_pos_pos; lia).
    replace ((width + 1) * (height + 1)) with (width * height + width + height + 1) in * by ring.
    lia. }
  destruct Hsmall as [Hsmall Hpos]. unfold INT_MAX in Harea, Hsmall.
  pose proof (source_reads alphaMap width height Hlen ltac:(unfold INT_MAX; lia)) as Hreads.
  unfold getRotatedAlphaMap.
  rewrite (bounding_box_axis lm (mkRect 0 0 width height) _ Hlm Hneg)
    by (unfold rect_in_int, in_int, INT_MIN, INT_MAX; cbn [rx ry rw rh]; lia).
  cbn [rx ry rw rh].
  set (angle_sin := c_sin lm _) in *. set (angle_cos := c_cos lm _) in *.
  set (box := mkRect 0 0 (width + 1) (height + 1)).
  assert (Esize : imul (width + 1) (height + 1) = (width + 1) * (height + 1))
    by (apply wrap32_id; unfold in_int, INT_MIN, INT_MAX; lia).
  rewrite Esize. unfold Mem.alloc.
  replace (0 <=? (width + 1) * (height + 1)) with true by lia. cbn [mbind option_bind].
  set (size := Z.to_nat ((width + 1) * (height + 1))).
  assert (Hdest : forall i j, 0 <= i < height -> 0 <= j < width ->
            scatter_index width height angle_sin angle_cos box i j = i * (width + 1) + j /\
            0 <= i * (width + 1) + j < Z.of_nat size).
  { intros i j Hi Hj. unfold size. rewrite Z2Nat.id by lia.
    apply scatter_index_axis; (assumption || (unfold INT_MAX; lia)). }
  assert (Hwrites : forall i j v, opaque_at alphaMap width height i j v ->
            0 <= scatter_index width height angle_sin angle_cos box i j < Z.of_nat size).
  { intros i j v ((Hi & Hj) & _). destruct (Hdest i j Hi Hj) as [-> Hb]. exact Hb. }
  destruct (rotate_rows_inv alphaMap width height angle_sin angle_cos box size
              Hreads Hwrites (Z.to_nat height) 0 (replicate size 0))
    as (result & Hrun & Hall); [lia | lia | lia | apply all_cells_start |].
  exists result. split; [exact Hrun|]. split.
  { destruct Hall as [-> _]. unfold size. lia. }
  intros i j Hi Hj. destruct (Hdest i j Hi Hj) as [Ed Hb].
  destruct (all_cells_end alphaMap width height angle_sin angle_cos box size
              result (i * (width + 1) + j) Hall Hb) as (r & -> & Hcell).
  destruct (Hreads i j Hi Hj) as [v Hv].
  assert (Eidx : iadd (imul i width) j = i * width + j).
  { apply read_Some in Hv as [Hrange _].
    assert (0 <= i * width) by (apply Z.mul_nonneg_nonneg; lia).
    assert (i * width + width <= height * width).
    { replace (i * width + width) with ((i + 1) * width) by ring.
      apply Z.mul_le_mono_nonneg_r; lia. }
    rewrite (Z.mul_comm height width) in *.
    unfold iadd, imul. rewrite wrap32_add_l.
    apply wrap32_id. unfold in_int, INT_MIN, INT_MAX. lia. }
  rewrite Eidx in Hv. apply read_Some in Hv as [_ Hv]. rewrite Hv. f_equal.
  destruct Hcell as [[-> Hnone] | (i' & j' & Hop & Hd' & _)].
  - destruct (Z.eq_dec v 0) as [-> | Hnz]; [reflexivity|]. exfalso.
    apply (Hnone i j v); [|exact Ed].
    split; [split; assumption|]. split; [|exact Hnz].
    rewrite Eidx. unfold Mem.read.
    apply lookup_lt_Some in Hv as Hlt.
    replace (0 <=? i * width + j) with true by (symmetry; apply Z.leb_le; lia).
    replace (i * width + j <? Z.of_nat (length alphaMap)) with true
      by (symmetry; apply Z.ltb_lt; lia).
    exact Hv.
  - destruct Hop as ((Hi' & Hj') & Hread' & Hnz').
    destruct (Hdest i' j' Hi' Hj') as [Ed' _]. rewrite Ed' in Hd'.
    assert (Ei : i' = i).
    { rewrite (Z.div_unique (i * (width + 1) + j) (width + 1) i j) by lia.
      apply (Z.div_unique (i * (width + 1) + j) (width + 1) i' j'); lia. }
    assert (Ej : j' = j) by (subst i'; lia). subst i' j'.
    rewrite Eidx in Hread'. apply read_Some in Hread' as [_ Hread'].
    congruence.
Qed.

(** ** The collision test: the scan *)

Lemma scan_index_in_box (box : SDL_Rect) (i j : Z) :
  on_screen box -> in_rect box j i ->
  scan_index box i j = (i - ry box) * rw box + (j - rx box) /\
  0 <= (i - ry box) * rw box + (j - rx box) < rw box * rh box.
Proof.
  intros ((Hx & Hy) & (Hw & Hh)) (Hj & Hi).
  assert (H1 : 0 <= (i - ry box) * rw box) by (apply Z.mul_nonneg_nonneg; lia).
  assert (H2 : (i - ry box) * rw box + rw box <= rh box * rw box).
  { replace ((i - ry box) * rw box + rw box) with ((i - ry box + 1) * rw box) by ring.
    apply Z.mul_le_mono_nonneg_r; lia. }
  assert (H3 : rh box * rw box <= 2 ^ 15 * 2 ^ 15)
    by (apply Z.mul_le_mono_nonneg; lia).
  split; [|lia].
  unfold scan_index, isub, iadd, imul.
  rewrite wrap32_mul_l, wrap32_add_l, wrap32_sub_l.
  replace ((i - ry box) * rw box + j - rx box)
    with ((i - ry box) * rw box + (j - rx box)) by ring.
  apply wrap32_id. unfold in_int, INT_MIN, INT_MAX. lia.
Qed.

Section Scan.

Variables (map1 map2 : list Z) (box1 box2 : SDL_Rect).

Hypothesis fits1 : on_screen box1.
Hypothesis fits2 : on_screen box2.
Hypothesis covers1 : rw box1 * rh box1 <= Z.of_nat (length map1).
Hypothesis covers2 : rw box2 * rh box2 <= Z.of_nat (length map2).

(** The coordinate [(j, i)] is opaque in both maps. *)
Let hit (j i : Z) : Prop :=
  nonzero_at map1 box1 (j - rx box1) (i - ry box1) /\
  nonzero_at map2 box2 (j - rx box2) (i - ry box2).

Lemma both_opaque_spec (i j : Z) :
  in_rect box1 j i -> in_rect box2 j i ->
  exists b, both_opaque map1 map2 box1 box2 i j = Some b /\ (b = true <-> hit j i).
Proof.
  intros Hin1 Hin2. unfold both_opaque, hit, nonzero_at.
  destruct (scan_index_in_box box1 i j fits1 Hin1) as [-> Hb1].
  destruct (scan_index_in_box box2 i j fits2 Hin2) as [-> Hb2].
  destruct (read_in_bounds map1 ((i - ry box1) * rw box1 + (j - rx box1)) ltac:(lia))
    as [v1 Hv1].
  destruct (read_in_bounds map2 ((i - ry box2) * rw box2 + (j - rx box2)) ltac:(lia))
    as [v2 Hv2].
  rewrite Hv1, Hv2. cbn [mbind option_bind].
  destruct (Z.eqb_spec v1 0) as [-> | Hnz1].
  - exists false. split; [reflexivity|]. split; [discriminate|].
    intros [(v & [= <-] & Hv) _]. contradiction.
  - cbn [mbind option_bind]. exists (negb (v2 =? 0)). split; [reflexivity|].
    destruct (Z.eqb_spec v2 0) as [-> | Hnz2]; simpl.
    + split; [discriminate|]. intros [_ (v & [= <-] & Hv)]. contradiction.
    + split; [|reflexivity]. intros _. split; eexists; split; eauto.
Qed.

Lemma scan_row_spec (i : Z) (n : nat) :
  forall j : Z,
  (forall j', j <= j' < j + Z.of_nat n -> in_rect box1 j' i /\ in_rect box2 j' i) ->
  exists b,
    scan_row map1 map2 box1 box2 i n j = Some b /\
    (b = true <-> exists j', j <= j' < j + Z.of_nat n /\ hit j' i).
Proof.
  induction n as [|n IH]; intros j Hin.
  - exists false. split; [reflexivity|]. split; [discriminate|].
    intros (j' & Hj' & _). lia.
  - cbn [scan_row].
    destruct (Hin j ltac:(lia)) as [Hin1 Hin2].
    destruct (both_opaque_spec i j Hin1 Hin2) as (b0 & -> & Hb0).
    cbn [mbind option_bind]. destruct b0.
    + exists true. split; [reflexivity|]. split; [|reflexivity].
      intros _. exists j. split; [lia | apply Hb0; reflexivity].
    + destruct (IH (j + 1)) as (b & Hrun & Hb).
      { intros j' Hj'. apply Hin. lia. }
      exists b. split; [exact Hrun|]. rewrite Hb. split.
      * intros (j' & Hj' & Hh). exists j'. split; [lia | exact Hh].
      * intros (j' & Hj' & Hh). destruct (Z.eq_dec j' j) as [-> | Hne].
        -- apply Hb0 in Hh. discriminate.
        -- exists j'. split; [lia | exact Hh].
Qed.

Lemma scan_rows_spec (intersection : SDL_Rect) (n : nat) :
  forall i : Z,
  iadd (rx intersection) (rw intersection) = rx intersection + rw intersection ->
  0 <= rw intersection ->
  (forall j' i', in_rect intersection j' i' -> in_rect box1 j' i' /\ in_rect box2 j' i') ->
  ry intersection <= i -> i + Z.of_nat n = ry intersection + rh intersection ->
  exists b,
    scan_rows map1 map2 box1 box2 intersection n i = Some b /\
    (b = true <->
     exists j' i', (i <= i' /\ in_rect intersection j' i') /\ hit j' i').
Proof.
  induction n as [|n IH]; intros i Hadd Hw Hin Hi Hn.
  - exists false. split; [reflexivity|]. split; [discriminate|].
    intros (j' & i' & (Hi' & (_ & Hr)) & _). lia.
  - cbn [scan_rows]. rewrite Hadd.
    replace (rx intersection + rw intersection - rx intersection)
      with (rw intersection) by ring.
    destruct (scan_row_spec i (Z.to_nat (rw intersection)) (rx intersection))
      as (b0 & -> & Hb0).
    { intros j' Hj'. apply Hin. unfold in_rect. lia. }
    cbn [mbind option_bind]. destruct b0.
    + exists true. split; [reflexivity|]. split; [|reflexivity]. intros _.
      destruct Hb0 as [Hb0 _]. destruct (Hb0 eq_refl) as (j' & Hj' & Hh).
      exists j', i. split; [|exact Hh]. unfold in_rect. lia.
    + destruct (IH (i + 1) Hadd Hw Hin ltac:(lia) ltac:(lia)) as (b & Hrun & Hb).
      exists b. split; [exact Hrun|]. rewrite Hb. split.
      * intros (j' & i' & (Hi' & Hr) & Hh). exists j', i'. split; [split; [lia | exact Hr] | exact Hh].
      * intros (j' & i' & (Hi' & Hr) & Hh). destruct (Z.eq_dec i' i) as [-> | Hne].
        -- assert (Hex : exists j'0, rx intersection <= j'0 < rx intersection + Z.of_nat (Z.to_nat (rw intersection)) /\ hit j'0 i).
           { exists j'. split; [destruct Hr as [Hr _]; lia | exact Hh]. }
           apply Hb0 in Hex. discriminate.
        -- exists j', i'. split; [split; [lia | exact Hr] | exact Hh].
Qed.

End Scan.

Lemma intersection_empty (box1 box2 : SDL_Rect) (j i : Z) :
  rw (getIntersectionRect box1 box2) = 0 ->
  ~ in_rect (getIntersectionRect box1 box2) j i.
Proof. intros Hw [Hj _]. lia. Qed.

Lemma intersection_inside (box1 box2 : SDL_Rect) :
  on_screen box1 -> on_screen box2 ->
  rw (getIntersectionRect box1 box2) <> 0 ->
  let intersection := getIntersectionRect box1 box2 in
  (0 < rw intersection /\ 0 < rh intersection) /\
  (iadd (rx intersection) (rw intersection) = rx intersection + rw intersection /\
   iadd (ry intersection) (rh intersection) = ry intersection + rh intersection) /\
  (forall j i, in_rect intersection j i -> in_rect box1 j i /\ in_rect box2 j i).
Proof.
  intros ((Hx1 & Hy1) & (Hw1 & Hh1)) ((Hx2 & Hy2) & (Hw2 & Hh2)).
  unfold getIntersectionRect, imax, imin.
  assert (Ex1 : iadd (rx box1) (rw box1) = rx box1 + rw box1)
    by (apply wrap32_id; unfold in_int, INT_MIN, INT_MAX; lia).
  assert (Ex2 : iadd (rx box2) (rw box2) = rx box2 + rw box2)
    by (apply wrap32_id; unfold in_int, INT_MIN, INT_MAX; lia).
  assert (Ey1 : iadd (ry box1) (rh box1) = ry box1 + rh box1)
    by (apply wrap32_id; unfold in_int, INT_MIN, INT_MAX; lia).
  assert (Ey2 : iadd (ry box2) (rh box2) = ry box2 + rh box2)
    by (apply wrap32_id; unfold in_int, INT_MIN, INT_MAX; lia).
  rewrite Ex1, Ex2, Ey1, Ey2.
  set (x1 := Z.max (rx box1) (rx box2)). set (y1 := Z.max (ry box1) (ry box2)).
  set (x2 := Z.min (rx box1 + rw box1) (rx box2 + rw box2)).
  set (y2 := Z.min (ry box1 + rh box1) (ry box2 + rh box2)).
  assert (Ew : isub x2 x1 = x2 - x1)
    by (apply wrap32_id; unfold in_int, INT_MIN, INT_MAX; lia).
  assert (Eh : isub y2 y1 = y2 - y1)
    by (apply wrap32_id; unfold in_int, INT_MIN, INT_MAX; lia).
  rewrite Ew, Eh.
  destruct (Z.ltb_spec 0 (x2 - x1)) as [Hpw|Hpw];
    [destruct (Z.ltb_spec 0 (y2 - y1)) as [Hph|Hph]|]; cbn [andb rw rh rx ry];
    intros Hne; try (exfalso; apply Hne; reflexivity).
  split; [lia|]. split.
  - split; apply wrap32_id; unfold in_int, INT_MIN, INT_MAX; lia.
  - intros j i [Hj Hi]. cbn [rw rh rx ry] in Hj, Hi. unfold in_rect. lia.
Qed.

(** X28: once the two maps are there, each with as many cells as its
    bounding box or more, [hasCollision] completes, and it answers [true]
    exactly when some coordinate of the intersection of the two boxes falls
    on a cell that is not zero in both maps, each map being read in rows as
    long as its bounding box is wide. *)
Theorem hasCollision_scan (lm : Libm) (junk : Z)
    (texture1 : Texture) (rect1 : SDL_Rect) (angle1 : double)
    (texture2 : Texture) (rect2 : SDL_Rect) (angle2 : double)
    (resized_map1 resized_map2 map1 map2 : list Z) (tr : list call) :
  let box1 := getRotatedBoundingBox lm rect1 angle1 in
  let box2 := getRotatedBoundingBox lm rect2 angle2 in
  let intersection := getIntersectionRect box1 box2 in
  on_screen box1 -> on_screen box2 ->
  resizeBilinear junk (alphaMap texture1) (width texture1) (height texture1)
    (rw rect1) (rh rect1) = Some resized_map1 ->
  resizeBilinear junk (alphaMap texture2) (width texture2) (height texture2)
    (rw rect2) (rh rect2) = Some resized_map2 ->
  getRotatedAlphaMap lm resized_map1 (rw rect1) (rh rect1) angle1 = Some map1 ->
  getRotatedAlphaMap lm resized_map2 (rw rect2) (rh rect2) angle2 = Some map2 ->
  rw box1 * rh box1 <= Z.of_nat (length map1) ->
  rw box2 * rh box2 <= Z.of_nat (length map2) ->
  exists b tr',
    hasCollision lm junk texture1 rect1 angle1 texture2 rect2 angle2 tr
    = Some (b, tr') /\
    (b = true <->
     exists j i, in_rect intersection j i /\
                 nonzero_at map1 box1 (j - rx box1) (i - ry box1) /\
                 nonzero_at map2 box2 (j - rx box2) (i - ry box2)).
Proof.
  intros box1 box2 intersection.
  assert (Hb1 : box1 = getRotatedBoundingBox lm rect1 angle1) by reflexivity.
  assert (Hb2 : box2 = getRotatedBoundingBox lm rect2 angle2) by reflexivity.
  clearbody box1 box2. unfold intersection. clear intersection.
  intros Hs1 Hs2 Hr1 Hr2 Hm1 Hm2 Hc1 Hc2.
  unfold hasCollision. rewrite <- Hb1, <- Hb2. clear Hb1 Hb2.
  destruct (Z.eqb_spec (rw (getIntersectionRect box1 box2)) 0) as [Hz | Hnz].
  - exists false, tr. split; [reflexivity|]. split; [discriminate|].
    intros (j & i & Hin & _). exfalso. exact (intersection_empty box1 box2 j i Hz Hin).
  - destruct (intersection_inside box1 box2 Hs1 Hs2 Hnz) as ((Hw & Hh) & (Ex & Ey) & Hin).
    unfold bind, resizeBilinear_call, getRotatedAlphaMap_call, called.
    rewrite Hr1, Hr2, Hm1, Hm2, Ey.
    rewrite Z.add_simpl_l.
    destruct (scan_rows_spec map1 map2 box1 box2 Hs1 Hs2 Hc1 Hc2
                (getIntersectionRect box1 box2)
                (Z.to_nat (rh (getIntersectionRect box1 box2)))
                (ry (getIntersectionRect box1 box2)) Ex ltac:(lia) Hin
                ltac:(lia) ltac:(lia)) as (b & -> & Hb).
    exists b. eexists. split; [reflexivity|]. rewrite Hb. split.
    + intros (j & i & (_ & Hr) & H1 & H2). exists j, i. auto.
    + intros (j & i & Hr & H1 & H2). exists j, i.
      split; [split; [destruct Hr as [_ Hr]; lia | exact Hr] | split; assumption].
Qed.

Lemma hasCollision_scan_witness :
  exists b tr',
    hasCollision SeriesLibm.libm 0
      (mkTexture 2 2 [255; 0; 255; 255]) (mkRect 0 0 4 4) (of_int 45)
      (mkTexture 3 3 [0; 255; 0; 255; 255; 255; 0; 255; 0]) (mkRect 3 2 4 4) (of_int 0)
      [] = Some (b, tr') /\
    (b = true <->
     exists j i,
       in_rect (getIntersectionRect
                  (getRotatedBoundingBox SeriesLibm.libm (mkRect 0 0 4 4) (of_int 45))
                  (getRotatedBoundingBox SeriesLibm.libm (mkRect 3 2 4 4) (of_int 0)))
               j i /\
       nonzero_at
         [0; 0; 0; 255; 0; 0; 0; 0; 255; 0; 191; 0; 0; 255; 223; 207; 159; 63;
          0; 0; 239; 191; 111; 0; 0; 0; 223; 207; 159; 0; 0; 0; 0; 0; 0; 0]
         (getRotatedBoundingBox SeriesLibm.libm (mkRect 0 0 4 4) (of_int 45))
         (j - rx (getRotatedBoundingBox SeriesLibm.libm (mkRect 0 0 4 4) (of_int 45)))
         (i - ry (getRotatedBoundingBox SeriesLibm.libm (mkRect 0 0 4 4) (of_int 45))) /\
       nonzero_at
         [0; 127; 255; 127; 0; 127; 191; 255; 191; 0; 255; 255; 255; 255; 0;
          127; 191; 255; 191; 0; 0; 0; 0; 0; 0]
         (getRotatedBoundingBox SeriesLibm.libm (mkRect 3 2 4 4) (of_int 0))
         (j - rx (getRotatedBoundingBox SeriesLibm.libm (mkRect 3 2 4 4) (of_int 0)))
         (i - ry (getRotatedBoundingBox SeriesLibm.libm (mkRect 3 2 4 4) (of_int 0)))).
Proof.
  apply (hasCollision_scan SeriesLibm.libm 0
           (mkTexture 2 2 [255; 0; 255; 255]) (mkRect 0 0 4 4) (of_int 45)
           (mkTexture 3 3 [0; 255; 0; 255; 255; 255; 0; 255; 0]) (mkRect 3 2 4 4) (of_int 0)
           [255; 191; 127; 63; 255; 207; 159; 111; 255; 223; 191; 159; 255; 239; 223; 207]
           [0; 127; 255; 127; 127; 191; 255; 191; 255; 255; 255; 255; 127; 191; 255; 191]).
  - by_computation.
  - by_computation.
  - vm_compute. reflexivity.
  - vm_compute. reflexivity.
  - vm_compute. reflexivity.
  - vm_compute. reflexivity.
  - by_computation.
  - by_computation.
Defined.

(** *** A sprite turned by a quarter *)

Lemma series_libm_at_quarter_turn : libm_at_quarter_turn SeriesLibm.libm.
Proof. split; split; vm_compute; reflexivity. Qed.

Lemma resize_opaque_5_3 (junk : Z) :
  resizeBilinear junk [255; 255; 255; 255] 2 2 5 3 = Some (replicate 15 255).
Proof. vm_compute. reflexivity. Qed.

Lemma resize_opaque_1_1 (junk : Z) :
  resizeBilinear junk [255; 255; 255; 255] 2 2 1 1 = Some [255].
Proof. vm_compute. reflexivity. Qed.

Section QuarterTurn.

Variable lm : Libm.
Hypothesis at_zero : libm_at_zero lm.
Hypothesis at_quarter_turn : libm_at_quarter_turn lm.

(** The box of the rectangle [{0, 0, 5, 3}] turned by 90 degrees is 4 wide
    and 6 high ... *)
Lemma quarter_turn_box :
  getRotatedBoundingBox lm (mkRect 0 0 5 3) (of_int 90) = mkRect 1 (-2) 4 6.
Proof.
  destruct at_quarter_turn as [[Hs Hc] _]. unfold getRotatedBoundingBox.
  cbv zeta in Hs, Hc. rewrite Hs, Hc. vm_compute. reflexivity.
Qed.

(** ... but the rotation lays its result out over the box at -90 degrees,
    which is 5 wide. *)
Lemma quarter_turn_layout :
  rotation_box lm 5 3 (of_int 90) = mkRect 0 (-1) 5 6.
Proof.
  destruct at_quarter_turn as [_ [Hs Hc]]. unfold rotation_box, getRotatedBoundingBox.
  cbv zeta in Hs, Hc. rewrite Hs, Hc. vm_compute. reflexivity.
Qed.

Lemma quarter_turn_map :
  getRotatedAlphaMap lm (replicate 15 255) 5 3 (of_int 90)
  = Some [0; 255; 255; 255; 0;  0; 255; 255; 255; 0;  0; 255; 255; 255; 0;
          0; 255; 255; 255; 0;  0; 255; 255; 255; 0;  0; 0; 0; 0; 0].
Proof.
  unfold getRotatedAlphaMap. cbv zeta.
  change (getRotatedBoundingBox lm (mkRect 0 0 5 3) (mul (of_int 90) (of_int (-1))))
    with (rotation_box lm 5 3 (of_int 90)).
  rewrite quarter_turn_layout.
  destruct at_quarter_turn as [_ [Hs Hc]]. cbv zeta in Hs, Hc. rewrite Hs, Hc.
  vm_compute. reflexivity.
Qed.

Lemma pixel_box :
  getRotatedBoundingBox lm (mkRect 2 (-1) 1 1) (of_int 0) = mkRect 2 (-1) 2 2.
Proof.
  apply (bounding_box_axis lm (mkRect 2 (-1) 1 1) (of_int 0) at_zero).
  - exists false. reflexivity.
  - unfold rect_in_int, in_int, INT_MIN, INT_MAX. simpl. lia.
  - unfold INT_MAX. simpl. lia.
  - unfold INT_MAX. simpl. lia.
Qed.

Lemma pixel_layout : rotation_box lm 1 1 (of_int 0) = mkRect 0 0 2 2.
Proof.
  apply (bounding_box_axis lm (mkRect 0 0 1 1) _ at_zero negated_zero).
  - unfold rect_in_int, in_int, INT_MIN, INT_MAX. simpl. lia.
  - unfold INT_MAX. simpl. lia.
  - unfold INT_MAX. simpl. lia.
Qed.

Lemma pixel_map :
  getRotatedAlphaMap lm [255] 1 1 (of_int 0) = Some [255; 0; 0; 0].
Proof.
  unfold getRotatedAlphaMap. cbv zeta.
  change (getRotatedBoundingBox lm (mkRect 0 0 1 1) (mul (of_int 0) (of_int (-1))))
    with (rotation_box lm 1 1 (of_int 0)).
  rewrite pixel_layout, (libm_cos_zero lm _ at_zero negated_zero).
  destruct (libm_sin_zero lm _ at_zero negated_zero) as [s ->].
  destruct s; vm_compute; reflexivity.
Qed.

End QuarterTurn.

(** C1 on an opaque sprite drawn 5 wide and 3 high and turned by 90
    degrees, and an opaque sprite of one pixel at [(2, -1)], for every C
    library that is exact at zero and nearest at a quarter turn. The two
    maps are there; the coordinate [(2, -1)] lies in the intersection of
    the two boxes and falls on column 1 of row 1 of the first map and on
    column 0 of row 0 of the second, two cells that are not zero. But the
    first map has rows of 5 cells, the width of the box at -90 degrees,
    while the scan reads it in rows of [box1.w = 4] cells: [hasCollision]
    completes and answers [false]. *)
Theorem hasCollision_misses_overlap (lm : Libm) (junk : Z) :
  let texture := mkTexture 2 2 [255; 255; 255; 255] in
  let rect1 := mkRect 0 0 5 3 in
  let rect2 := mkRect 2 (-1) 1 1 in
  let box1 := getRotatedBoundingBox lm rect1 (of_int 90) in
  let box2 := getRotatedBoundingBox lm rect2 (of_int 0) in
  let layout1 := rotation_box lm (rw rect1) (rh rect1) (of_int 90) in
  let layout2 := rotation_box lm (rw rect2) (rh rect2) (of_int 0) in
  libm_at_zero lm -> libm_at_quarter_turn lm ->
  exists map1 map2,
    sprite_map lm junk texture rect1 (of_int 90) = Some map1 /\
    sprite_map lm junk texture rect2 (of_int 0) = Some map2 /\
    in_rect (getIntersectionRect box1 box2) 2 (-1) /\
    opaque_cell map1 layout1 (2 - rx box1) (-1 - ry box1) /\
    opaque_cell map2 layout2 (2 - rx box2) (-1 - ry box2) /\
    (rw layout1 = 5 /\ rw box1 = 4) /\
    hasCollision lm junk texture rect1 (of_int 90) texture rect2 (of_int 0) []
    = Some (false, [CallResize 2 2 5 3; CallResize 2 2 1 1;
                    CallRotate 5 3 (of_int 90); CallRotate 1 1 (of_int 0)]).
Proof.
  intros texture rect1 rect2 box1 box2 layout1 layout2 Hzero Hquarter.
  unfold box1, box2, layout1, layout2, rect1, rect2, texture. cbn [rw rh].
  clear box1 box2 layout1 layout2 rect1 rect2 texture.
  rewrite (quarter_turn_box lm Hquarter), (pixel_box lm Hzero),
    (quarter_turn_layout lm Hquarter), (pixel_layout lm Hzero).
  exists [0; 255; 255; 255; 0;  0; 255; 255; 255; 0;  0; 255; 255; 255; 0;
          0; 255; 255; 255; 0;  0; 255; 255; 255; 0;  0; 0; 0; 0; 0], [255; 0; 0; 0].
  split; [|split; [|split; [|split; [|split; [|split]]]]].
  - unfold sprite_map. cbn [alphaMap width height rw rh].
    rewrite resize_opaque_5_3. cbn [mbind option_bind].
    apply (quarter_turn_map lm Hquarter).
  - unfold sprite_map. cbn [alphaMap width height rw rh].
    rewrite resize_opaque_1_1. cbn [mbind option_bind].
    apply (pixel_map lm Hzero).
  - vm_compute. repeat split; discriminate.
  - split; [cbn; lia|]. exists 255. split; [vm_compute; reflexivity | discriminate].
  - split; [cbn; lia|]. exists 255. split; [vm_compute; reflexivity | discriminate].
  - split; reflexivity.
  - unfold hasCollision.
    rewrite (quarter_turn_box lm Hquarter), (pixel_box lm Hzero).
    cbn [width height alphaMap rw rh rx ry].
    change (getIntersectionRect (mkRect 1 (-2) 4 6) (mkRect 2 (-1) 2 2))
      with (mkRect 2 (-1) 2 2).
    cbn [rw rh rx ry]. change (2 =? 0) with false. cbv iota.
    unfold bind, resizeBilinear_call, getRotatedAlphaMap_call, called.
    rewrite resize_opaque_5_3, resize_opaque_1_1,
      (quarter_turn_map lm Hquarter), (pixel_map lm Hzero).
    vm_compute. reflexivity.
Qed.

Lemma hasCollision_misses_overlap_witness :
  exists map1 map2,
    sprite_map SeriesLibm.libm 0 (mkTexture 2 2 [255; 255; 255; 255])
      (mkRect 0 0 5 3) (of_int 90) = Some map1 /\
    sprite_map SeriesLibm.libm 0 (mkTexture 2 2 [255; 255; 255; 255])
      (mkRect 2 (-1) 1 1) (of_int 0) = Some map2 /\
    in_rect (getIntersectionRect
               (getRotatedBoundingBox SeriesLibm.libm (mkRect 0 0 5 3) (of_int 90))
               (getRotatedBoundingBox SeriesLibm.libm (mkRect 2 (-1) 1 1) (of_int 0)))
            2 (-1) /\
    opaque_cell map1 (rotation_box SeriesLibm.libm 5 3 (of_int 90))
      (2 - rx (getRotatedBoundingBox SeriesLibm.libm (mkRect 0 0 5 3) (of_int 90)))
      (-1 - ry (getRotatedBoundingBox SeriesLibm.libm (mkRect 0 0 5 3) (of_int 90))) /\
    opaque_cell map2 (rotation_box SeriesLibm.libm 1 1 (of_int 0))
      (2 - rx (getRotatedBoundingBox SeriesLibm.libm (mkRect 2 (-1) 1 1) (of_int 0)))
      (-1 - ry (getRotatedBoundingBox SeriesLibm.libm (mkRect 2 (-1) 1 1) (of_int 0))) /\
    (rw (rotation_box SeriesLibm.libm 5 3 (of_int 90)) = 5 /\
     rw (getRotatedBoundingBox SeriesLibm.libm (mkRect 0 0 5 3) (of_int 90)) = 4) /\
    hasCollision SeriesLibm.libm 0
      (mkTexture 2 2 [255; 255; 255; 255]) (mkRect 0 0 5 3) (of_int 90)
      (mkTexture 2 2 [255; 255; 255; 255]) (mkRect 2 (-1) 1 1) (of_int 0) []
    = Some (false, [CallResize 2 2 5 3; CallResize 2 2 1 1;
                    CallRotate 5 3 (of_int 90); CallRotate 1 1 (of_int 0)]).
Proof.
  apply (hasCollision_misses_overlap SeriesLibm.libm 0).
  - exact series_libm_at_zero.
  - exact series_libm_at_quarter_turn.
Defined.

(** Turned the other way, the same sprite has a map of 4 x 6 = 24 cells
    and a box of 5 x 6 = 30: against a sprite without an opaque pixel the
    scan goes on to [map1[24]], past the end of the map. *)
Lemma hasCollision_scan_reads_outside (lm : Libm) (junk : Z) :
  libm_at_zero lm -> libm_at_quarter_turn lm ->
  hasCollision lm junk
    (mkTexture 2 2 [255; 255; 255; 255]) (mkRect 0 0 5 3) (of_int (-90))
    (mkTexture 2 2 [0; 0; 0; 0]) (mkRect 0 0 5 3) (of_int 0) [] = None.
Proof.
  intros Hzero [[Hs' Hc'] [Hs Hc]]. cbv zeta in Hs, Hc, Hs', Hc'.
  assert (Edown : of_int (-90) = mul (of_int 90) (of_int (-1)))
    by (vm_compute; reflexivity).
  assert (Eup : mul (of_int (-90)) (of_int (-1)) = of_int 90)
    by (vm_compute; reflexivity).
  assert (Hbox1 : getRotatedBoundingBox lm (mkRect 0 0 5 3) (of_int (-90))
                  = mkRect 0 (-1) 5 6).
  { unfold getRotatedBoundingBox. rewrite Edown, Hs, Hc. vm_compute. reflexivity. }
  assert (Hbox2 : getRotatedBoundingBox lm (mkRect 0 0 5 3) (of_int 0) = mkRect 0 0 6 4).
  { apply (bounding_box_axis lm (mkRect 0 0 5 3) (of_int 0) Hzero).
    - exists false. reflexivity.
    - unfold rect_in_int, in_int, INT_MIN, INT_MAX. simpl. lia.
    - unfold INT_MAX. simpl. lia.
    - unfold INT_MAX. simpl. lia. }
  assert (Hmap1 : getRotatedAlphaMap lm (replicate 15 255) 5 3 (of_int (-90))
                  = Some [0; 255; 255; 255;  0; 255; 255; 255;  0; 255; 255; 255;
                          0; 255; 255; 255;  0; 255; 255; 255;  0; 0; 0; 0]).
  { unfold getRotatedAlphaMap, getRotatedBoundingBox. cbv zeta.
    rewrite Eup, Hs', Hc'. vm_compute. reflexivity. }
  assert (Hmap2 : getRotatedAlphaMap lm (replicate 15 0) 5 3 (of_int 0)
                  = Some (replicate 24 0)).
  { unfold getRotatedAlphaMap.
    rewrite (bounding_box_axis lm (mkRect 0 0 5 3) _ Hzero negated_zero)
      by (unfold rect_in_int, in_int, INT_MIN, INT_MAX; simpl; lia).
    rewrite (libm_cos_zero lm _ Hzero negated_zero).
    destruct (libm_sin_zero lm _ Hzero negated_zero) as [s ->].
    destruct s; vm_compute; reflexivity. }
  assert (Hr2 : resizeBilinear junk [0; 0; 0; 0] 2 2 5 3 = Some (replicate 15 0))
    by (vm_compute; reflexivity).
  unfold hasCollision. rewrite Hbox1, Hbox2.
  cbn [width height alphaMap rw rh rx ry].
  change (getIntersectionRect (mkRect 0 (-1) 5 6) (mkRect 0 0 6 4))
    with (mkRect 0 0 5 4).
  cbn [rw rh rx ry]. change (5 =? 0) with false. cbv iota.
  unfold bind, resizeBilinear_call, getRotatedAlphaMap_call, called.
  rewrite resize_opaque_5_3, Hr2, Hmap1, Hmap2. vm_compute. reflexivity.
Qed.

(** ** Where the resampler leaves its source *)

(** C3 on a source of one pixel: the very first target cell reads
    [pixels[1]], past the end of the one-cell buffer; the resample does not
    complete. *)
Theorem resizeBilinear_one_pixel_source (junk : Z) :
  Mem.read [255] (iadd 0 1) = None /\
  sample [255] 1 0 0 65536 0 = None /\
  resizeBilinear junk [255] 1 1 1 1 = None.
Proof. repeat split; vm_compute; reflexivity. Qed.

(** The same on any source of a single row: the lower neighbours
    [pixels[index + w]] lie in a row that is not there. *)
Lemma resizeBilinear_single_row (junk : Z) (pixels : list Z) (w w2 h2 : Z) :
  0 < w <= INT_MAX -> 0 < w2 -> 0 < h2 ->
  Z.of_nat (length pixels) = w ->
  resizeBilinear junk pixels w 1 w2 h2 = None.
Proof.
  intros Hw Hw2 Hh2 Hlen. unfold INT_MAX in Hw.
  assert (Hs : forall yd omy, sample pixels w 0 yd omy 0 = None).
  { intros yd omy. unfold sample.
    change (int_of_long (lshr 0 16)) with 0. change (iadd 0 0) with 0.
    destruct (Mem.read pixels 0) as [pA|]; [|reflexivity]. cbn [mbind option_bind].
    destruct (Mem.read pixels (iadd 0 1)) as [pB|]; [|reflexivity]. cbn [mbind option_bind].
    replace (iadd 0 w) with w
      by (symmetry; apply wrap32_id; unfold in_int, INT_MIN, INT_MAX; lia).
    rewrite (read_None pixels w) by lia. reflexivity. }
  unfold resizeBilinear.
  destruct (Mem.alloc _ _) as [temp|]; [|reflexivity]. cbn [mbind option_bind].
  destruct (idiv_trap _ w2) as [x_ratio|]; [|reflexivity]. cbn [mbind option_bind].
  destruct (idiv_trap _ h2) as [y_ratio|]; [|reflexivity]. cbn [mbind option_bind].
  destruct (Z.to_nat h2) as [|n] eqn:En; [lia|]. cbn [resize_rows].
  destruct (Z.to_nat w2) as [|m] eqn:Em; [lia|]. cbn [resize_row].
  change (int_of_long (lshr 0 16)) with 0. change (imul 0 w) with 0.
  rewrite Hs. reflexivity.
Qed.

(** From two pixels a side on, the [(dim - 1)] ratio does keep the four
    reads inside the source. *)
Section InBounds.

Variables (pixels : list Z) (w h : Z).
Hypothesis w_range : 2 <= w <= 32768.
Hypothesis h_range : 2 <= h <= 32768.
Hypothesis pixels_length : Z.of_nat (length pixels) = w * h.

Lemma area_bound : w * h <= 32768 * 32768 /\ 2 * w <= w * h.
Proof.
  split; [apply Z.mul_le_mono_nonneg; lia|].
  rewrite (Z.mul_comm w h). apply Z.mul_le_mono_nonneg_r; lia.
Qed.

Lemma sample_in_bounds (yr yd omy x : Z) :
  0 <= yr <= h - 2 -> 0 <= x < (w - 1) * 65536 ->
  exists alpha, sample pixels w (yr * w) yd omy x = Some alpha.
Proof.
  intros Hyr Hx. destruct area_bound as [Ha Hb].
  assert (Hx31 : - 2 ^ 31 <= x < 2 ^ 31) by lia.
  destruct (fixed_point_fraction x Hx31) as [_ Exr].
  assert (Hxr : 0 <= x / 65536 <= w - 2) by zdiv.
  assert (H1 : 0 <= yr * w) by (apply Z.mul_nonneg_nonneg; lia).
  assert (H2 : yr * w + 2 * w <= h * w).
  { replace (yr * w + 2 * w) with ((yr + 2) * w) by ring.
    apply Z.mul_le_mono_nonneg_r; lia. }
  rewrite (Z.mul_comm h w) in H2.
  unfold sample. rewrite Exr.
  set (index := yr * w + x / 65536).
  assert (Ei : iadd (yr * w) (x / 65536) = index)
    by (apply wrap32_id; unfold in_int, INT_MIN, INT_MAX, index; lia).
  assert (Ei1 : iadd index 1 = index + 1)
    by (apply wrap32_id; unfold in_int, INT_MIN, INT_MAX, index; lia).
  assert (Eiw : iadd index w = index + w)
    by (apply wrap32_id; unfold in_int, INT_MIN, INT_MAX, index; lia).
  assert (Eiw1 : iadd (index + w) 1 = index + w + 1)
    by (apply wrap32_id; unfold in_int, INT_MIN, INT_MAX, index; lia).
  rewrite Ei, Ei1, Eiw, Eiw1.
  destruct (read_in_bounds pixels index) as [pA ->]; [unfold index; lia|].
  destruct (read_in_bounds pixels (index + 1)) as [pB ->]; [unfold index; lia|].
  destruct (read_in_bounds pixels (index + w)) as [pC ->]; [unfold index; lia|].
  destruct (read_in_bounds pixels (index + w + 1)) as [pD ->]; [unfold index; lia|].
  cbn [mbind option_bind]. eexists. reflexivity.
Qed.

Lemma resize_row_completes (x_ratio yr yd omy : Z) (n : nat) :
  forall (x : Z) (temp : list Z) (offset : Z),
  0 <= yr <= h - 2 -> 0 <= x_ratio <= 2 ^ 31 ->
  (forall k, 0 <= k < Z.of_nat n -> 0 <= x + k * x_ratio < (w - 1) * 65536) ->
  0 <= offset -> offset + Z.of_nat n <= Z.of_nat (length temp) <= INT_MAX ->
  exists temp',
    resize_row pixels w x_ratio (yr * w) yd omy n x temp offset
    = Some (temp', offset + Z.of_nat n) /\ length temp' = length temp.
Proof.
  induction n as [|n IH]; intros x temp offset Hyr Hr Hx Hoff Hlen.
  - exists temp. cbn [resize_row]. rewrite Z.add_0_r. split; reflexivity.
  - cbn [resize_row]. unfold INT_MAX in Hlen.
    assert (Hx0 : 0 <= x < (w - 1) * 65536) by (specialize (Hx 0); lia).
    destruct (sample_in_bounds yr yd omy x Hyr Hx0) as [alpha ->].
    cbn [mbind option_bind]. rewrite write_in_bounds by lia. cbn [mbind option_bind].
    unfold iadd, ladd.
    rewrite wrap32_id by (unfold in_int, INT_MIN, INT_MAX; lia).
    rewrite wrap64_id by lia.
    destruct (IH (x + x_ratio) (<[Z.to_nat offset:=alpha]> temp) (offset + 1))
      as (temp' & Hrun & Hl); try assumption; try lia.
    + intros k Hk. replace (x + x_ratio + k * x_ratio) with (x + (k + 1) * x_ratio) by ring.
      apply Hx. lia.
    + rewrite length_insert. unfold INT_MAX. lia.
    + exists temp'. rewrite Hrun, Hl, length_insert. split; [|reflexivity].
      do 2 f_equal. lia.
Qed.

(** The steps of a ratio [((dim - 1) << 16) / dim2] stay below
    [(dim - 1) << 16]. *)
Lemma ratio_below (dim dim2 k : Z) :
  2 <= dim <= 32768 -> 0 < dim2 -> 0 <= k < dim2 ->
  let ratio := Z.quot ((dim - 1) * 65536) dim2 in
  0 <= ratio <= 2 ^ 31 /\ 0 <= k * ratio < (dim - 1) * 65536.
Proof.
  intros Hd Hd2 Hk ratio.
  assert (Hq0 : 0 <= ratio) by (apply Z.quot_pos; lia).
  assert (Hq1 : ratio * dim2 <= (dim - 1) * 65536).
  { rewrite Z.mul_comm. apply Z.mul_quot_le; lia. }
  assert (H1 : 0 <= k * ratio) by (apply Z.mul_nonneg_nonneg; lia).
  assert (H2 : k * ratio <= (dim2 - 1) * ratio) by (apply Z.mul_le_mono_nonneg_r; lia).
  assert (H3 : (dim2 - 1) * ratio = ratio * dim2 - ratio) by ring.
  assert (H4 : ratio <= ratio * dim2).
  { replace ratio with (ratio * 1) at 1 by ring. apply Z.mul_le_mono_nonneg_l; lia. }
  split; [lia|]. split; [lia|].
  destruct (Z.eq_dec ratio 0) as [E | Hne]; [rewrite E; lia | lia].
Qed.

Lemma resize_rows_completes (w2 x_ratio y_ratio : Z) (n : nat) :
  forall (y : Z) (temp : list Z) (offset : Z),
  0 < w2 -> 0 <= x_ratio <= 2 ^ 31 -> 0 <= y_ratio <= 2 ^ 31 ->
  (forall k, 0 <= k < w2 -> 0 <= k * x_ratio < (w - 1) * 65536) ->
  (forall k, 0 <= k < Z.of_nat n -> 0 <= y + k * y_ratio < (h - 1) * 65536) ->
  0 <= offset -> offset + Z.of_nat n * w2 <= Z.of_nat (length temp) <= INT_MAX ->
  exists out,
    resize_rows pixels w w2 x_ratio y_ratio n y temp offset = Some out /\
    length out = length temp.
Proof.
  induction n as [|n IH]; intros y temp offset Hw2 Hxr Hyr Hx Hy Hoff Hlen.
  - exists temp. split; reflexivity.
  - cbn [resize_rows].
    assert (Hy0 : 0 <= y < (h - 1) * 65536) by (specialize (Hy 0); lia).
    assert (Hy31 : - 2 ^ 31 <= y < 2 ^ 31) by lia.
    destruct (fixed_point_fraction y Hy31) as [_ ->].
    assert (Hq : 0 <= y / 65536 <= h - 2) by zdiv.
    assert (Ei : imul (y / 65536) w = y / 65536 * w).
    { destruct area_bound as [Ha _].
      assert (0 <= y / 65536 * w) by (apply Z.mul_nonneg_nonneg; lia).
      assert (y / 65536 * w <= h * w) by (apply Z.mul_le_mono_nonneg_r; lia).
      rewrite (Z.mul_comm h w) in *.
      apply wrap32_id. unfold in_int, INT_MIN, INT_MAX. lia. }
    rewrite Ei.
    assert (Hrow : Z.of_nat (S n) * w2 = w2 + Z.of_nat n * w2) by lia.
    assert (Hnn : 0 <= Z.of_nat n * w2) by (apply Z.mul_nonneg_nonneg; lia).
    destruct (resize_row_completes x_ratio (y / 65536)
                (lsub y (ishl (y / 65536) 16))
                (lsub 65536 (lsub y (ishl (y / 65536) 16)))
                (Z.to_nat w2) 0 temp offset)
      as (temp1 & -> & Hl1); try assumption; try lia.
    { intros k Hk. rewrite Z.add_0_l. apply Hx. lia. }
    cbn [mbind option_bind]. unfold ladd. rewrite wrap64_id by lia.
    assert (Hy' : forall k, 0 <= k < Z.of_nat n ->
                  0 <= y + y_ratio + k * y_ratio < (h - 1) * 65536).
    { intros k Hk. replace (y + y_ratio + k * y_ratio) with (y + (k + 1) * y_ratio) by ring.
      apply Hy. lia. }
    assert (Hoff' : 0 <= offset + Z.of_nat (Z.to_nat w2)) by lia.
    assert (Hlen' : offset + Z.of_nat (Z.to_nat w2) + Z.of_nat n * w2
                    <= Z.of_nat (length temp1) <= INT_MAX) by (rewrite Hl1; lia).
    destruct (IH (y + y_ratio) temp1 (offset + Z.of_nat (Z.to_nat w2))
                Hw2 Hxr Hyr Hx Hy' Hoff' Hlen') as (out & Hrun & Hl).
    exists out. split; [exact Hrun | congruence].
Qed.

Lemma resizeBilinear_completes (junk w2 h2 : Z) :
  0 < w2 -> 0 < h2 -> w2 * h2 <= INT_MAX ->
  exists out,
    resizeBilinear junk pixels w h w2 h2 = Some out /\
    Z.of_nat (length out) = w2 * h2.
Proof.
  intros Hw2 Hh2 Harea. unfold INT_MAX in Harea.
  pose proof (Z.mul_pos_pos w2 h2 Hw2 Hh2) as Hpos.
  assert (Ew : ishl (isub w 1) 16 = (w - 1) * 65536).
  { unfold ishl, isub. rewrite (wrap32_id (w - 1)) by (unfold in_int, INT_MIN, INT_MAX; lia).
    rewrite Z.shiftl_mul_pow2 by lia. change (2 ^ 16) with 65536.
    apply wrap32_id. unfold in_int, INT_MIN, INT_MAX. lia. }
  assert (Eh : ishl (isub h 1) 16 = (h - 1) * 65536).
  { unfold ishl, isub. rewrite (wrap32_id (h - 1)) by (unfold in_int, INT_MIN, INT_MAX; lia).
    rewrite Z.shiftl_mul_pow2 by lia. change (2 ^ 16) with 65536.
    apply wrap32_id. unfold in_int, INT_MIN, INT_MAX. lia. }
  unfold resizeBilinear, Mem.alloc, imul.
  rewrite (wrap32_id (w2 * h2)) by (unfold in_int, INT_MIN, INT_MAX; lia).
  replace (0 <=? w2 * h2) with true by lia. cbn [mbind option_bind].
  rewrite Ew, Eh. unfold idiv_trap.
  replace (w2 =? 0) with false by lia. replace (h2 =? 0) with false by lia.
  replace (w2 =? -1) with false by lia. replace (h2 =? -1) with false by lia.
  rewrite !andb_false_r. cbn [orb mbind option_bind].
  destruct (ratio_below w w2 0 w_range Hw2 ltac:(lia)) as [Hxr _].
  destruct (ratio_below h h2 0 h_range Hh2 ltac:(lia)) as [Hyr _].
  assert (Hx : forall k, 0 <= k < w2 ->
               0 <= k * Z.quot ((w - 1) * 65536) w2 < (w - 1) * 65536).
  { intros k Hk. apply (ratio_below w w2 k); assumption. }
  assert (Hy : forall k, 0 <= k < Z.of_nat (Z.to_nat h2) ->
               0 <= 0 + k * Z.quot ((h - 1) * 65536) h2 < (h - 1) * 65536).
  { intros k Hk. rewrite Z.add_0_l. apply (ratio_below h h2 k); [assumption | assumption | lia]. }
  assert (Hlen : 0 + Z.of_nat (Z.to_nat h2) * w2
                 <= Z.of_nat (length (replicate (Z.to_nat (w2 * h2)) junk)) <= INT_MAX).
  { rewrite length_replicate, Z.add_0_l, !Z2Nat.id, (Z.mul_comm h2 w2) by lia.
    unfold INT_MAX. lia. }
  destruct (resize_rows_completes w2 (Z.quot ((w - 1) * 65536) w2)
              (Z.quot ((h - 1) * 65536) h2) (Z.to_nat h2) 0
              (replicate (Z.to_nat (w2 * h2)) junk) 0 Hw2 Hxr Hyr Hx Hy
              ltac:(lia) Hlen)
    as (out & Hrun & Hl).
  exists out. split; [exact Hrun|]. rewrite Hl, length_replicate. lia.
Qed.

End InBounds.

(** ** Where the rotation leaves its result *)

(** C10 on an opaque 10 x 10 map turned by 167 degrees, for every C library
    that returns, for the sine and the cosine of [-167 * M_PI / 180], the
    doubles nearest to their values: the bounding box is 12 x 12, a buffer of
    144 cells, and the source cell in row 0 and column 8 is sent to index
    148; the rotation does not complete. *)
Theorem getRotatedAlphaMap_writes_outside (lm : Libm) :
  let angle := mul (of_int 167) (of_int (-1)) in
  let angle_sin := c_sin lm (div (mul angle M_PI) (of_int 180)) in
  let angle_cos := c_cos lm (div (mul angle M_PI) (of_int 180)) in
  let boundingBox := getRotatedBoundingBox lm (mkRect 0 0 10 10) angle in
  angle_sin = S754_finite true 8104715876157037 (-55) ->
  angle_cos = S754_finite true 8776345321375503 (-53) ->
  imul (rw boundingBox) (rh boundingBox) = 144 /\
  scatter_index 10 10 angle_sin angle_cos boundingBox 0 8 = 148 /\
  getRotatedAlphaMap lm (replicate 100 255) 10 10 (of_int 167) = None.
Proof.
  intros angle angle_sin angle_cos boundingBox Hs Hc.
  assert (Hbox : boundingBox = mkRect 0 0 12 12).
  { unfold boundingBox, getRotatedBoundingBox. fold angle angle_sin angle_cos.
    rewrite Hs, Hc. vm_compute. reflexivity. }
  split; [rewrite Hbox; reflexivity|]. split.
  - rewrite Hbox, Hs, Hc. vm_compute. reflexivity.
  - unfold getRotatedAlphaMap. fold angle. fold angle_sin. fold angle_cos. fold boundingBox.
    rewrite Hbox, Hs, Hc. vm_compute. reflexivity.
Qed.

Lemma getRotatedAlphaMap_writes_outside_witness :
  imul (rw (getRotatedBoundingBox SeriesLibm.libm (mkRect 0 0 10 10)
              (mul (of_int 167) (of_int (-1)))))
       (rh (getRotatedBoundingBox SeriesLibm.libm (mkRect 0 0 10 10)
              (mul (of_int 167) (of_int (-1))))) = 144 /\
  scatter_index 10 10
    (c_sin SeriesLibm.libm (div (mul (mul (of_int 167) (of_int (-1))) M_PI) (of_int 180)))
    (c_cos SeriesLibm.libm (div (mul (mul (of_int 167) (of_int (-1))) M_PI) (of_int 180)))
    (getRotatedBoundingBox SeriesLibm.libm (mkRect 0 0 10 10)
       (mul (of_int 167) (of_int (-1)))) 0 8 = 148 /\
  getRotatedAlphaMap SeriesLibm.libm (replicate 100 255) 10 10 (of_int 167) = None.
Proof.
  apply (getRotatedAlphaMap_writes_outside SeriesLibm.libm); vm_compute; reflexivity.
Defined.

(** The smallest such map, with the C library of this file: one column of
    four cells turned by 105 degrees gets a buffer of 5 x 3 cells, and the
    rotation does not complete. *)
Lemma rotate_column_writes_outside :
  getRotatedBoundingBox SeriesLibm.libm (mkRect 0 0 1 4)
    (mul (of_int 105) (of_int (-1))) = mkRect (-2) 2 5 3 /\
  getRotatedAlphaMap SeriesLibm.libm [255; 255; 255; 255] 1 4 (of_int 105) = None.
Proof. split; vm_compute; reflexivity. Qed.

(** * Further properties of the code *)

(** ** More on the intersection of two rectangles *)

(** X1: the intersection does not depend on the order of its arguments. *)
Theorem getIntersectionRect_comm (rect1 rect2 : SDL_Rect) :
  getIntersectionRect rect1 rect2 = getIntersectionRect rect2 rect1.
Proof.
  unfold getIntersectionRect, imax, imin.
  rewrite (Z.max_comm (rx rect1)), (Z.max_comm (ry rect1)).
  rewrite (Z.min_comm (iadd (rx rect1) (rw rect1))).
  rewrite (Z.min_comm (iadd (ry rect1) (rh rect1))).
  reflexivity.
Qed.

(** Away from the wrap-around of [int] the sums and differences are those
    of the integers. *)
Lemma intersection_exact (rect1 rect2 : SDL_Rect) :
  far_from_wrap rect1 -> far_from_wrap rect2 ->
  let x1 := Z.max (rx rect1) (rx rect2) in
  let y1 := Z.max (ry rect1) (ry rect2) in
  let x2 := Z.min (rx rect1 + rw rect1) (rx rect2 + rw rect2) in
  let y2 := Z.min (ry rect1 + rh rect1) (ry rect2 + rh rect2) in
  getIntersectionRect rect1 rect2
  = if (0 <? x2 - x1) && (0 <? y2 - y1) then mkRect x1 y1 (x2 - x1) (y2 - y1)
    else mkRect 0 0 0 0.
Proof.
  intros ((Hx1 & Hy1) & (Hw1 & Hh1)) ((Hx2 & Hy2) & (Hw2 & Hh2)) x1 y1 x2 y2.
  unfold getIntersectionRect, imax, imin, iadd.
  rewrite !wrap32_id by (unfold in_int, INT_MIN, INT_MAX; lia).
  fold x1 y1 x2 y2.
  assert (Ew : isub x2 x1 = x2 - x1)
    by (apply wrap32_id; unfold in_int, INT_MIN, INT_MAX; lia).
  assert (Eh : isub y2 y1 = y2 - y1)
    by (apply wrap32_id; unfold in_int, INT_MIN, INT_MAX; lia).
  rewrite Ew, Eh. reflexivity.
Qed.

(** X2: away from the wrap-around of [int], the intersection holds exactly
    the coordinates that lie in both rectangles; the sentinel holds none. *)
Theorem getIntersectionRect_points (rect1 rect2 : SDL_Rect) (j i : Z) :
  far_from_wrap rect1 -> far_from_wrap rect2 ->
  in_rect (getIntersectionRect rect1 rect2) j i <->
  in_rect rect1 j i /\ in_rect rect2 j i.
Proof.
  intros H1 H2. rewrite (intersection_exact rect1 rect2 H1 H2). unfold in_rect.
  destruct (Z.ltb_spec 0 (Z.min (rx rect1 + rw rect1) (rx rect2 + rw rect2)
                          - Z.max (rx rect1) (rx rect2))) as [Hpw|Hpw];
    [destruct (Z.ltb_spec 0 (Z.min (ry rect1 + rh rect1) (ry rect2 + rh rect2)
                             - Z.max (ry rect1) (ry rect2))) as [Hph|Hph]|];
    cbn [andb rw rh rx ry]; lia.
Qed.

Lemma getIntersectionRect_points_witness :
  in_rect (getIntersectionRect (mkRect 0 0 10 10) (mkRect 5 (-3) 10 10)) 7 2 <->
  in_rect (mkRect 0 0 10 10) 7 2 /\ in_rect (mkRect 5 (-3) 10 10) 7 2.
Proof.
  apply (getIntersectionRect_points (mkRect 0 0 10 10) (mkRect 5 (-3) 10 10) 7 2);
    unfold far_from_wrap; simpl; lia.
Defined.

(** X3: whatever the two rectangles, the result is the sentinel or has a
    positive width and a positive height; so the width alone tells the
    sentinel, which is the test [hasCollision] makes. *)
Theorem getIntersectionRect_width_tells (rect1 rect2 : SDL_Rect) :
  let intersection := getIntersectionRect rect1 rect2 in
  (intersection = mkRect 0 0 0 0 \/ (0 < rw intersection /\ 0 < rh intersection)) /\
  (rw intersection = 0 <-> intersection = mkRect 0 0 0 0).
Proof.
  unfold getIntersectionRect.
  destruct (Z.ltb_spec 0 (isub (imin (iadd (rx rect1) (rw rect1)) (iadd (rx rect2) (rw rect2)))
                               (imax (rx rect1) (rx rect2)))) as [Hw|Hw];
    [destruct (Z.ltb_spec 0 (isub (imin (iadd (ry rect1) (rh rect1)) (iadd (ry rect2) (rh rect2)))
                                  (imax (ry rect1) (ry rect2)))) as [Hh|Hh]|];
    cbn [andb rw rh]; split; try (left; reflexivity); try (split; reflexivity).
  - right. split; assumption.
  - split; [lia|]. intros [= _ _ E _]. lia.
Qed.

(** ** The bounding box of a rectangle that moves *)

Lemma centred_origin (x w : Z) :
  isub x (iadd x (idiv w 2)) = isub 0 (iadd 0 (idiv w 2)).
Proof.
  unfold isub, iadd. rewrite !wrap32_sub_r. f_equal. lia.
Qed.

Lemma centre_moves (m x w : Z) :
  iadd m (iadd x (idiv w 2)) = iadd (iadd m (iadd 0 (idiv w 2))) x.
Proof.
  unfold iadd. rewrite wrap32_add_l, wrap32_add_r.
  replace (m + wrap32 (0 + idiv w 2) + x) with (m + x + wrap32 (0 + idiv w 2)) by lia.
  rewrite wrap32_add_r. f_equal. lia.
Qed.

(** X4: the width and the height of the bounding box depend on the width,
    the height and the angle of the rectangle only, and its origin moves
    with the rectangle. *)
Theorem getRotatedBoundingBox_translation (lm : Libm) (x y w h : Z) (angle : double) :
  let box := getRotatedBoundingBox lm (mkRect 0 0 w h) angle in
  getRotatedBoundingBox lm (mkRect x y w h) angle
  = mkRect (iadd (rx box) x) (iadd (ry box) y) (rw box) (rh box).
Proof.
  unfold getRotatedBoundingBox. cbn [rx ry rw rh].
  rewrite (centred_origin x w), (centred_origin y h).
  rewrite (centre_moves _ x w), (centre_moves _ y h).
  reflexivity.
Qed.

(** X5: the bounding box of a rectangle without width and height is one
    cell wide and one cell high, at every angle and whatever the C library
    returns for the sine and the cosine. *)
Theorem getRotatedBoundingBox_of_point (lm : Libm) (x y : Z) (angle : double) :
  rw (getRotatedBoundingBox lm (mkRect x y 0 0) angle) = 1 /\
  rh (getRotatedBoundingBox lm (mkRect x y 0 0) angle) = 1.
Proof.
  unfold getRotatedBoundingBox. cbn [rx ry rw rh].
  rewrite (centred_origin x 0), (centred_origin y 0).
  change (isub 0 (iadd 0 (idiv 0 2))) with 0. change (iadd 0 0) with 0.
  unfold imin, imax. rewrite !Z.min_id, !Z.max_id.
  unfold isub. rewrite !Z.sub_diag. split; reflexivity.
Qed.

(** ** More on the bilinear resampler *)

(** X6: a target of width zero or of height zero stops the resampler at the
    division that computes the step, before any cell is read. *)
Theorem resizeBilinear_zero_target (junk : Z) (pixels : list Z) (w h w2 h2 : Z) :
  w2 = 0 \/ h2 = 0 -> resizeBilinear junk pixels w h w2 h2 = None.
Proof.
  intros Hz. unfold resizeBilinear.
  destruct (Mem.alloc _ _) as [temp|]; [|reflexivity]. cbn [mbind option_bind].
  destruct Hz as [-> | ->].
  - reflexivity.
  - destruct (idiv_trap _ w2) as [x_ratio|]; reflexivity.
Qed.

Lemma resizeBilinear_zero_target_witness :
  resizeBilinear 7 [10; 20; 30; 40] 2 2 0 3 = None.
Proof.
  apply (resizeBilinear_zero_target 7 [10; 20; 30; 40] 2 2 0 3). left. reflexivity.
Defined.

(** *** The blend stays between its samples *)

Section Between.

Variables lo hi : Z.

Let between (v : Z) : Prop := lo <= v <= hi.

Lemma scale_between (A a : Z) : lo <= A <= hi -> 0 <= a -> lo * a <= A * a <= hi * a.
Proof.
  intros HA Ha. split; apply Z.mul_le_mono_nonneg_r; lia.
Qed.

Lemma blend_between (A B C D xd yd : Z) :
  0 <= A <= 255 -> 0 <= B <= 255 -> 0 <= C <= 255 -> 0 <= D <= 255 ->
  between A -> between B -> between C -> between D ->
  0 <= xd < 65536 -> 0 <= yd < 65536 ->
  let omx := lsub 65536 xd in
  let omy := lsub 65536 yd in
  between (int_of_long (lshr
         (ladd (ladd (ladd (lmul (lmul A omx) omy) (lmul (lmul B xd) omy))
                  (lmul (lmul C yd) omx)) (lmul (lmul D xd) yd)) 32)).
Proof.
  intros HA HB HC HD IA IB IC ID Hx Hy omx omy. unfold between in *.
  assert (Eomx : omx = 65536 - xd) by (unfold omx, lsub; apply wrap64_id; lia).
  assert (Eomy : omy = 65536 - yd) by (unfold omy, lsub; apply wrap64_id; lia).
  rewrite Eomx, Eomy. clear omx omy Eomx Eomy.
  set (ox := 65536 - xd). set (oy := 65536 - yd).
  assert (Hox : 0 <= ox <= 65536) by (unfold ox; lia).
  assert (Hoy : 0 <= oy <= 65536) by (unfold oy; lia).
  assert (Ha : 0 <= ox * oy) by (apply Z.mul_nonneg_nonneg; lia).
  assert (Hb : 0 <= xd * oy) by (apply Z.mul_nonneg_nonneg; lia).
  assert (Hc : 0 <= yd * ox) by (apply Z.mul_nonneg_nonneg; lia).
  assert (Hd : 0 <= xd * yd) by (apply Z.mul_nonneg_nonneg; lia).
  assert (Hsum : ox * oy + xd * oy + yd * ox + xd * yd = 4294967296) by (unfold ox, oy; ring).
  pose proof (scale_bound A _ HA Ha) as HAa.
  pose proof (scale_bound B _ HB Hb) as HBb.
  pose proof (scale_bound C _ HC Hc) as HCc.
  pose proof (scale_bound D _ HD Hd) as HDd.
  pose proof (scale_between A _ IA Ha) as JAa.
  pose proof (scale_between B _ IB Hb) as JBb.
  pose proof (scale_between C _ IC Hc) as JCc.
  pose proof (scale_between D _ ID Hd) as JDd.
  assert (Elo : lo * (ox * oy) + lo * (xd * oy) + lo * (yd * ox) + lo * (xd * yd)
                = lo * 2 ^ 32).
  { rewrite <- !Z.mul_add_distr_l, Hsum. reflexivity. }
  assert (Ehi : hi * (ox * oy) + hi * (xd * oy) + hi * (yd * ox) + hi * (xd * yd)
                = hi * 2 ^ 32).
  { rewrite <- !Z.mul_add_distr_l, Hsum. reflexivity. }
  assert (HAo : 0 <= A * ox <= 255 * 65536) by (apply weight_bound; lia).
  assert (HBx : 0 <= B * xd <= 255 * 65536) by (apply weight_bound; lia).
  assert (HCy : 0 <= C * yd <= 255 * 65536) by (apply weight_bound; lia).
  assert (HDx : 0 <= D * xd <= 255 * 65536) by (apply weight_bound; lia).
  unfold lmul, ladd, lshr, int_of_long.
  rewrite (wrap64_id (A * ox)) by lia.
  rewrite (wrap64_id (B * xd)) by lia.
  rewrite (wrap64_id (C * yd)) by lia.
  rewrite (wrap64_id (D * xd)) by lia.
  replace (A * ox * oy) with (A * (ox * oy)) by ring.
  replace (B * xd * oy) with (B * (xd * oy)) by ring.
  replace (C * yd * ox) with (C * (yd * ox)) by ring.
  replace (D * xd * yd) with (D * (xd * yd)) by ring.
  set (a := ox * oy) in *. set (b := xd * oy) in *.
  set (c := yd * ox) in *. set (d := xd * yd) in *.
  set (Aa := A * a) in *. set (Bb := B * b) in *.
  set (Cc := C * c) in *. set (Dd := D * d) in *.
  rewrite (wrap64_id Aa) by lia.
  rewrite (wrap64_id Bb) by lia.
  rewrite (wrap64_id Cc) by lia.
  rewrite (wrap64_id Dd) by lia.
  rewrite (wrap64_id (Aa + Bb)) by lia.
  rewrite (wrap64_id (Aa + Bb + Cc)) by lia.
  rewrite (wrap64_id (Aa + Bb + Cc + Dd)) by lia.
  rewrite Z.shiftr_div_pow2 by lia.
  assert (HS : 0 <= Aa + Bb + Cc + Dd <= 255 * 2 ^ 32) by lia.
  assert (Hq : 0 <= (Aa + Bb + Cc + Dd) / 2 ^ 32 <= 255).
  { split; [apply Z.div_pos; lia | apply Z.div_le_upper_bound; lia]. }
  rewrite wrap32_id by (unfold in_int, INT_MIN, INT_MAX; lia).
  split.
  - apply Z.div_le_lower_bound; lia.
  - apply Z.div_le_upper_bound; lia.
Qed.

Variable pixels : list Z.
Hypothesis pixels_between : Forall (fun p => between (Z.land p 255)) pixels.

Lemma read_between (i p : Z) :
  Mem.read pixels i = Some p -> between (Z.land p 255).
Proof.
  intros H. apply read_Some in H as [_ H].
  exact (proj1 (Forall_lookup _ pixels) pixels_between _ _ H).
Qed.

Lemma sample_between (w y_index yd x alpha : Z) :
  0 <= yd < 65536 -> - 2 ^ 31 <= x < 2 ^ 31 ->
  sample pixels w y_index yd (lsub 65536 yd) x = Some alpha ->
  between alpha.
Proof.
  intros Hyd Hx. unfold sample.
  destruct (fixed_point_fraction x Hx) as [-> _].
  do 4 step_bind.
  intros [= <-]. pose proof (Z.mod_pos_bound x 65536).
  apply blend_between; eauto using land_255_range, read_between; lia.
Qed.

Lemma resize_row_between (w x_ratio y_index yd : Z) (n : nat) :
  forall (x : Z) (temp : list Z) (offset : Z) (temp' : list Z) (offset' : Z),
  0 <= yd < 65536 ->
  - 2 ^ 31 <= x_ratio <= 2 ^ 31 ->
  (forall k, 0 <= k < Z.of_nat n -> - 2 ^ 31 <= x + k * x_ratio < 2 ^ 31) ->
  Z.of_nat (length temp) <= INT_MAX ->
  0 <= offset <= Z.of_nat (length temp) ->
  Forall between (take (Z.to_nat offset) temp) ->
  resize_row pixels w x_ratio y_index yd (lsub 65536 yd) n x temp offset
    = Some (temp', offset') ->
  offset' = offset + Z.of_nat n /\ length temp' = length temp /\
  offset' <= Z.of_nat (length temp) /\
  Forall between (take (Z.to_nat offset') temp').
Proof.
  induction n as [|n IH]; intros x temp offset temp' offset' Hyd Hr Hx Hlen Hoff Hpre; simpl.
  - intros [= <- <-]. repeat split; [lia | lia | assumption].
  - destruct (sample _ _ _ _ _ _) as [alpha|] eqn:Es; simpl; [|discriminate].
    destruct (Mem.write _ _ _) as [temp1|] eqn:Ew; simpl; [|discriminate].
    apply write_Some in Ew as [Hin ->].
    assert (Hx0 : - 2 ^ 31 <= x < 2 ^ 31) by (specialize (Hx 0); lia).
    apply sample_between in Es; [|assumption..].
    unfold iadd, ladd. unfold INT_MAX in Hlen.
    rewrite wrap32_id by (unfold in_int, INT_MIN, INT_MAX; lia).
    rewrite wrap64_id by lia.
    intros Hrec.
    assert (Hx' : forall k, 0 <= k < Z.of_nat n ->
                  - 2 ^ 31 <= x + x_ratio + k * x_ratio < 2 ^ 31).
    { intros k Hk. replace (x + x_ratio + k * x_ratio) with (x + (k + 1) * x_ratio) by ring.
      apply Hx. lia. }
    assert (Hlen' : Z.of_nat (length (<[Z.to_nat offset:=alpha]> temp)) <= 2 ^ 31 - 1)
      by (rewrite length_insert; assumption).
    assert (Hpre' : Forall between (take (Z.to_nat (offset + 1))
                                      (<[Z.to_nat offset:=alpha]> temp))).
    { replace (Z.to_nat (offset + 1)) with (S (Z.to_nat offset)) by lia.
      rewrite (take_S_r _ _ alpha) by (apply list_lookup_insert_eq; lia).
      rewrite take_insert_ge by lia. apply Forall_app. split; [assumption|].
      apply Forall_singleton. exact Es. }
    assert (Hoff' : 0 <= offset + 1 <= Z.of_nat (length (<[Z.to_nat offset:=alpha]> temp)))
      by (rewrite length_insert; lia).
    destruct (IH _ _ _ _ _ Hyd Hr Hx' Hlen' Hoff' Hpre' Hrec) as (H1 & H2 & H3 & H4).
    rewrite length_insert in H2, H3. repeat split; [lia | assumption | lia | assumption].
Qed.

Lemma resize_rows_between (w w2 x_ratio y_ratio : Z) (n : nat) :
  forall (y : Z) (temp : list Z) (offset : Z) (out : list Z),
  0 < w2 ->
  Z.abs x_ratio * w2 <= 2 ^ 31 -> - 2 ^ 31 <= x_ratio <= 2 ^ 31 ->
  - 2 ^ 31 <= y_ratio <= 2 ^ 31 ->
  (forall k, 0 <= k < Z.of_nat n -> - 2 ^ 31 <= y + k * y_ratio < 2 ^ 31) ->
  Z.of_nat (length temp) <= INT_MAX ->
  0 <= offset <= Z.of_nat (length temp) ->
  Forall between (take (Z.to_nat offset) temp) ->
  resize_rows pixels w w2 x_ratio y_ratio n y temp offset = Some out ->
  length out = length temp /\
  offset + Z.of_nat n * w2 <= Z.of_nat (length temp) /\
  Forall between (take (Z.to_nat (offset + Z.of_nat n * w2)) out).
Proof.
  induction n as [|n IH]; intros y temp offset out Hw2 Hxr Hxr' Hyr Hy Hlen Hoff Hpre; simpl.
  - intros [= <-]. rewrite Z.add_0_r. repeat split; [lia | assumption].
  - assert (Hy0 : - 2 ^ 31 <= y < 2 ^ 31) by (specialize (Hy 0); lia).
    destruct (fixed_point_fraction y Hy0) as [-> _].
    pose proof (Z.mod_pos_bound y 65536 ltac:(lia)) as Hyd.
    destruct (resize_row _ _ _ _ _ _ _ _ _ _) as [[temp1 offset1]|] eqn:Er; simpl; [|discriminate].
    apply resize_row_between in Er; try assumption.
    2:{ intros k Hk. simpl. apply (ratio_steps x_ratio w2 k); lia. }
    destruct Er as (E1 & E2 & E3 & E4). subst offset1.
    unfold ladd. rewrite wrap64_id by lia. intros Hrec.
    assert (Hy' : forall k, 0 <= k < Z.of_nat n ->
                  - 2 ^ 31 <= y + y_ratio + k * y_ratio < 2 ^ 31).
    { intros k Hk. replace (y + y_ratio + k * y_ratio) with (y + (k + 1) * y_ratio) by ring.
      apply Hy. lia. }
    assert (Hlen1 : Z.of_nat (length temp1) <= INT_MAX) by (rewrite E2; assumption).
    assert (Hoff1 : 0 <= offset + Z.of_nat (Z.to_nat w2) <= Z.of_nat (length temp1))
      by (rewrite E2; lia).
    destruct (IH _ _ _ _ Hw2 Hxr Hxr' Hyr Hy' Hlen1 Hoff1 E4 Hrec) as (H1 & H2 & H3).
    rewrite E2 in H1, H2.
    replace (offset + Z.of_nat (Z.to_nat w2) + Z.of_nat n * w2)
      with (offset + Z.of_nat (S n) * w2) in H2, H3 by lia.
    repeat split; assumption.
Qed.

Lemma resizeBilinear_all_between (junk w h w2 h2 : Z) (out : list Z) :
  0 < w2 -> 0 < h2 ->
  resizeBilinear junk pixels w h w2 h2 = Some out ->
  Forall between out.
Proof.
  intros Hw2 Hh2. unfold resizeBilinear.
  destruct (Mem.alloc _ _) as [temp|] eqn:Ea; simpl; [|discriminate].
  destruct (idiv_trap _ w2) as [x_ratio|] eqn:Ex; simpl; [|discriminate].
  destruct (idiv_trap _ h2) as [y_ratio|] eqn:Ey; simpl; [|discriminate].
  unfold idiv_trap in Ex, Ey.
  destruct (_ || _) in Ex; [discriminate|]. destruct (_ || _) in Ey; [discriminate|].
  injection Ex as <-. injection Ey as <-.
  destruct (quot_ratio (ishl (isub w 1) 16) w2 (wrap32_in_int _) Hw2) as [Hx1 Hx2].
  destruct (quot_ratio (ishl (isub h 1) 16) h2 (wrap32_in_int _) Hh2) as [Hy1 Hy2].
  unfold Mem.alloc in Ea. destruct (0 <=? imul w2 h2) eqn:En; [|discriminate].
  injection Ea as <-.
  pose proof (wrap32_in_int (w2 * h2)) as Hn. fold (imul w2 h2) in Hn.
  unfold in_int, INT_MIN, INT_MAX in Hn.
  intros Hrun. apply resize_rows_between in Hrun; try assumption.
  - destruct Hrun as (H1 & H2 & H3). rewrite length_replicate in H1, H2.
    rewrite Z.add_0_l, Z2Nat.id in H2, H3 by lia.
    destruct (wrap32_congr (w2 * h2)) as [k Hk]. fold (imul w2 h2) in Hk.
    rewrite (Z.mul_comm h2 w2) in H2, H3.
    pose proof (Z.mul_pos_pos w2 h2 Hw2 Hh2) as Hpos.
    assert (k = 0) by lia. subst k.
    rewrite take_ge in H3 by lia. exact H3.
  - intros k Hk. simpl. apply (ratio_steps _ h2 k); lia.
  - rewrite length_replicate. unfold INT_MAX. lia.
  - rewrite length_replicate. lia.
  - simpl. constructor.
Qed.

End Between.

(** X7: the resampler never leaves the range of its source: when the low
    bytes of all source cells lie between [lo] and [hi], so does every cell
    of the output of a resample that completes. *)
Theorem resizeBilinear_between (junk lo hi : Z) (pixels : list Z) (w h w2 h2 : Z)
    (out : list Z) :
  0 < w2 -> 0 < h2 ->
  Forall (fun p => lo <= Z.land p 255 <= hi) pixels ->
  resizeBilinear junk pixels w h w2 h2 = Some out ->
  Forall (fun v => lo <= v <= hi) out.
Proof.
  intros Hw2 Hh2 Hp Hrun.
  exact (resizeBilinear_all_between lo hi pixels Hp junk w h w2 h2 out Hw2 Hh2 Hrun).
Qed.

Lemma resizeBilinear_between_witness :
  Forall (fun v => 64 <= v <= 232) [64; 119; 175; 148; 153; 159].
Proof.
  apply (resizeBilinear_between 7 64 232 [64; 232; 1000; 100] 2 2 3 2).
  - lia.
  - lia.
  - repeat constructor; by_computation.
  - vm_compute. reflexivity.
Defined.

(** X8: from two cells a side up to 32768, and for every positive target
    size that fits an [int], the resample completes: no read leaves the
    source, no write leaves the target, the result has [w2 * h2] cells and
    each of them lies between 0 and 255. *)
Theorem resizeBilinear_total (junk : Z) (pixels : list Z) (w h w2 h2 : Z) :
  2 <= w <= 32768 -> 2 <= h <= 32768 ->
  Z.of_nat (length pixels) = w * h ->
  0 < w2 -> 0 < h2 -> w2 * h2 <= INT_MAX ->
  exists out,
    resizeBilinear junk pixels w h w2 h2 = Some out /\
    Z.of_nat (length out) = w2 * h2 /\
    Forall (fun v => 0 <= v <= 255) out.
Proof.
  intros Hw Hh Hlen Hw2 Hh2 Harea.
  destruct (resizeBilinear_completes pixels w h Hw Hh Hlen junk w2 h2 Hw2 Hh2 Harea)
    as (out & Hrun & Hl).
  exists out. split; [exact Hrun|]. split; [exact Hl|].
  apply (resizeBilinear_all_between 0 255 pixels) with (junk := junk) (w := w) (h := h)
    (w2 := w2) (h2 := h2); try assumption.
  apply Forall_forall. intros p _. apply land_255_range.
Qed.

Lemma resizeBilinear_total_witness :
  exists out,
    resizeBilinear 7 [10; 20; 30; 40; 50; 60] 3 2 4 5 = Some out /\
    Z.of_nat (length out) = 4 * 5 /\
    Forall (fun v => 0 <= v <= 255) out.
Proof.
  apply (resizeBilinear_total 7 [10; 20; 30; 40; 50; 60] 3 2 4 5);
    (reflexivity || (unfold INT_MAX; lia)).
Defined.

(** *** The target buffer is overwritten *)

Section Overwritten.

Variables (pixels : list Z) (w x_ratio : Z).

(** Two buffers of the same length that agree before position [k]. *)
Let agree (k : Z) (temp1 temp2 : list Z) : Prop :=
  length temp1 = length temp2 /\ take (Z.to_nat k) temp1 = take (Z.to_nat k) temp2.

Lemma resize_row_agree (y_index yd omy : Z) (n : nat) :
  forall (x : Z) (temp1 temp2 : list Z) (offset : Z) (temp1' : list Z) (offset' : Z),
  0 <= offset <= Z.of_nat (length temp1) -> Z.of_nat (length temp1) <= INT_MAX ->
  agree offset temp1 temp2 ->
  resize_row pixels w x_ratio y_index yd omy n x temp1 offset = Some (temp1', offset') ->
  exists temp2',
    resize_row pixels w x_ratio y_index yd omy n x temp2 offset = Some (temp2', offset') /\
    (offset' = offset + Z.of_nat n /\ offset' <= Z.of_nat (length temp1)) /\
    length temp1' = length temp1 /\
    agree offset' temp1' temp2'.
Proof.
  induction n as [|n IH]; intros x temp1 temp2 offset temp1' offset' Hoff Hmax [Hlen Htake].
  - intros [= <- <-]. exists temp2. split; [reflexivity|]. split; [lia|].
    split; [reflexivity | split; assumption].
  - cbn [resize_row].
    destruct (sample _ _ _ _ _ _) as [alpha|]; cbn [mbind option_bind]; [|discriminate].
    destruct (Mem.write temp1 offset alpha) as [t1|] eqn:Ew; cbn [mbind option_bind];
      [|discriminate].
    apply write_Some in Ew as [Hin ->].
    rewrite (write_in_bounds temp2) by lia. cbn [mbind option_bind].
    unfold INT_MAX in Hmax.
    assert (Eoff : iadd offset 1 = offset + 1)
      by (apply wrap32_id; unfold in_int, INT_MIN, INT_MAX; lia).
    rewrite Eoff. intros Hrun.
    destruct (IH (ladd x x_ratio) (<[Z.to_nat offset:=alpha]> temp1)
                (<[Z.to_nat offset:=alpha]> temp2) (offset + 1) temp1' offset')
      as (temp2' & Hrun2 & [Ho Hfit] & Hl & Hag);
      [rewrite length_insert; lia | rewrite length_insert; unfold INT_MAX; lia | | exact Hrun |].
    { split; [rewrite !length_insert; exact Hlen|].
      replace (Z.to_nat (offset + 1)) with (S (Z.to_nat offset)) by lia.
      rewrite !(take_S_r _ _ alpha) by (apply list_lookup_insert_eq; lia).
      rewrite !take_insert_ge by lia. now rewrite Htake. }
    rewrite length_insert in Hfit, Hl.
    exists temp2'. split; [exact Hrun2|]. split; [lia|].
    split; [exact Hl | exact Hag].
Qed.

Lemma resize_rows_agree (w2 y_ratio : Z) (n : nat) :
  forall (y : Z) (temp1 temp2 : list Z) (offset : Z) (out : list Z),
  0 <= offset <= Z.of_nat (length temp1) -> Z.of_nat (length temp1) <= INT_MAX ->
  agree offset temp1 temp2 ->
  resize_rows pixels w w2 x_ratio y_ratio n y temp1 offset = Some out ->
  exists out',
    resize_rows pixels w w2 x_ratio y_ratio n y temp2 offset = Some out' /\
    length out = length temp1 /\
    offset + Z.of_nat n * Z.of_nat (Z.to_nat w2) <= Z.of_nat (length temp1) /\
    agree (offset + Z.of_nat n * Z.of_nat (Z.to_nat w2)) out out'.
Proof.
  induction n as [|n IH]; intros y temp1 temp2 offset out Hoff Hmax Hag.
  - intros [= <-]. exists temp2. split; [reflexivity|]. split; [reflexivity|].
    replace (offset + Z.of_nat 0 * Z.of_nat (Z.to_nat w2)) with offset by lia.
    split; [lia | exact Hag].
  - cbn [resize_rows].
    destruct (resize_row _ _ _ _ _ _ _ _ temp1 _) as [[t1 o1]|] eqn:Er;
      cbn [mbind option_bind]; [|discriminate].
    destruct (resize_row_agree _ _ _ _ _ _ temp2 _ _ _ Hoff Hmax Hag Er)
      as (t2 & Er2 & [Ho Hfit] & Hl & Hag1).
    rewrite Er2. cbn [mbind option_bind]. subst o1. intros Hrun.
    destruct (IH (ladd y y_ratio) t1 t2 (offset + Z.of_nat (Z.to_nat w2)) out
                ltac:(rewrite Hl; lia) ltac:(rewrite Hl; exact Hmax) Hag1 Hrun)
      as (out' & Hrun' & Hlo & Hfit' & Hago).
    rewrite Hl in Hlo, Hfit'.
    replace (offset + Z.of_nat (S n) * Z.of_nat (Z.to_nat w2))
      with (offset + Z.of_nat (Z.to_nat w2) + Z.of_nat n * Z.of_nat (Z.to_nat w2)) by lia.
    exists out'. split; [exact Hrun'|]. split; [exact Hlo|]. split; [exact Hfit' | exact Hago].
Qed.

End Overwritten.

(** X9: a resample that completes has written every cell of its target:
    the result is the same whatever the fresh buffer held, so no cell of
    the output is left as it was allocated. *)
Theorem resizeBilinear_overwrites (junk junk' : Z) (pixels : list Z) (w h w2 h2 : Z)
    (out : list Z) :
  0 < w2 -> 0 < h2 ->
  resizeBilinear junk pixels w h w2 h2 = Some out ->
  resizeBilinear junk' pixels w h w2 h2 = Some out.
Proof.
  intros Hw2 Hh2. unfold resizeBilinear, Mem.alloc.
  destruct (Z.leb_spec 0 (imul w2 h2)) as [Hn|Hn]; cbn [mbind option_bind]; [|discriminate].
  destruct (idiv_trap _ w2) as [x_ratio|]; cbn [mbind option_bind]; [|discriminate].
  destruct (idiv_trap _ h2) as [y_ratio|]; cbn [mbind option_bind]; [|discriminate].
  pose proof (wrap32_in_int (w2 * h2)) as Hmax. fold (imul w2 h2) in Hmax.
  unfold in_int, INT_MIN, INT_MAX in Hmax.
  destruct (wrap32_congr (w2 * h2)) as [k Hk]. fold (imul w2 h2) in Hk.
  pose proof (Z.mul_pos_pos w2 h2 Hw2 Hh2) as Hpos.
  intros Hrun.
  destruct (resize_rows_agree pixels w x_ratio w2 y_ratio (Z.to_nat h2) 0
              (replicate (Z.to_nat (imul w2 h2)) junk)
              (replicate (Z.to_nat (imul w2 h2)) junk') 0 out)
    as (out' & Hrun' & Hl & Hfit & [Hll Htake]).
  - rewrite length_replicate. lia.
  - rewrite length_replicate. unfold INT_MAX. lia.
  - split; [now rewrite !length_replicate | reflexivity].
  - exact Hrun.
  - rewrite Hrun'. f_equal. symmetry.
    rewrite length_replicate in Hfit, Hl.
    rewrite Z.add_0_l, !Z2Nat.id, (Z.mul_comm h2 w2) in Hfit, Htake by lia.
    assert (k = 0) by lia. subst k.
    rewrite !take_ge in Htake by lia. exact Htake.
Qed.

Lemma resizeBilinear_overwrites_witness :
  resizeBilinear 1000 [64; 232; 1000; 100] 2 2 3 2 = Some [64; 119; 175; 148; 153; 159].
Proof.
  apply (resizeBilinear_overwrites 7 1000 [64; 232; 1000; 100] 2 2 3 2).
  - lia.
  - lia.
  - vm_compute. reflexivity.
Defined.

(** ** More on the rotation of an alpha map *)

(** *** A map without an opaque cell *)

Section Transparent.

Variables (alphaMap : list Z) (width height : Z).
Variables (angle_sin angle_cos : double) (boundingBox : SDL_Rect).

Hypothesis all_zero :
  forall i j, 0 <= i < height -> 0 <= j < width ->
  Mem.read alphaMap (iadd (imul i width) j) = Some 0.

Lemma rotate_row_transparent (i : Z) (n : nat) :
  forall (j : Z) (result : list Z),
  0 <= i < height -> 0 <= j -> j + Z.of_nat n <= width ->
  rotate_row alphaMap width height angle_sin angle_cos boundingBox i n j result
  = Some result.
Proof.
  induction n as [|n IH]; intros j result Hi Hj Hn; [reflexivity|].
  cbn [rotate_row]. rewrite all_zero by lia. cbn [mbind option_bind].
  change (0 =? 0) with true. cbv iota. cbn [mbind option_bind].
  apply IH; lia.
Qed.

Lemma rotate_rows_transparent (n : nat) :
  forall (i : Z) (result : list Z),
  0 <= width -> 0 <= i -> i + Z.of_nat n <= height ->
  rotate_rows alphaMap width height angle_sin angle_cos boundingBox n i result
  = Some result.
Proof.
  induction n as [|n IH]; intros i result Hw Hi Hn; [reflexivity|].
  cbn [rotate_rows]. rewrite rotate_row_transparent by lia.
  cbn [mbind option_bind]. apply IH; lia.
Qed.

End Transparent.

(** X10: a map whose cells are all zero is rotated, at every angle, without
    a single write: the result is the zeroed buffer of the size of the
    bounding box. *)
Theorem getRotatedAlphaMap_transparent (lm : Libm) (alphaMap : list Z)
    (width height : Z) (angle : double) :
  let boundingBox :=
    getRotatedBoundingBox lm (mkRect 0 0 width height) (mul angle (of_int (-1))) in
  let size := imul (rw boundingBox) (rh boundingBox) in
  0 <= width -> 0 <= height ->
  Z.of_nat (length alphaMap) = width * height -> width * height <= INT_MAX ->
  Forall (fun v => v = 0) alphaMap ->
  0 <= size ->
  getRotatedAlphaMap lm alphaMap width height angle
  = Some (replicate (Z.to_nat size) 0).
Proof.
  intros boundingBox size Hw Hh Hlen Hmax Hzero Hsize.
  assert (Hreads : forall i j, 0 <= i < height -> 0 <= j < width ->
            Mem.read alphaMap (iadd (imul i width) j) = Some 0).
  { intros i j Hi Hj.
    destruct (source_reads alphaMap width height Hlen Hmax i j Hi Hj) as [v Hv].
    rewrite Hv. f_equal. apply read_Some in Hv as [_ Hv].
    exact (proj1 (Forall_lookup _ alphaMap) Hzero _ _ Hv). }
  unfold getRotatedAlphaMap. fold boundingBox. fold size.
  unfold Mem.alloc. replace (0 <=? size) with true by lia. cbn [mbind option_bind].
  apply rotate_rows_transparent; [exact Hreads | lia | lia | lia].
Qed.

Lemma getRotatedAlphaMap_transparent_witness :
  getRotatedAlphaMap SeriesLibm.libm [0; 0; 0; 0; 0; 0] 3 2 (of_int 30)
  = Some (replicate
            (Z.to_nat
               (imul (rw (getRotatedBoundingBox SeriesLibm.libm (mkRect 0 0 3 2)
                            (mul (of_int 30) (of_int (-1)))))
                     (rh (getRotatedBoundingBox SeriesLibm.libm (mkRect 0 0 3 2)
                            (mul (of_int 30) (of_int (-1))))))) 0).
Proof.
  apply (getRotatedAlphaMap_transparent SeriesLibm.libm [0; 0; 0; 0; 0; 0] 3 2 (of_int 30)).
  - lia.
  - lia.
  - reflexivity.
  - by_computation.
  - repeat constructor.
  - by_computation.
Defined.

(** *** What a rotation that completes has written *)

Section Written.

Variables (alphaMap : list Z) (width height : Z).
Variables (angle_sin angle_cos : double) (boundingBox : SDL_Rect).

(** A cell of the result: zero, or a value that some cell of the source
    holds. *)
Let from_source (r : Z) : Prop := r = 0 \/ (r <> 0 /\ r ∈ alphaMap).

Lemma rotate_row_written (i : Z) (n : nat) :
  forall (j : Z) (result result' : list Z),
  Forall from_source result ->
  rotate_row alphaMap width height angle_sin angle_cos boundingBox i n j result
  = Some result' ->
  length result' = length result /\ Forall from_source result'.
Proof.
  induction n as [|n IH]; intros j result result' Hall.
  - intros [= <-]. split; [reflexivity | exact Hall].
  - cbn [rotate_row].
    destruct (Mem.read alphaMap _) as [v|] eqn:Ev; cbn [mbind option_bind]; [|discriminate].
    destruct (Z.eqb_spec v 0) as [-> | Hnz]; cbn [mbind option_bind].
    + apply IH. exact Hall.
    + destruct (Mem.write result _ v) as [result1|] eqn:Ew; cbn [mbind option_bind];
        [|discriminate].
      apply write_Some in Ew as [_ ->]. intros Hrun.
      apply IH in Hrun.
      * rewrite length_insert in Hrun. exact Hrun.
      * apply Forall_insert; [exact Hall|]. right. split; [exact Hnz|].
        apply read_Some in Ev as [_ Ev]. exact (list_elem_of_lookup_2 _ _ _ Ev).
Qed.

Lemma rotate_rows_written (n : nat) :
  forall (i : Z) (result result' : list Z),
  Forall from_source result ->
  rotate_rows alphaMap width height angle_sin angle_cos boundingBox n i result
  = Some result' ->
  length result' = length result /\ Forall from_source result'.
Proof.
  induction n as [|n IH]; intros i result result' Hall.
  - intros [= <-]. split; [reflexivity | exact Hall].
  - cbn [rotate_rows].
    destruct (rotate_row _ _ _ _ _ _ _ _ _ _) as [result1|] eqn:Er;
      cbn [mbind option_bind]; [|discriminate].
    apply rotate_row_written in Er as [Hl1 Hall1]; [|exact Hall].
    intros Hrun. apply IH in Hrun as [Hl Hall']; [|exact Hall1].
    split; [congruence | exact Hall'].
Qed.

End Written.

(** X11: a rotation that completes returns a map of the size of the bounding
    box in which every cell is zero or holds a non-zero value of the source:
    the scatter copies, it does not blend. *)
Theorem getRotatedAlphaMap_copies (lm : Libm) (alphaMap : list Z)
    (width height : Z) (angle : double) (result : list Z) :
  let boundingBox :=
    getRotatedBoundingBox lm (mkRect 0 0 width height) (mul angle (of_int (-1))) in
  getRotatedAlphaMap lm alphaMap width height angle = Some result ->
  Z.of_nat (length result) = imul (rw boundingBox) (rh boundingBox) /\
  Forall (fun r => r = 0 \/ (r <> 0 /\ r ∈ alphaMap)) result.
Proof.
  intros boundingBox. unfold getRotatedAlphaMap. fold boundingBox.
  unfold Mem.alloc.
  destruct (Z.leb_spec 0 (imul (rw boundingBox) (rh boundingBox))) as [Hsize|Hsize];
    cbn [mbind option_bind]; [|discriminate].
  intros Hrun. apply rotate_rows_written in Hrun as [Hl Hall].
  - split; [|exact Hall]. rewrite Hl, length_replicate. lia.
  - apply Forall_replicate. left. reflexivity.
Qed.

Lemma getRotatedAlphaMap_copies_witness :
  Z.of_nat (length [0; 0; 0; 0; 0; 0; 0; 2; 0; 0; 0; 7; 5; 6; 0; 0; 0; 9; 0; 0; 0; 0;
                    0; 0; 0])
  = imul (rw (getRotatedBoundingBox SeriesLibm.libm (mkRect 0 0 3 3)
                (mul (of_int 30) (of_int (-1)))))
         (rh (getRotatedBoundingBox SeriesLibm.libm (mkRect 0 0 3 3)
                (mul (of_int 30) (of_int (-1))))) /\
  Forall (fun r => r = 0 \/ (r <> 0 /\ r ∈ [1; 2; 0; 4; 5; 6; 7; 8; 9]))
    [0; 0; 0; 0; 0; 0; 0; 2; 0; 0; 0; 7; 5; 6; 0; 0; 0; 9; 0; 0; 0; 0; 0; 0; 0].
Proof.
  apply (getRotatedAlphaMap_copies SeriesLibm.libm [1; 2; 0; 4; 5; 6; 7; 8; 9] 3 3
           (of_int 30)).
  vm_compute. reflexivity.
Defined.

(** *** The rotation by zero degrees, cell by cell *)

(** The last column and the last row of the result of a rotation by zero
    degrees are zero. *)
Lemma getRotatedAlphaMap_zero_angle_border (lm : Libm) (alphaMap : list Z)
    (width height : Z) :
  libm_at_zero lm ->
  0 < width -> 0 < height -> (width + 1) * (height + 1) <= INT_MAX ->
  Z.of_nat (length alphaMap) = width * height ->
  exists result,
    getRotatedAlphaMap lm alphaMap width height (of_int 0) = Some result /\
    forall i j, 0 <= i <= height -> 0 <= j <= width -> i = height \/ j = width ->
    result !! Z.to_nat (i * (width + 1) + j) = Some 0.
Proof.
  intros Hlm Hw Hh Harea Hlen.
  assert (Hneg : is_zero (mul (of_int 0) (of_int (-1)))) by (exists true; reflexivity).
  pose proof (libm_sin_zero lm _ Hlm Hneg) as Hs.
  pose proof (libm_cos_zero lm _ Hlm Hneg) as Hc.
  assert (Hsmall : width * height <= INT_MAX /\ 0 < (width + 1) * (height + 1)).
  { assert (0 < width * height) by (apply Z.mul_pos_pos; lia).
    replace ((width + 1) * (height + 1)) with (width * height + width + height + 1) in * by ring.
    lia. }
  destruct Hsmall as [Hsmall Hpos]. unfold INT_MAX in Harea, Hsmall.
  pose proof (source_reads alphaMap width height Hlen ltac:(unfold INT_MAX; lia)) as Hreads.
  unfold getRotatedAlphaMap.
  rewrite (bounding_box_axis lm (mkRect 0 0 width height) _ Hlm Hneg)
    by (unfold rect_in_int, in_int, INT_MIN, INT_MAX; cbn [rx ry rw rh]; lia).
  cbn [rx ry rw rh].
  set (angle_sin := c_sin lm _) in *. set (angle_cos := c_cos lm _) in *.
  set (box := mkRect 0 0 (width + 1) (height + 1)).
  assert (Esize : imul (width + 1) (height + 1) = (width + 1) * (height + 1))
    by (apply wrap32_id; unfold in_int, INT_MIN, INT_MAX; lia).
  rewrite Esize. unfold Mem.alloc.
  replace (0 <=? (width + 1) * (height + 1)) with true by lia. cbn [mbind option_bind].
  set (size := Z.to_nat ((width + 1) * (height + 1))).
  assert (Hdest : forall i j, 0 <= i < height -> 0 <= j < width ->
            scatter_index width height angle_sin angle_cos box i j = i * (width + 1) + j /\
            0 <= i * (width + 1) + j < Z.of_nat size).
  { intros i j Hi Hj. unfold size. rewrite Z2Nat.id by lia.
    apply scatter_index_axis; (assumption || (unfold INT_MAX; lia)). }
  assert (Hwrites : forall i j v, opaque_at alphaMap width height i j v ->
            0 <= scatter_index width height angle_sin angle_cos box i j < Z.of_nat size).
  { intros i j v ((Hi & Hj) & _). destruct (Hdest i j Hi Hj) as [-> Hb]. exact Hb. }
  destruct (rotate_rows_inv alphaMap width height angle_sin angle_cos box size
              Hreads Hwrites (Z.to_nat height) 0 (replicate size 0))
    as (result & Hrun & Hall); [lia | lia | lia | apply all_cells_start |].
  exists result. split; [exact Hrun|].
  intros i j Hi Hj Hedge.
  assert (Hb : 0 <= i * (width + 1) + j < Z.of_nat size).
  { unfold size. rewrite Z2Nat.id by lia.
    assert (0 <= i * (width + 1)) by (apply Z.mul_nonneg_nonneg; lia).
    assert (i * (width + 1) <= height * (width + 1))
      by (apply Z.mul_le_mono_nonneg_r; lia).
    replace ((width + 1) * (height + 1)) with (height * (width + 1) + (width + 1)) by ring.
    lia. }
  destruct (all_cells_end alphaMap width height angle_sin angle_cos box size
              result (i * (width + 1) + j) Hall Hb) as (r & -> & Hcell).
  f_equal.
  destruct Hcell as [[-> _] | (i' & j' & Hop & Hd' & _)]; [reflexivity|].
  exfalso. destruct Hop as ((Hi' & Hj') & _).
  destruct (Hdest i' j' Hi' Hj') as [Ed' _]. rewrite Ed' in Hd'.
  assert (Ei : i' = i).
  { rewrite (Z.div_unique (i * (width + 1) + j) (width + 1) i j) by lia.
    apply (Z.div_unique (i * (width + 1) + j) (width + 1) i' j'); lia. }
  subst i'. lia.
Qed.

(** X12: at angle zero the rotation completes on every map of at least one
    cell: the result has one more column and one more row than the source,
    the source cell [(i, j)] is found in row [i] and column [j], and the
    added column and row are zero. *)
Theorem getRotatedAlphaMap_zero_angle_pads (lm : Libm) (alphaMap : list Z)
    (width height : Z) :
  libm_at_zero lm ->
  0 < width -> 0 < height -> (width + 1) * (height + 1) <= INT_MAX ->
  Z.of_nat (length alphaMap) = width * height ->
  exists result,
    getRotatedAlphaMap lm alphaMap width height (of_int 0) = Some result /\
    Z.of_nat (length result) = (width + 1) * (height + 1) /\
    forall i j, 0 <= i <= height -> 0 <= j <= width ->
    result !! Z.to_nat (i * (width + 1) + j)
    = if (i <? height) && (j <? width) then alphaMap !! Z.to_nat (i * width + j)
      else Some 0.
Proof.
  intros Hlm Hw Hh Harea Hlen.
  destruct (getRotatedAlphaMap_zero_angle lm alphaMap width height Hlm Hw Hh Harea Hlen)
    as (result & Hrun & Hl & Hin).
  destruct (getRotatedAlphaMap_zero_angle_border lm alphaMap width height Hlm Hw Hh Harea Hlen)
    as (result' & Hrun' & Hout).
  assert (result' = result) by congruence. subst result'.
  exists result. split; [exact Hrun|]. split; [exact Hl|].
  intros i j Hi Hj.
  destruct (Z.ltb_spec i height) as [Hih|Hih]; [destruct (Z.ltb_spec j width) as [Hjw|Hjw]|];
    cbn [andb].
  - apply Hin; lia.
  - apply Hout; lia.
  - apply Hout; lia.
Qed.

Lemma getRotatedAlphaMap_zero_angle_pads_witness :
  exists result,
    getRotatedAlphaMap SeriesLibm.libm [1; 2; 3; 4; 5; 6] 3 2 (of_int 0) = Some result /\
    Z.of_nat (length result) = (3 + 1) * (2 + 1) /\
    forall i j, 0 <= i <= 2 -> 0 <= j <= 3 ->
    result !! Z.to_nat (i * (3 + 1) + j)
    = if (i <? 2) && (j <? 3) then [1; 2; 3; 4; 5; 6] !! Z.to_nat (i * 3 + j)
      else Some 0.
Proof.
  apply (getRotatedAlphaMap_zero_angle_pads SeriesLibm.libm [1; 2; 3; 4; 5; 6] 3 2).
  - exact series_libm_at_zero.
  - lia.
  - lia.
  - unfold INT_MAX. lia.
  - reflexivity.
Defined.

(** ** More on the collision test *)

(** The run of [hasCollision] once the four maps are there: the answer, and
    the calls that were made. *)
Lemma hasCollision_runs (lm : Libm) (junk : Z)
    (texture1 : Texture) (rect1 : SDL_Rect) (angle1 : double)
    (texture2 : Texture) (rect2 : SDL_Rect) (angle2 : double)
    (box1 box2 : SDL_Rect)
    (resized_map1 resized_map2 map1 map2 : list Z) (tr : list call) :
  getRotatedBoundingBox lm rect1 angle1 = box1 ->
  getRotatedBoundingBox lm rect2 angle2 = box2 ->
  on_screen box1 -> on_screen box2 ->
  resizeBilinear junk (alphaMap texture1) (width texture1) (height texture1)
    (rw rect1) (rh rect1) = Some resized_map1 ->
  resizeBilinear junk (alphaMap texture2) (width texture2) (height texture2)
    (rw rect2) (rh rect2) = Some resized_map2 ->
  getRotatedAlphaMap lm resized_map1 (rw rect1) (rh rect1) angle1 = Some map1 ->
  getRotatedAlphaMap lm resized_map2 (rw rect2) (rh rect2) angle2 = Some map2 ->
  rw box1 * rh box1 <= Z.of_nat (length map1) ->
  rw box2 * rh box2 <= Z.of_nat (length map2) ->
  exists b tr',
    hasCollision lm junk texture1 rect1 angle1 texture2 rect2 angle2 tr
    = Some (b, tr') /\
    (b = true <->
     exists j i, in_rect (getIntersectionRect box1 box2) j i /\
                 nonzero_at map1 box1 (j - rx box1) (i - ry box1) /\
                 nonzero_at map2 box2 (j - rx box2) (i - ry box2)).
Proof.
  intros Hb1 Hb2 Hs1 Hs2 Hr1 Hr2 Hm1 Hm2 Hc1 Hc2.
  unfold hasCollision. rewrite Hb1, Hb2. clear Hb1 Hb2.
  destruct (Z.eqb_spec (rw (getIntersectionRect box1 box2)) 0) as [Hz | Hnz].
  - exists false, tr. split; [reflexivity|]. split; [discriminate|].
    intros (j & i & Hin & _). exfalso. exact (intersection_empty box1 box2 j i Hz Hin).
  - destruct (intersection_inside box1 box2 Hs1 Hs2 Hnz) as ((Hw & Hh) & (Ex & Ey) & Hin).
    unfold bind, resizeBilinear_call, getRotatedAlphaMap_call, called.
    rewrite Hr1, Hr2, Hm1, Hm2, Ey.
    rewrite Z.add_simpl_l.
    destruct (scan_rows_spec map1 map2 box1 box2 Hs1 Hs2 Hc1 Hc2
                (getIntersectionRect box1 box2)
                (Z.to_nat (rh (getIntersectionRect box1 box2)))
                (ry (getIntersectionRect box1 box2)) Ex ltac:(lia) Hin
                ltac:(lia) ltac:(lia)) as (b & -> & Hb).
    exists b. eexists. split; [reflexivity|]. rewrite Hb. split.
    + intros (j & i & (_ & Hr) & H1 & H2). exists j, i. auto.
    + intros (j & i & Hr & H1 & H2). exists j, i.
      split; [split; [destruct Hr as [_ Hr]; lia | exact Hr] | split; assumption].
Qed.

(** X14: the answer does not depend on the order of the two sprites, when
    the maps of both cover their bounding boxes. *)
Theorem hasCollision_symmetric (lm : Libm) (junk : Z)
    (texture1 : Texture) (rect1 : SDL_Rect) (angle1 : double)
    (texture2 : Texture) (rect2 : SDL_Rect) (angle2 : double)
    (resized_map1 resized_map2 map1 map2 : list Z) (tr : list call) :
  let box1 := getRotatedBoundingBox lm rect1 angle1 in
  let box2 := getRotatedBoundingBox lm rect2 angle2 in
  on_screen box1 -> on_screen box2 ->
  resizeBilinear junk (alphaMap texture1) (width texture1) (height texture1)
    (rw rect1) (rh rect1) = Some resized_map1 ->
  resizeBilinear junk (alphaMap texture2) (width texture2) (height texture2)
    (rw rect2) (rh rect2) = Some resized_map2 ->
  getRotatedAlphaMap lm resized_map1 (rw rect1) (rh rect1) angle1 = Some map1 ->
  getRotatedAlphaMap lm resized_map2 (rw rect2) (rh rect2) angle2 = Some map2 ->
  rw box1 * rh box1 <= Z.of_nat (length map1) ->
  rw box2 * rh box2 <= Z.of_nat (length map2) ->
  exists b tr1 tr2,
    hasCollision lm junk texture1 rect1 angle1 texture2 rect2 angle2 tr
    = Some (b, tr1) /\
    hasCollision lm junk texture2 rect2 angle2 texture1 rect1 angle1 tr
    = Some (b, tr2).
Proof.
  intros box1 box2.
  assert (Hb1 : getRotatedBoundingBox lm rect1 angle1 = box1) by reflexivity.
  assert (Hb2 : getRotatedBoundingBox lm rect2 angle2 = box2) by reflexivity.
  clearbody box1 box2.
  intros Hs1 Hs2 Hr1 Hr2 Hm1 Hm2 Hc1 Hc2.
  destruct (hasCollision_runs lm junk texture1 rect1 angle1 texture2 rect2 angle2
              box1 box2 resized_map1 resized_map2 map1 map2 tr
              Hb1 Hb2 Hs1 Hs2 Hr1 Hr2 Hm1 Hm2 Hc1 Hc2) as (b & tr1 & Hrun & Hb).
  destruct (hasCollision_runs lm junk texture2 rect2 angle2 texture1 rect1 angle1
              box2 box1 resized_map2 resized_map1 map2 map1 tr
              Hb2 Hb1 Hs2 Hs1 Hr2 Hr1 Hm2 Hm1 Hc2 Hc1) as (b' & tr2 & Hrun' & Hb').
  exists b, tr1, tr2. split; [exact Hrun|]. rewrite Hrun'. do 2 f_equal.
  assert (Hiff : b' = true <-> b = true).
  { rewrite Hb, Hb'. unfold getIntersectionRect, imax, imin.
    rewrite (Z.max_comm (rx box2)), (Z.max_comm (ry box2)).
    rewrite (Z.min_comm (iadd (rx box2) (rw box2))).
    rewrite (Z.min_comm (iadd (ry box2) (rh box2))).
    split; intros (j & i & Hin & H1 & H2); exists j, i; auto. }
  destruct b, b'; try reflexivity.
  - apply Hiff. reflexivity.
  - symmetry. apply Hiff. reflexivity.
Qed.

(** *** Two sprites that are not rotated *)

(** A coordinate of the intersection of two boxes lies in both, and the
    other way round. *)
Lemma in_both_boxes (box1 box2 : SDL_Rect) (j i : Z) :
  far_from_wrap box1 -> far_from_wrap box2 ->
  in_rect (getIntersectionRect box1 box2) j i <->
  in_rect box1 j i /\ in_rect box2 j i.
Proof.
  intros H1 H2. rewrite (intersection_exact box1 box2 H1 H2). unfold in_rect.
  destruct (Z.ltb_spec 0 (Z.min (rx box1 + rw box1) (rx box2 + rw box2)
                          - Z.max (rx box1) (rx box2))) as [Hpw|Hpw];
    [destruct (Z.ltb_spec 0 (Z.min (ry box1 + rh box1) (ry box2 + rh box2)
                             - Z.max (ry box1) (ry box2))) as [Hph|Hph]|];
    cbn [andb rw rh rx ry]; lia.
Qed.


Lemma read_lookup (buf : list Z) (i : Z) :
  0 <= i < Z.of_nat (length buf) -> Mem.read buf i = buf !! Z.to_nat i.
Proof.
  intros H. unfold Mem.read.
  replace (0 <=? i) with true by lia.
  replace (i <? Z.of_nat (length buf)) with true by lia. reflexivity.
Qed.

Lemma cell_in_map (w h x y : Z) :
  0 <= x < w -> 0 <= y < h -> 0 <= y * w + x < w * h.
Proof.
  intros Hx Hy.
  assert (0 <= y * w) by (apply Z.mul_nonneg_nonneg; lia).
  assert (y * w + w <= h * w).
  { replace (y * w + w) with ((y + 1) * w) by ring.
    apply Z.mul_le_mono_nonneg_r; lia. }
  rewrite (Z.mul_comm w h). lia.
Qed.

Lemma drawable_area (w h : Z) :
  0 < w < 2 ^ 15 -> 0 < h < 2 ^ 15 ->
  w * h <= INT_MAX /\ (w + 1) * (h + 1) <= INT_MAX.
Proof.
  intros Hw Hh. unfold INT_MAX.
  assert ((w + 1) * (h + 1) <= 2 ^ 15 * 2 ^ 15) by (apply Z.mul_le_mono_nonneg; lia).
  assert (w * h <= (w + 1) * (h + 1)) by (apply Z.mul_le_mono_nonneg; lia).
  lia.
Qed.

(** The map of a sprite at angle zero, seen from the screen: a coordinate of
    its bounding box falls on a cell that is not zero exactly when it lies
    in the destination rectangle, on a cell of the resampled map that is
    not zero. *)
Lemma unrotated_map (lm : Libm) (resized_map : list Z) (rect : SDL_Rect) :
  libm_at_zero lm -> drawable rect ->
  Z.of_nat (length resized_map) = rw rect * rh rect ->
  let box := mkRect (rx rect) (ry rect) (rw rect + 1) (rh rect + 1) in
  exists map,
    getRotatedAlphaMap lm resized_map (rw rect) (rh rect) (of_int 0) = Some map /\
    Z.of_nat (length map) = rw box * rh box /\
    forall j i, in_rect box j i ->
    (nonzero_at map box (j - rx box) (i - ry box) <->
     in_rect rect j i /\ nonzero_at resized_map rect (j - rx rect) (i - ry rect)).
Proof.
  intros Hlm ((Hx & Hy) & (Hw & Hh)) Hlen box.
  destruct rect as [x y w h]. cbn [rx ry rw rh] in *.
  destruct (drawable_area w h Hw Hh) as [Ha Ha1].
  destruct (getRotatedAlphaMap_zero_angle lm resized_map w h Hlm
              ltac:(lia) ltac:(lia) Ha1 Hlen) as (map & Hrun & Hl & Hin).
  destruct (getRotatedAlphaMap_zero_angle_border lm resized_map w h Hlm
              ltac:(lia) ltac:(lia) Ha1 Hlen) as (map' & Hrun' & Hout).
  assert (map' = map) by congruence. subst map'.
  exists map. split; [exact Hrun|]. unfold box. cbn [rx ry rw rh].
  split; [exact Hl|].
  intros j i [Hj Hi]. cbn [rx ry rw rh] in Hj, Hi.
  unfold nonzero_at, in_rect. cbn [rx ry rw rh].
  pose proof (cell_in_map (w + 1) (h + 1) (j - x) (i - y) ltac:(lia) ltac:(lia)) as Hb.
  rewrite (read_lookup map) by lia.
  destruct (Z_lt_dec (j - x) w) as [Hjw|Hjw]; [destruct (Z_lt_dec (i - y) h) as [Hih|Hih]|].
  - pose proof (cell_in_map w h (j - x) (i - y) ltac:(lia) ltac:(lia)) as Hb'.
    rewrite (read_lookup resized_map) by lia.
    rewrite (Hin (i - y) (j - x)) by lia.
    split; [intros Hnz; split; [lia | exact Hnz] | intros [_ Hnz]; exact Hnz].
  - rewrite (Hout (i - y) (j - x)) by lia.
    split; [intros (v & [= <-] & Hv); contradiction | intros [? _]; lia].
  - rewrite (Hout (i - y) (j - x)) by lia.
    split; [intros (v & [= <-] & Hv); contradiction | intros [? _]; lia].
Qed.

Lemma drawable_box (lm : Libm) (rect : SDL_Rect) :
  libm_at_zero lm -> drawable rect ->
  let box := mkRect (rx rect) (ry rect) (rw rect + 1) (rh rect + 1) in
  getRotatedBoundingBox lm rect (of_int 0) = box /\ on_screen box /\ far_from_wrap box /\
  forall j i, in_rect rect j i -> in_rect box j i.
Proof.
  intros Hlm ((Hx & Hy) & (Hw & Hh)) box. split; [|split; [|split]].
  - apply bounding_box_axis; try assumption.
    + exists false. reflexivity.
    + unfold rect_in_int, in_int, INT_MIN, INT_MAX. lia.
    + unfold INT_MAX. lia.
    + unfold INT_MAX. lia.
  - unfold on_screen, box. cbn [rx ry rw rh]. lia.
  - unfold far_from_wrap, box. cbn [rx ry rw rh]. lia.
  - unfold in_rect, box. cbn [rx ry rw rh]. lia.
Qed.

(** X15: two sprites drawn without rotation, from textures of at least two
    cells a side: [hasCollision] completes, and it answers [true] exactly
    when some coordinate lies in both destination rectangles on cells of the
    two resampled maps that are not zero. The column and the row that the
    bounding box adds never count. *)
Theorem hasCollision_unrotated (lm : Libm) (junk : Z)
    (texture1 : Texture) (rect1 : SDL_Rect)
    (texture2 : Texture) (rect2 : SDL_Rect) (tr : list call) :
  libm_at_zero lm ->
  resamplable texture1 -> resamplable texture2 ->
  drawable rect1 -> drawable rect2 ->
  exists resized_map1 resized_map2 b tr',
    resizeBilinear junk (alphaMap texture1) (width texture1) (height texture1)
      (rw rect1) (rh rect1) = Some resized_map1 /\
    resizeBilinear junk (alphaMap texture2) (width texture2) (height texture2)
      (rw rect2) (rh rect2) = Some resized_map2 /\
    hasCollision lm junk texture1 rect1 (of_int 0) texture2 rect2 (of_int 0) tr
    = Some (b, tr') /\
    (b = true <->
     exists j i, (in_rect rect1 j i /\ in_rect rect2 j i) /\
                 nonzero_at resized_map1 rect1 (j - rx rect1) (i - ry rect1) /\
                 nonzero_at resized_map2 rect2 (j - rx rect2) (i - ry rect2)).
Proof.
  intros Hlm ((Hw1 & Hh1) & Hl1) ((Hw2 & Hh2) & Hl2) Hd1 Hd2.
  pose proof Hd1 as ((_ & _) & (Hrw1 & Hrh1)).
  pose proof Hd2 as ((_ & _) & (Hrw2 & Hrh2)).
  destruct (drawable_area _ _ Hrw1 Hrh1) as [Ha1 _].
  destruct (drawable_area _ _ Hrw2 Hrh2) as [Ha2 _].
  destruct (resizeBilinear_completes (alphaMap texture1) (width texture1) (height texture1)
              Hw1 Hh1 Hl1 junk (rw rect1) (rh rect1) ltac:(lia) ltac:(lia) Ha1)
    as (resized_map1 & Hr1 & Hlr1).
  destruct (resizeBilinear_completes (alphaMap texture2) (width texture2) (height texture2)
              Hw2 Hh2 Hl2 junk (rw rect2) (rh rect2) ltac:(lia) ltac:(lia) Ha2)
    as (resized_map2 & Hr2 & Hlr2).
  destruct (unrotated_map lm resized_map1 rect1 Hlm Hd1 Hlr1) as (map1 & Hm1 & Hlm1 & Hcell1).
  destruct (unrotated_map lm resized_map2 rect2 Hlm Hd2 Hlr2) as (map2 & Hm2 & Hlm2 & Hcell2).
  destruct (drawable_box lm rect1 Hlm Hd1) as (Hb1 & Hs1 & Hf1 & Hin1).
  destruct (drawable_box lm rect2 Hlm Hd2) as (Hb2 & Hs2 & Hf2 & Hin2).
  set (box1 := mkRect (rx rect1) (ry rect1) (rw rect1 + 1) (rh rect1 + 1)) in *.
  set (box2 := mkRect (rx rect2) (ry rect2) (rw rect2 + 1) (rh rect2 + 1)) in *.
  destruct (hasCollision_runs lm junk texture1 rect1 (of_int 0) texture2 rect2 (of_int 0)
              box1 box2 resized_map1 resized_map2 map1 map2 tr
              Hb1 Hb2 Hs1 Hs2 Hr1 Hr2 Hm1 Hm2 ltac:(lia) ltac:(lia))
    as (b & tr' & Hrun & Hb).
  exists resized_map1, resized_map2, b, tr'.
  split; [exact Hr1|]. split; [exact Hr2|]. split; [exact Hrun|].
  rewrite Hb. split.
  - intros (j & i & Hin & Hn1 & Hn2).
    apply (in_both_boxes box1 box2 j i Hf1 Hf2) in Hin as [Hi1 Hi2].
    apply (Hcell1 j i Hi1) in Hn1 as [Hr1' Hn1].
    apply (Hcell2 j i Hi2) in Hn2 as [Hr2' Hn2].
    exists j, i. auto.
  - intros (j & i & (Hi1 & Hi2) & Hn1 & Hn2).
    exists j, i. split; [|split].
    + apply (in_both_boxes box1 box2 j i Hf1 Hf2). auto.
    + apply (Hcell1 j i (Hin1 j i Hi1)). auto.
    + apply (Hcell2 j i (Hin2 j i Hi2)). auto.
Qed.

Lemma hasCollision_unrotated_witness :
  exists resized_map1 resized_map2 b tr',
    resizeBilinear 0 [255; 0; 255; 255] 2 2 4 4 = Some resized_map1 /\
    resizeBilinear 0 [0; 255; 0; 255; 255; 255; 0; 255; 0] 3 3 4 4 = Some resized_map2 /\
    hasCollision SeriesLibm.libm 0
      (mkTexture 2 2 [255; 0; 255; 255]) (mkRect 0 0 4 4) (of_int 0)
      (mkTexture 3 3 [0; 255; 0; 255; 255; 255; 0; 255; 0]) (mkRect 3 2 4 4) (of_int 0) []
    = Some (b, tr') /\
    (b = true <->
     exists j i, (in_rect (mkRect 0 0 4 4) j i /\ in_rect (mkRect 3 2 4 4) j i) /\
                 nonzero_at resized_map1 (mkRect 0 0 4 4) (j - 0) (i - 0) /\
                 nonzero_at resized_map2 (mkRect 3 2 4 4) (j - 3) (i - 2)).
Proof.
  apply (hasCollision_unrotated SeriesLibm.libm 0
           (mkTexture 2 2 [255; 0; 255; 255]) (mkRect 0 0 4 4)
           (mkTexture 3 3 [0; 255; 0; 255; 255; 255; 0; 255; 0]) (mkRect 3 2 4 4) []).
  - exact series_libm_at_zero.
  - unfold resamplable. simpl. lia.
  - unfold resamplable. simpl. lia.
  - unfold drawable. simpl. lia.
  - unfold drawable. simpl. lia.
Defined.

Lemma hasCollision_symmetric_witness :
  exists b tr1 tr2,
    hasCollision SeriesLibm.libm 0
      (mkTexture 2 2 [255; 0; 255; 255]) (mkRect 0 0 4 4) (of_int 45)
      (mkTexture 3 3 [0; 255; 0; 255; 255; 255; 0; 255; 0]) (mkRect 3 2 4 4) (of_int 0)
      [] = Some (b, tr1) /\
    hasCollision SeriesLibm.libm 0
      (mkTexture 3 3 [0; 255; 0; 255; 255; 255; 0; 255; 0]) (mkRect 3 2 4 4) (of_int 0)
      (mkTexture 2 2 [255; 0; 255; 255]) (mkRect 0 0 4 4) (of_int 45)
      [] = Some (b, tr2).
Proof.
  apply (hasCollision_symmetric SeriesLibm.libm 0
           (mkTexture 2 2 [255; 0; 255; 255]) (mkRect 0 0 4 4) (of_int 45)
           (mkTexture 3 3 [0; 255; 0; 255; 255; 255; 0; 255; 0]) (mkRect 3 2 4 4) (of_int 0)
           [255; 191; 127; 63; 255; 207; 159; 111; 255; 223; 191; 159; 255; 239; 223; 207]
           [0; 127; 255; 127; 127; 191; 255; 191; 255; 255; 255; 255; 127; 191; 255; 191]
           [0; 0; 0; 255; 0; 0; 0; 0; 255; 0; 191; 0; 0; 255; 223; 207; 159; 63;
            0; 0; 239; 191; 111; 0; 0; 0; 223; 207; 159; 0; 0; 0; 0; 0; 0; 0]
           [0; 127; 255; 127; 0; 127; 191; 255; 191; 0; 255; 255; 255; 255; 0;
            127; 191; 255; 191; 0; 0; 0; 0; 0; 0]).
  - by_computation.
  - by_computation.
  - vm_compute. reflexivity.
  - vm_compute. reflexivity.
  - vm_compute. reflexivity.
  - vm_compute. reflexivity.
  - by_computation.
  - by_computation.
Defined.

(** X16: two sprites drawn without rotation with a gap of at least one
    pixel between their rectangles, side by side or one above the other:
    [hasCollision] answers [false] and calls neither the resampler nor the
    rotation, whatever the textures. *)
Theorem hasCollision_apart (lm : Libm) (junk : Z)
    (texture1 : Texture) (rect1 : SDL_Rect)
    (texture2 : Texture) (rect2 : SDL_Rect) (tr : list call) :
  libm_at_zero lm -> drawable rect1 -> drawable rect2 ->
  rx rect1 + rw rect1 < rx rect2 \/ rx rect2 + rw rect2 < rx rect1 \/
  ry rect1 + rh rect1 < ry rect2 \/ ry rect2 + rh rect2 < ry rect1 ->
  hasCollision lm junk texture1 rect1 (of_int 0) texture2 rect2 (of_int 0) tr
  = Some (false, tr).
Proof.
  intros Hlm Hd1 Hd2 Hgap.
  destruct (drawable_box lm rect1 Hlm Hd1) as (Hb1 & _ & Hf1 & _).
  destruct (drawable_box lm rect2 Hlm Hd2) as (Hb2 & _ & Hf2 & _).
  unfold hasCollision. rewrite Hb1, Hb2.
  rewrite (intersection_exact _ _ Hf1 Hf2). cbn [rx ry rw rh].
  destruct (Z.ltb_spec 0 (Z.min (rx rect1 + (rw rect1 + 1)) (rx rect2 + (rw rect2 + 1))
                          - Z.max (rx rect1) (rx rect2))) as [Hpw|Hpw];
    [destruct (Z.ltb_spec 0 (Z.min (ry rect1 + (rh rect1 + 1)) (ry rect2 + (rh rect2 + 1))
                             - Z.max (ry rect1) (ry rect2))) as [Hph|Hph]|];
    cbn [andb rw]; try reflexivity.
  exfalso. lia.
Qed.

Lemma hasCollision_apart_witness :
  hasCollision SeriesLibm.libm 0
    (mkTexture 1 1 [255]) (mkRect 0 0 10 10) (of_int 0)
    (mkTexture 1 1 [255]) (mkRect 11 0 10 10) (of_int 0) []
  = Some (false, []).
Proof.
  apply (hasCollision_apart SeriesLibm.libm 0
           (mkTexture 1 1 [255]) (mkRect 0 0 10 10)
           (mkTexture 1 1 [255]) (mkRect 11 0 10 10) []).
  - exact series_libm_at_zero.
  - unfold drawable. simpl. lia.
  - unfold drawable. simpl. lia.
  - simpl. lia.
Defined.

(** X17: a texture of a single row of pixels cannot be tested: as soon as
    the two bounding boxes meet, [hasCollision] resamples it and reads past
    the end of its alpha map. *)
Theorem hasCollision_single_row (lm : Libm) (junk : Z)
    (texture1 : Texture) (rect1 : SDL_Rect) (angle1 : double)
    (texture2 : Texture) (rect2 : SDL_Rect) (angle2 : double) (tr : list call) :
  single_row texture1 \/ single_row texture2 ->
  (0 < rw rect1 /\ 0 < rh rect1) /\ (0 < rw rect2 /\ 0 < rh rect2) ->
  rw (getIntersectionRect (getRotatedBoundingBox lm rect1 angle1)
                          (getRotatedBoundingBox lm rect2 angle2)) <> 0 ->
  hasCollision lm junk texture1 rect1 angle1 texture2 rect2 angle2 tr = None.
Proof.
  intros Hrow ((Hw1 & Hh1) & (Hw2 & Hh2)) Hne. unfold hasCollision.
  destruct (Z.eqb_spec (rw (getIntersectionRect (getRotatedBoundingBox lm rect1 angle1)
                              (getRotatedBoundingBox lm rect2 angle2))) 0);
    [contradiction|].
  unfold bind, resizeBilinear_call, called.
  destruct Hrow as [(Hh & Hw & Hl) | (Hh & Hw & Hl)].
  - rewrite Hh, (resizeBilinear_single_row junk _ _ _ _ Hw Hw1 Hh1 Hl). reflexivity.
  - rewrite Hh, (resizeBilinear_single_row junk (alphaMap texture2) _ _ _ Hw Hw2 Hh2 Hl).
    destruct (resizeBilinear junk (alphaMap texture1) _ _ _ _); reflexivity.
Qed.

Lemma hasCollision_single_row_witness :
  hasCollision SeriesLibm.libm 0
    (mkTexture 5 1 [255; 255; 255; 255; 255]) (mkRect 0 0 10 10) (of_int 0)
    (mkTexture 10 10 (replicate 100 255)) (mkRect 5 5 10 10) (of_int 0) []
  = None.
Proof.
  apply (hasCollision_single_row SeriesLibm.libm 0
           (mkTexture 5 1 [255; 255; 255; 255; 255]) (mkRect 0 0 10 10) (of_int 0)
           (mkTexture 10 10 (replicate 100 255)) (mkRect 5 5 10 10) (of_int 0) []).
  - left. unfold single_row, INT_MAX. simpl. lia.
  - simpl. lia.
  - vm_compute. discriminate.
Defined.

(** *** A sprite without an opaque pixel *)



Section ScanTransparent.

Variables (map1 map2 : list Z) (box1 box2 : SDL_Rect).

Hypothesis one_is_zero :
  Forall (fun v => v = 0) map1 \/ Forall (fun v => v = 0) map2.




End ScanTransparent.



(** ** More on the alpha of a pixel *)

Lemma assemble_le_1 (b : Z) : assemble_le [b] = b.
Proof. unfold assemble_le. cbn [foldr]. rewrite Z.shiftl_0_l. apply Z.lor_0_r. Qed.

Lemma assemble_le_3 (b0 b1 b2 : Z) :
  assemble_le [b0; b1; b2] = Z.lor (Z.lor b0 (Z.shiftl b1 8)) (Z.shiftl b2 16).
Proof.
  unfold assemble_le. cbn [foldr]. rewrite Z.shiftl_0_l, Z.lor_0_r.
  rewrite Z.shiftl_lor, Z.shiftl_shiftl by lia. apply Z.lor_assoc.
Qed.

Lemma assemble_be_3 (b0 b1 b2 : Z) :
  assemble_le [b2; b1; b0] = Z.lor (Z.lor (Z.shiftl b0 16) (Z.shiftl b1 8)) b2.
Proof.
  rewrite assemble_le_3.
  rewrite (Z.lor_comm (Z.shiftl b0 16)), <- Z.lor_assoc, Z.lor_comm.
  rewrite (Z.lor_comm (Z.shiftl b1 8)). reflexivity.
Qed.

(** The four branches of the [switch], as one read. *)
Lemma getAlpha_as_packed (sdl : SDL) (junk : Z) (surface : SDL_Surface) (x y : Z) :
  1 <= BytesPerPixel (format surface) <= 4 ->
  getAlpha sdl junk surface x y
  = (pixelColor ←
       load_packed sdl (pixels surface)
         (imul y (pitch surface) + imul x (BytesPerPixel (format surface)))
         (Z.to_nat (BytesPerPixel (format surface)));
     Some (SDL_GetRGBA_alpha sdl pixelColor (format surface))).
Proof.
  intros Hb. unfold getAlpha.
  set (p := imul y (pitch surface) + imul x (BytesPerPixel (format surface))).
  assert (E : BytesPerPixel (format surface) = 1 \/ BytesPerPixel (format surface) = 2 \/
              BytesPerPixel (format surface) = 3 \/ BytesPerPixel (format surface) = 4) by lia.
  destruct E as [E | [E | [E | E]]]; rewrite E; cbn [Z.eqb Pos.eqb];
    [f_equal; unfold load_packed, load_bytes | reflexivity
    |f_equal; unfold load_packed, load_bytes | reflexivity].
  - change (Z.to_nat 1) with 1%nat. cbn [seq mapM]. change (Z.of_nat 0) with 0.
    rewrite Z.add_0_r.
    destruct (Mem.read (pixels surface) p) as [b0|]; [|reflexivity].
    cbn [mbind option_bind mret option_ret].
    destruct (SDL_BIG_ENDIAN_host sdl);
      [change (reverse [b0]) with [b0]|]; now rewrite assemble_le_1.
  - change (Z.to_nat 3) with 3%nat. cbn [seq mapM].
    change (Z.of_nat 0) with 0. change (Z.of_nat 1) with 1. change (Z.of_nat 2) with 2.
    rewrite Z.add_0_r.
    destruct (Mem.read (pixels surface) p) as [b0|]; [|reflexivity].
    cbn [mbind option_bind mret option_ret].
    destruct (Mem.read (pixels surface) (p + 1)) as [b1|]; [|reflexivity].
    cbn [mbind option_bind mret option_ret].
    destruct (Mem.read (pixels surface) (p + 2)) as [b2|]; [|reflexivity].
    cbn [mbind option_bind mret option_ret].
    destruct (SDL_BIG_ENDIAN_host sdl).
    + change (reverse [b0; b1; b2]) with [b2; b1; b0]. now rewrite assemble_be_3.
    + now rewrite assemble_le_3.
Qed.

(** X18: for the four byte widths the [switch] knows, the pixel value is
    made of the bytes of the pixel in host order: the first byte is the
    lowest on a little-endian host and the highest on a big-endian one. The
    branch for three bytes, written out by hand, is no exception. A byte
    outside the buffer is a fault. *)
Theorem getAlpha_host_order (sdl : SDL) (junk : Z) (surface : SDL_Surface) (x y : Z) :
  1 <= BytesPerPixel (format surface) <= 4 ->
  getAlpha sdl junk surface x y
  = (bs ←
       load_bytes (pixels surface)
         (imul y (pitch surface) + imul x (BytesPerPixel (format surface)))
         (Z.to_nat (BytesPerPixel (format surface)));
     Some (SDL_GetRGBA_alpha sdl
             (assemble_le (if SDL_BIG_ENDIAN_host sdl then reverse bs else bs))
             (format surface))).
Proof.
  intros Hb. rewrite (getAlpha_as_packed sdl junk surface x y Hb). unfold load_packed.
  destruct (load_bytes _ _ _) as [bs|]; reflexivity.
Qed.

Lemma getAlpha_host_order_witness :
  getAlpha sdl_packed 0
    (mkSurface (mkFormat 3 0 0 8) 6 [1; 2; 3; 4; 5; 6; 7; 8; 9; 10; 11; 12]) 1 1
  = (bs ←
       load_bytes [1; 2; 3; 4; 5; 6; 7; 8; 9; 10; 11; 12]
         (imul 1 6 + imul 1 3) (Z.to_nat 3);
     Some (SDL_GetRGBA_alpha sdl_packed
             (assemble_le (if SDL_BIG_ENDIAN_host sdl_packed then reverse bs else bs))
             (mkFormat 3 0 0 8))).
Proof.
  apply (getAlpha_host_order sdl_packed 0
           (mkSurface (mkFormat 3 0 0 8) 6 [1; 2; 3; 4; 5; 6; 7; 8; 9; 10; 11; 12]) 1 1).
  simpl. lia.
Defined.

(** *** Pixels of a well-formed picture *)

Lemma load_bytes_in_bounds (buf : list Z) (p : Z) (n : nat) :
  0 <= p -> p + Z.of_nat n <= Z.of_nat (length buf) ->
  exists bs, load_bytes buf p n = Some bs.
Proof.
  intros Hp Hn. unfold load_bytes.
  apply (proj2 (mapM_is_Some _ _)). apply Forall_forall. intros k Hk.
  apply elem_of_seq in Hk. cbn [compose].
  destruct (read_in_bounds buf (p + Z.of_nat k) ltac:(lia)) as [v Hv].
  rewrite Hv. eexists. reflexivity.
Qed.

(** Where the pixel [(x, y)] of a well-formed picture lies in the buffer. *)
Lemma pixel_in_buffer (pic : Picture) (x y : Z) :
  well_formed pic -> 0 <= x < pic_w pic -> 0 <= y < pic_h pic ->
  let s := pic_surface pic in
  let bpp := BytesPerPixel (format s) in
  let p := imul y (pitch s) + imul x bpp in
  p = y * pitch s + x * bpp /\
  0 <= p /\ p + Z.of_nat (Z.to_nat bpp) <= Z.of_nat (length (pixels s)).
Proof.
  intros (Hb & (Hw & Hh) & Hrow & Hbuf & Hmax) Hx Hy s bpp p.
  fold s in Hb, Hrow, Hbuf, Hmax. fold bpp in Hb, Hrow. unfold INT_MAX in Hmax.
  assert (Hp0 : 0 <= pitch s).
  { assert (0 <= pic_w pic * bpp) by (apply Z.mul_nonneg_nonneg; lia). lia. }
  assert (H1 : 0 <= y * pitch s) by (apply Z.mul_nonneg_nonneg; lia).
  assert (H2 : y * pitch s + pitch s <= pitch s * pic_h pic).
  { replace (y * pitch s + pitch s) with (pitch s * (y + 1)) by ring.
    apply Z.mul_le_mono_nonneg_l; lia. }
  assert (H3 : 0 <= x * bpp) by (apply Z.mul_nonneg_nonneg; lia).
  assert (H4 : x * bpp + bpp <= pic_w pic * bpp).
  { replace (x * bpp + bpp) with ((x + 1) * bpp) by ring.
    apply Z.mul_le_mono_nonneg_r; lia. }
  assert (Ey : imul y (pitch s) = y * pitch s)
    by (apply wrap32_id; unfold in_int, INT_MIN, INT_MAX; lia).
  assert (Ex : imul x bpp = x * bpp)
    by (apply wrap32_id; unfold in_int, INT_MIN, INT_MAX; lia).
  unfold p. rewrite Ey, Ex, Z2Nat.id by lia. lia.
Qed.

Lemma getAlpha_defined (sdl : SDL) (pic : Picture) (x y : Z) :
  well_formed pic -> 0 <= x < pic_w pic -> 0 <= y < pic_h pic ->
  exists alpha, forall junk, getAlpha sdl junk (pic_surface pic) x y = Some alpha.
Proof.
  intros Hwf Hx Hy. destruct (pixel_in_buffer pic x y Hwf Hx Hy) as (_ & Hp & Hq).
  destruct Hwf as (Hb & _).
  destruct (load_bytes_in_bounds _ _ _ Hp Hq) as [bs Hbs].
  eexists. intros junk. rewrite (getAlpha_as_packed sdl junk _ x y Hb).
  unfold load_packed. rewrite Hbs. cbn [mbind option_bind]. reflexivity.
Qed.

(** X19: on a well-formed picture the alpha of every pixel is defined, and
    it is the same whatever the variable [pixelColor] held before the
    [switch]. *)
Theorem getAlpha_well_formed (sdl : SDL) (pic : Picture) (x y : Z) :
  well_formed pic -> 0 <= x < pic_w pic -> 0 <= y < pic_h pic ->
  exists pixelColor,
    load_packed sdl (pixels (pic_surface pic))
      (y * pitch (pic_surface pic) + x * BytesPerPixel (format (pic_surface pic)))
      (Z.to_nat (BytesPerPixel (format (pic_surface pic)))) = Some pixelColor /\
    forall junk,
      getAlpha sdl junk (pic_surface pic) x y
      = Some (SDL_GetRGBA_alpha sdl pixelColor (format (pic_surface pic))).
Proof.
  intros Hwf Hx Hy. destruct (pixel_in_buffer pic x y Hwf Hx Hy) as (Ep & Hp & Hq).
  rewrite <- Ep.
  destruct Hwf as (Hb & _).
  destruct (load_bytes_in_bounds _ _ _ Hp Hq) as [bs Hbs].
  eexists. split.
  - unfold load_packed. rewrite Hbs. cbn [mbind option_bind]. reflexivity.
  - intros junk. rewrite (getAlpha_as_packed sdl junk _ x y Hb).
    unfold load_packed. rewrite Hbs. cbn [mbind option_bind]. reflexivity.
Qed.

Lemma getAlpha_well_formed_witness :
  exists pixelColor,
    load_packed sdl_packed [1; 2; 3; 4; 5; 6; 7; 8; 9; 10; 11; 12; 13; 14; 15; 16]
      (1 * 8 + 1 * 4) (Z.to_nat 4) = Some pixelColor /\
    forall junk,
      getAlpha sdl_packed junk
        (mkSurface (mkFormat 4 4278190080 24 0) 8
           [1; 2; 3; 4; 5; 6; 7; 8; 9; 10; 11; 12; 13; 14; 15; 16]) 1 1
      = Some (SDL_GetRGBA_alpha sdl_packed pixelColor (mkFormat 4 4278190080 24 0)).
Proof.
  apply (getAlpha_well_formed sdl_packed
           (mkPicture (mkSurface (mkFormat 4 4278190080 24 0) 8
                         [1; 2; 3; 4; 5; 6; 7; 8; 9; 10; 11; 12; 13; 14; 15; 16]) 2 2) 1 1).
  - unfold well_formed, INT_MAX. simpl. lia.
  - simpl. lia.
  - simpl. lia.
Defined.

(** ** Loading a texture *)

Section Filling.

Variables (sdl : SDL) (junk : Z) (pic : Picture).
Hypothesis pic_well_formed : well_formed pic.

Let w := pic_w pic.
Let h := pic_h pic.

(** The cells before position [k] of the alpha map hold the alpha of their
    pixels. *)
Let filled (k : Z) (alphaMap : list Z) : Prop :=
  Z.of_nat (length alphaMap) = w * h /\
  forall i j, 0 <= i < h -> 0 <= j < w -> i * w + j < k ->
  alphaMap !! Z.to_nat (i * w + j) = getAlpha sdl junk (pic_surface pic) j i.

Lemma picture_area : 0 <= w /\ 0 <= h /\ w * h <= INT_MAX.
Proof.
  destruct pic_well_formed as (Hb & (Hw & Hh) & Hrow & Hbuf & Hmax).
  fold w in Hw, Hrow. fold h in Hh, Hbuf. split; [exact Hw|]. split; [exact Hh|].
  set (s := pic_surface pic) in *. set (bpp := BytesPerPixel (format s)) in *.
  assert (w * 1 <= w * bpp) by (apply Z.mul_le_mono_nonneg_l; lia).
  assert (w * h <= pitch s * h) by (apply Z.mul_le_mono_nonneg_r; lia).
  lia.
Qed.

Lemma alpha_row_inv (i : Z) (n : nat) :
  forall (j : Z) (alphaMap : list Z),
  0 <= i < h -> 0 <= j -> j + Z.of_nat n = w ->
  filled (i * w + j) alphaMap ->
  exists alphaMap',
    alpha_row sdl junk pic i n j alphaMap = Some alphaMap' /\
    filled (i * w + w) alphaMap'.
Proof.
  destruct picture_area as (Hw & Hh & Harea). unfold INT_MAX in Harea.
  induction n as [|n IH]; intros j alphaMap Hi Hj Hn [Hlen Hcells].
  - exists alphaMap. split; [reflexivity|].
    replace (i * w + w) with (i * w + j) by lia. split; assumption.
  - cbn [alpha_row].
    destruct (getAlpha_defined sdl pic j i pic_well_formed ltac:(fold w; lia) Hi)
      as [alpha Halpha].
    rewrite Halpha. cbn [mbind option_bind]. fold w.
    pose proof (cell_in_map w h j i ltac:(lia) Hi) as Hidx.
    assert (Eidx : iadd (imul i w) j = i * w + j).
    { unfold iadd, imul. rewrite wrap32_add_l.
      apply wrap32_id. unfold in_int, INT_MIN, INT_MAX. lia. }
    rewrite Eidx, write_in_bounds by lia. cbn [mbind option_bind].
    apply IH; [assumption | lia | lia |].
    split; [rewrite length_insert; exact Hlen|].
    intros i' j' Hi' Hj' Hlt.
    destruct (Z.eq_dec (i' * w + j') (i * w + j)) as [E | Hne].
    + assert (Ei : i' = i).
      { rewrite (Z.div_unique (i * w + j) w i j) by lia.
        apply (Z.div_unique (i * w + j) w i' j'); lia. }
      assert (Ej : j' = j) by (subst i'; lia). subst i' j'.
      rewrite list_lookup_insert_eq by lia. symmetry. apply Halpha.
    + rewrite list_lookup_insert_ne by lia. apply Hcells; [assumption | assumption | lia].
Qed.

Lemma alpha_rows_inv (n : nat) :
  forall (i : Z) (alphaMap : list Z),
  0 <= i -> i + Z.of_nat n = h ->
  filled (i * w) alphaMap ->
  exists alphaMap',
    alpha_rows sdl junk pic n i alphaMap = Some alphaMap' /\
    filled (h * w) alphaMap'.
Proof.
  destruct picture_area as (Hw & Hh & Harea).
  induction n as [|n IH]; intros i alphaMap Hi Hn Hfill.
  - exists alphaMap. split; [reflexivity|]. replace h with i by lia. exact Hfill.
  - cbn [alpha_rows]. fold w.
    destruct (alpha_row_inv i (Z.to_nat w) 0 alphaMap) as (alphaMap1 & -> & Hfill1);
      [lia | lia | lia | rewrite Z.add_0_r; exact Hfill |].
    cbn [mbind option_bind]. apply IH; [lia | lia |].
    replace ((i + 1) * w) with (i * w + w) by ring. exact Hfill1.
Qed.

Lemma alpha_map_filled :
  exists alphaMap,
    (alphaMap0 ← Mem.alloc (imul w h) junk;
     alpha_rows sdl junk pic (Z.to_nat h) 0 alphaMap0) = Some alphaMap /\
    Z.of_nat (length alphaMap) = w * h /\
    forall i j, 0 <= i < h -> 0 <= j < w ->
    alphaMap !! Z.to_nat (i * w + j) = getAlpha sdl junk (pic_surface pic) j i.
Proof.
  destruct picture_area as (Hw & Hh & Harea). unfold INT_MAX in Harea.
  assert (Hpos : 0 <= w * h) by (apply Z.mul_nonneg_nonneg; lia).
  unfold Mem.alloc, imul.
  rewrite wrap32_id by (unfold in_int, INT_MIN, INT_MAX; lia).
  replace (0 <=? w * h) with true by lia. cbn [mbind option_bind].
  destruct (alpha_rows_inv (Z.to_nat h) 0 (replicate (Z.to_nat (w * h)) junk))
    as (alphaMap & Hrun & Hlen & Hcells); [lia | lia | |].
  { split; [rewrite length_replicate; lia|]. intros i j Hi Hj Hlt.
    assert (0 <= i * w) by (apply Z.mul_nonneg_nonneg; lia). lia. }
  exists alphaMap. split; [exact Hrun|]. split; [exact Hlen|].
  intros i j Hi Hj. apply Hcells; try assumption.
  pose proof (cell_in_map w h j i Hj Hi). rewrite (Z.mul_comm h w). lia.
Qed.

End Filling.

(** X20: a well-formed picture always loads: the texture has the size of the
    picture, and cell [i * w + j] of its alpha map holds the alpha of the
    pixel in column [j] and row [i]. Every cell of the fresh buffer is
    overwritten: the texture does not depend on what the buffer, or the
    variable [pixelColor], held before. *)
Theorem loadTextureUnderneath_alphaMap (sdl : SDL) (video : SDL_video)
    (image : Picture) (changeColor : bool) (r g b alpha : Z) :
  let pic := prepared video image changeColor r g b alpha in
  well_formed pic ->
  exists t,
    (forall junk,
       loadTextureUnderneath sdl video junk (Some image) changeColor r g b alpha
       = Some (Loaded t)) /\
    (width t = pic_w pic /\ height t = pic_h pic) /\
    Z.of_nat (length (alphaMap t)) = pic_w pic * pic_h pic /\
    forall junk i j, 0 <= i < pic_h pic -> 0 <= j < pic_w pic ->
    alphaMap t !! Z.to_nat (i * pic_w pic + j)
    = getAlpha sdl junk (pic_surface pic) j i.
Proof.
  intros pic Hwf.
  destruct (alpha_map_filled sdl 0 pic Hwf) as (alphaMap0 & Hrun0 & Hlen0 & Hcells0).
  assert (Hany : forall junk i j, 0 <= i < pic_h pic -> 0 <= j < pic_w pic ->
            alphaMap0 !! Z.to_nat (i * pic_w pic + j)
            = getAlpha sdl junk (pic_surface pic) j i).
  { intros junk i j Hi Hj. rewrite (Hcells0 i j Hi Hj).
    destruct (getAlpha_defined sdl pic j i Hwf Hj Hi) as [a Ha].
    rewrite (Ha 0), (Ha junk). reflexivity. }
  exists (mkTexture (pic_w pic) (pic_h pic) alphaMap0). cbn [width height alphaMap].
  split; [|split; [split; reflexivity | split; [exact Hlen0 | exact Hany]]].
  intros junk. unfold loadTextureUnderneath. fold pic.
  destruct (alpha_map_filled sdl junk pic Hwf) as (alphaMap1 & Hrun1 & Hlen1 & Hcells1).
  destruct (Mem.alloc _ junk) as [buf|]; cbn [mbind option_bind] in Hrun1 |- *;
    [|discriminate].
  rewrite Hrun1. cbn [mbind option_bind]. do 3 f_equal.
  apply list_eq. intros d.
  destruct (Z_lt_dec (Z.of_nat d) (pic_w pic * pic_h pic)) as [Hd|Hd].
  - destruct (picture_area pic Hwf) as (Hw & Hh & _).
    assert (Hwpos : 0 < pic_w pic).
    { destruct (Z.eq_dec (pic_w pic) 0) as [E|]; [rewrite E in Hd; lia | lia]. }
    pose proof (Z.div_mod (Z.of_nat d) (pic_w pic) ltac:(lia)) as Hdm.
    pose proof (Z.mod_pos_bound (Z.of_nat d) (pic_w pic) Hwpos) as Hm.
    assert (Hq : 0 <= Z.of_nat d / pic_w pic < pic_h pic).
    { split; [apply Z.div_pos; lia|]. apply Z.div_lt_upper_bound; lia. }
    replace d with (Z.to_nat (Z.of_nat d / pic_w pic * pic_w pic
                              + Z.of_nat d mod pic_w pic)) by lia.
    rewrite (Hcells1 _ _ Hq Hm), (Hany junk _ _ Hq Hm). reflexivity.
  - rewrite !lookup_ge_None_2 by lia. reflexivity.
Qed.

Lemma loadTextureUnderneath_alphaMap_witness :
  exists t,
    (forall junk,
       loadTextureUnderneath sdl_packed video_still junk
         (Some (mkPicture (mkSurface (mkFormat 4 4278190080 24 0) 8
                             [1; 2; 3; 4; 5; 6; 7; 8; 9; 10; 11; 12; 13; 14; 15; 16]) 2 2))
         false 0 0 0 255
       = Some (Loaded t)) /\
    (width t = 2 /\ height t = 2) /\
    Z.of_nat (length (alphaMap t)) = 2 * 2 /\
    forall junk i j, 0 <= i < 2 -> 0 <= j < 2 ->
    alphaMap t !! Z.to_nat (i * 2 + j)
    = getAlpha sdl_packed junk
        (mkSurface (mkFormat 4 4278190080 24 0) 8
           [1; 2; 3; 4; 5; 6; 7; 8; 9; 10; 11; 12; 13; 14; 15; 16]) j i.
Proof.
  apply (loadTextureUnderneath_alphaMap sdl_packed video_still
           (mkPicture (mkSurface (mkFormat 4 4278190080 24 0) 8
                         [1; 2; 3; 4; 5; 6; 7; 8; 9; 10; 11; 12; 13; 14; 15; 16]) 2 2)
           false 0 0 0 255).
  unfold well_formed, INT_MAX. simpl. lia.
Defined.

(** ** Keyboard and mouse *)

(** *** The keyboard *)

Lemma clear_keys_zero (n : nat) :
  forall (i : Z) (old : list Z),
  0 <= i -> i + Z.of_nat n = Z.of_nat (length old) ->
  exists old',
    clear_keys n i old = Some old' /\ length old' = length old /\
    (forall k, (k < Z.to_nat i)%nat -> old' !! k = old !! k) /\
    (forall k, (Z.to_nat i <= k < length old)%nat -> old' !! k = Some 0).
Proof.
  induction n as [|n IH]; intros i old Hi Hn.
  - exists old. split; [reflexivity|]. split; [reflexivity|].
    split; [reflexivity | intros k Hk; lia].
  - cbn [clear_keys]. rewrite write_in_bounds by lia. cbn [mbind option_bind].
    destruct (IH (i + 1) (<[Z.to_nat i:=0]> old)) as (old' & Hrun & Hlen & Hlow & Hhigh);
      [lia | rewrite length_insert; lia |].
    rewrite length_insert in Hlen, Hhigh.
    exists old'. split; [exact Hrun|]. split; [exact Hlen|]. split.
    + intros k Hk. rewrite Hlow by lia. apply list_lookup_insert_ne. lia.
    + intros k Hk. destruct (Nat.eq_dec k (Z.to_nat i)) as [-> | Hne].
      * rewrite Hlow by lia. apply list_lookup_insert_eq. lia.
      * apply Hhigh. lia.
Qed.

Lemma copy_keys_copies (keystate : list Z) (n : nat) :
  forall (i : Z) (old : list Z),
  0 <= i -> i + Z.of_nat n = Z.of_nat (length old) ->
  length keystate = length old ->
  exists old',
    copy_keys (Some keystate) n i (Some old) = Some (Some old') /\
    length old' = length old /\
    (forall k, (k < Z.to_nat i)%nat -> old' !! k = old !! k) /\
    (forall k, (Z.to_nat i <= k < length old)%nat -> old' !! k = keystate !! k).
Proof.
  induction n as [|n IH]; intros i old Hi Hn Hlen.
  - exists old. split; [reflexivity|]. split; [reflexivity|].
    split; [reflexivity | intros k Hk; lia].
  - cbn [copy_keys mbind option_bind].
    destruct (read_in_bounds keystate i ltac:(lia)) as [v Hv].
    rewrite Hv. cbn [mbind option_bind].
    rewrite write_in_bounds by lia. cbn [mbind option_bind].
    destruct (IH (i + 1) (<[Z.to_nat i:=v]> old)) as (old' & Hrun & Hlen' & Hlow & Hhigh);
      [lia | rewrite length_insert; lia | rewrite length_insert; exact Hlen |].
    rewrite length_insert in Hlen', Hhigh.
    exists old'. split; [exact Hrun|]. split; [exact Hlen'|]. split.
    + intros k Hk. rewrite Hlow by lia. apply list_lookup_insert_ne. lia.
    + intros k Hk. destruct (Nat.eq_dec k (Z.to_nat i)) as [-> | Hne].
      * rewrite Hlow by lia. rewrite list_lookup_insert_eq by lia.
        apply read_Some in Hv as [_ Hv]. symmetry. exact Hv.
      * apply Hhigh. lia.
Qed.

(** What the first part of [updateEvents] leaves in [Core]. *)
Lemma update_keys_first (junk : Z) (e : Engine) :
  Core.keystate_size (core e) = -1 ->
  Z.of_nat (length (SDL_keyboard e)) <= INT_MAX ->
  update_keys junk e
  = Some (Core.mk (Core.running (core e)) (Z.of_nat (length (SDL_keyboard e))) true
            (Some (replicate (length (SDL_keyboard e)) 0))).
Proof.
  intros Hsize Hmax. unfold update_keys. rewrite Hsize. change (-1 =? -1) with true.
  cbv iota. unfold Mem.alloc.
  replace (0 <=? Z.of_nat (length (SDL_keyboard e))) with true by lia.
  cbn [mbind option_bind]. rewrite Nat2Z.id.
  destruct (clear_keys_zero (length (SDL_keyboard e)) 0
              (replicate (length (SDL_keyboard e)) junk))
    as (old' & Hrun & Hlen & _ & Hzero); [lia | rewrite length_replicate; lia |].
  rewrite Hrun. cbn [mbind option_bind]. do 3 f_equal.
  rewrite length_replicate in Hlen, Hzero.
  apply list_eq. intros k. destruct (Nat.lt_ge_cases k (length (SDL_keyboard e))) as [Hk|Hk].
  - rewrite Hzero by lia. symmetry. apply lookup_replicate_2. exact Hk.
  - rewrite !lookup_ge_None_2 by (rewrite ?length_replicate; lia). reflexivity.
Qed.

Lemma update_keys_later (junk : Z) (e : Engine) :
  keys_ready e ->
  update_keys junk e
  = Some (Core.mk (Core.running (core e)) (Z.of_nat (length (SDL_keyboard e))) true
            (Some (SDL_keyboard e))).
Proof.
  intros (Hsize & Hptr & old & Hold & Hlen). unfold update_keys.
  rewrite Hsize, Hptr, Hold.
  replace (Z.of_nat (length (SDL_keyboard e)) =? -1) with false by lia.
  rewrite Nat2Z.id.
  destruct (copy_keys_copies (SDL_keyboard e) (length (SDL_keyboard e)) 0 old)
    as (old' & Hrun & Hlen' & _ & Hcopy); [lia | lia | congruence |].
  rewrite Hrun. cbn [mbind option_bind]. do 3 f_equal.
  apply list_eq. intros k. destruct (Nat.lt_ge_cases k (length old)) as [Hk|Hk].
  - apply Hcopy. lia.
  - rewrite !lookup_ge_None_2 by lia. reflexivity.
Qed.

(** The engine after [updateEvents], as far as the keyboard goes. *)
Lemma updateEvents_keys (junk : Z) (pumped : list Z) (events : list SDL_Event)
    (e : Engine) (c : Core.t) :
  update_keys junk e = Some c ->
  exists e',
    updateEvents junk pumped events e = Some e' /\
    SDL_keyboard e' = pumped /\
    Core.keystate_size (core e') = Core.keystate_size c /\
    Core.keystate (core e') = Core.keystate c /\
    Core.old_keystate (core e') = Core.old_keystate c.
Proof.
  intros Hc. unfold updateEvents. rewrite Hc. cbn [mbind option_bind].
  destruct events as [|event events].
  - eexists. split; [reflexivity|]. cbn [core SDL_keyboard]. auto.
  - destruct (poll_events (event :: events) (Core.running c) (mouse e)) as [running' m'].
    eexists. split; [reflexivity|].
    cbn [core SDL_keyboard Core.keystate_size Core.keystate Core.old_keystate]. auto.
Qed.

Lemma key_queries (e : Engine) (old : list Z) (scanCode before after : Z) :
  Core.keystate (core e) = true -> Core.old_keystate (core e) = Some old ->
  Mem.read old scanCode = Some before ->
  Mem.read (SDL_keyboard e) scanCode = Some after ->
  keyPressed e scanCode = Some ((before =? 0) && negb (after =? 0)) /\
  keyReleased e scanCode = Some (negb (before =? 0) && (after =? 0)) /\
  keyHeld e scanCode = Some (negb (before =? 0) && negb (after =? 0)).
Proof.
  intros Hptr Hold Hb Ha.
  unfold keyPressed, keyReleased, keyHeld, read_old_keystate, read_keystate.
  rewrite Hptr, Hold. cbn [mbind option_bind]. rewrite Hb, Ha. cbn [mbind option_bind].
  destruct (before =? 0); cbn [negb andb mbind option_bind]; auto.
Qed.

(** X21: between two calls of [updateEvents] a key is reported pressed when
    it was up at the first call and is down at the second, released when it
    was down and is up, held when it is down at both; and the engine is
    ready for the next call. *)
Theorem updateEvents_key_transitions (junk : Z) (pumped : list Z)
    (events : list SDL_Event) (e : Engine) :
  keys_ready e -> length pumped = length (SDL_keyboard e) ->
  exists e',
    updateEvents junk pumped events e = Some e' /\ keys_ready e' /\
    forall scanCode, 0 <= scanCode < Z.of_nat (length pumped) ->
    exists before after,
      SDL_keyboard e !! Z.to_nat scanCode = Some before /\
      pumped !! Z.to_nat scanCode = Some after /\
      keyPressed e' scanCode = Some ((before =? 0) && negb (after =? 0)) /\
      keyReleased e' scanCode = Some (negb (before =? 0) && (after =? 0)) /\
      keyHeld e' scanCode = Some (negb (before =? 0) && negb (after =? 0)).
Proof.
  intros Hready Hlen.
  destruct (updateEvents_keys junk pumped events e _ (update_keys_later junk e Hready))
    as (e' & Hrun & Hk & Hsize & Hptr & Hold).
  cbn [Core.keystate_size Core.keystate Core.old_keystate] in Hsize, Hptr, Hold.
  exists e'. split; [exact Hrun|]. split.
  - unfold keys_ready. rewrite Hk, Hsize, Hptr, Hold.
    split; [lia|]. split; [reflexivity|]. exists (SDL_keyboard e). auto.
  - intros scanCode Hs.
    destruct (read_in_bounds (SDL_keyboard e) scanCode ltac:(lia)) as [before Hb].
    destruct (read_in_bounds pumped scanCode ltac:(lia)) as [after Ha].
    exists before, after.
    split; [apply read_Some in Hb as [_ Hb]; exact Hb|].
    split; [apply read_Some in Ha as [_ Ha]; exact Ha|].
    apply (key_queries e' (SDL_keyboard e)); [exact Hptr | exact Hold | exact Hb |].
    rewrite Hk. exact Ha.
Qed.

(** X22: the first call of [updateEvents] makes the engine ready; after it
    every key that is down is reported pressed, and no key is reported
    released or held. *)
Theorem updateEvents_first_call (junk : Z) (pumped : list Z)
    (events : list SDL_Event) (e : Engine) :
  Core.keystate_size (core e) = -1 ->
  Z.of_nat (length (SDL_keyboard e)) <= INT_MAX ->
  length pumped = length (SDL_keyboard e) ->
  exists e',
    updateEvents junk pumped events e = Some e' /\ keys_ready e' /\
    forall scanCode, 0 <= scanCode < Z.of_nat (length pumped) ->
    exists after,
      pumped !! Z.to_nat scanCode = Some after /\
      keyPressed e' scanCode = Some (negb (after =? 0)) /\
      keyReleased e' scanCode = Some false /\
      keyHeld e' scanCode = Some false.
Proof.
  intros Hfirst Hmax Hlen.
  destruct (updateEvents_keys junk pumped events e _ (update_keys_first junk e Hfirst Hmax))
    as (e' & Hrun & Hk & Hsize & Hptr & Hold).
  cbn [Core.keystate_size Core.keystate Core.old_keystate] in Hsize, Hptr, Hold.
  exists e'. split; [exact Hrun|]. split.
  - unfold keys_ready. rewrite Hk, Hsize, Hptr, Hold.
    split; [lia|]. split; [reflexivity|]. eexists. split; [reflexivity|].
    rewrite length_replicate. lia.
  - intros scanCode Hs.
    destruct (read_in_bounds pumped scanCode ltac:(lia)) as [after Ha].
    exists after. split; [apply read_Some in Ha as [_ Ha]; exact Ha|].
    assert (Hz : Mem.read (replicate (length (SDL_keyboard e)) 0) scanCode = Some 0).
    { rewrite read_lookup by (rewrite length_replicate; lia).
      apply lookup_replicate_2. lia. }
    rewrite <- Hk in Ha.
    destruct (key_queries e' _ scanCode 0 after Hptr Hold Hz Ha) as (Hp & Hr & Hh).
    rewrite Hp, Hr, Hh. auto.
Qed.

(** *** The mouse *)

Lemma handle_event_buttons (running : bool) (m : Mouse.t) (event : SDL_Event) :
  buttons_agree m -> buttons_agree (snd (handle_event running m event)).
Proof.
  intros Hm. unfold buttons_agree in *.
  destruct event as [button state clicks | x y | x y | |];
    cbn [handle_event snd Mouse.left Mouse.middle Mouse.right Mouse.button];
    try exact Hm.
  destruct (Z.eqb_spec button 1) as [-> | H1]; [cbn; auto|].
  destruct (Z.eqb_spec button 2) as [-> | H2]; [cbn; auto|].
  destruct (Z.eqb_spec button 3) as [-> | H3]; [cbn; auto|].
  cbn. repeat split; symmetry; apply Z.eqb_neq; assumption.
Qed.

Lemma poll_events_buttons (events : list SDL_Event) :
  forall (running : bool) (m : Mouse.t),
  buttons_agree m -> buttons_agree (snd (poll_events events running m)).
Proof.
  induction events as [|event events IH]; intros running m Hm; [exact Hm|].
  cbn [poll_events].
  pose proof (handle_event_buttons running m event Hm) as Hstep.
  destruct (handle_event running m event) as [running' m']. apply IH. exact Hstep.
Qed.

(** X23: whatever events wait, [updateEvents] keeps the three flags of the
    buttons in step with the field [button]: [left] is set exactly when the
    field is 1, [middle] when it is 2, [right] when it is 3. So no two
    flags are ever set together. *)
Theorem updateEvents_buttons_agree (junk : Z) (pumped : list Z)
    (events : list SDL_Event) (e e' : Engine) :
  buttons_agree (mouse e) ->
  updateEvents junk pumped events e = Some e' ->
  buttons_agree (mouse e').
Proof.
  intros Hm. unfold updateEvents.
  destruct (update_keys junk e) as [c|]; cbn [mbind option_bind]; [|discriminate].
  destruct events as [|event events].
  - intros [= <-]. cbn [mouse]. unfold buttons_agree, no_event. cbn. auto.
  - pose proof (poll_events_buttons (event :: events) (Core.running c) (mouse e) Hm) as Hp.
    destruct (poll_events (event :: events) (Core.running c) (mouse e)) as [running' m'].
    intros [= <-]. exact Hp.
Qed.

Lemma handle_event_clicked (running : bool) (m : Mouse.t) (event : SDL_Event)
    (found : Z * Z * Z) :
  (Mouse.button m, Mouse.state m, Mouse.clicks m) = found ->
  let m' := snd (handle_event running m event) in
  (Mouse.button m', Mouse.state m', Mouse.clicks m') = last_button [event] found.
Proof.
  intros Hm. destruct event as [button state clicks | x y | x y | |];
    cbn [handle_event snd last_button]; try exact Hm.
  destruct (button =? 1); [reflexivity|].
  destruct (button =? 2); [reflexivity|].
  destruct (button =? 3); reflexivity.
Qed.

Lemma last_button_cons (event : SDL_Event) (events : list SDL_Event)
    (found : Z * Z * Z) :
  last_button (event :: events) found = last_button events (last_button [event] found).
Proof. destruct event; reflexivity. Qed.

Lemma poll_events_clicked (events : list SDL_Event) :
  forall (running : bool) (m : Mouse.t) (found : Z * Z * Z),
  (Mouse.button m, Mouse.state m, Mouse.clicks m) = found ->
  let m' := snd (poll_events events running m) in
  (Mouse.button m', Mouse.state m', Mouse.clicks m') = last_button events found.
Proof.
  induction events as [|event events IH]; intros running m found Hm; [exact Hm|].
  cbn [poll_events]. rewrite last_button_cons.
  pose proof (handle_event_clicked running m event found Hm) as Hstep.
  destruct (handle_event running m event) as [running' m']. apply IH. exact Hstep.
Qed.

(** X24: when events wait, the click that the mouse reports after
    [updateEvents] is the one of the last waiting event of a button; when
    none of the waiting events is of a button, it is the click that was
    reported before the call, once more. *)
Theorem updateEvents_last_click (junk : Z) (pumped : list Z)
    (events : list SDL_Event) (e e' : Engine) :
  events <> [] ->
  updateEvents junk pumped events e = Some e' ->
  (Mouse.button (mouse e'), Mouse.state (mouse e'), Mouse.clicks (mouse e'))
  = last_button events
      (Mouse.button (mouse e), Mouse.state (mouse e), Mouse.clicks (mouse e)).
Proof.
  intros Hne. unfold updateEvents.
  destruct (update_keys junk e) as [c|]; cbn [mbind option_bind]; [|discriminate].
  destruct events as [|event events]; [contradiction|].
  pose proof (poll_events_clicked (event :: events) (Core.running c) (mouse e) _ eq_refl)
    as Hp.
  destruct (poll_events (event :: events) (Core.running c) (mouse e)) as [running' m'].
  intros [= <-]. exact Hp.
Qed.

(** X25: when no event waits, [updateEvents] clears the flags of the
    buttons and of the wheel and the field [button]: after the call no
    rectangle is clicked and none is pressed, wherever the mouse is. *)
Theorem updateEvents_no_event (junk : Z) (pumped : list Z) (e e' : Engine)
    (SDL_PointInRect : Z -> Z -> SDL_Rect -> bool) (rect : SDL_Rect) :
  updateEvents junk pumped [] e = Some e' ->
  (rectClicked SDL_PointInRect e' rect = false /\
   rectPressed SDL_PointInRect e' rect = false) /\
  (Mouse.left (mouse e') = false /\ Mouse.middle (mouse e') = false /\
   Mouse.right (mouse e') = false) /\
  (Mouse.scroll_up (mouse e') = false /\ Mouse.scroll_down (mouse e') = false /\
   Mouse.scroll_left (mouse e') = false /\ Mouse.scroll_right (mouse e') = false) /\
  (Mouse.x (mouse e') = Mouse.x (mouse e) /\ Mouse.y (mouse e') = Mouse.y (mouse e)).
Proof.
  unfold updateEvents.
  destruct (update_keys junk e) as [c|]; cbn [mbind option_bind]; [|discriminate].
  intros [= <-]. unfold rectClicked, rectPressed, Mouse.clicked, no_event.
  cbn [mouse Mouse.button Mouse.clicks Mouse.state Mouse.left Mouse.middle Mouse.right
       Mouse.scroll_up Mouse.scroll_down Mouse.scroll_left Mouse.scroll_right
       Mouse.x Mouse.y].
  change (0 =? SDL_BUTTON_LEFT) with false. cbn [andb].
  rewrite !andb_false_r. auto 10.
Qed.

(** *** The end of the program *)

Lemma poll_events_running (events : list SDL_Event) :
  forall (running : bool) (m : Mouse.t),
  fst (poll_events events running m) = running && negb (existsb is_quit events).
Proof.
  induction events as [|event events IH]; intros running m.
  - cbn. now rewrite andb_true_r.
  - cbn [poll_events existsb].
    destruct event as [button state clicks | x y | x y | |]; cbn [handle_event is_quit orb].
    + destruct (if button =? 1 then _ else _) as [[l mi] r]. apply IH.
    + apply IH.
    + apply IH.
    + rewrite IH. cbn. now rewrite andb_false_r.
    + apply IH.
Qed.

(** X26: [updateEvents] never sets [running]: the program runs after the
    call exactly when it ran before and no waiting event asks to quit. Once
    stopped, it stays stopped. *)
Theorem updateEvents_running (junk : Z) (pumped : list Z)
    (events : list SDL_Event) (e e' : Engine) :
  updateEvents junk pumped events e = Some e' ->
  isRunning e' = isRunning e && negb (existsb is_quit events).
Proof.
  unfold updateEvents, isRunning.
  destruct (update_keys junk e) as [c|] eqn:Ec; cbn [mbind option_bind]; [|discriminate].
  assert (Hc : Core.running c = Core.running (core e)).
  { unfold update_keys in Ec.
    destruct (Core.keystate_size (core e) =? -1).
    - destruct (Mem.alloc _ _) as [old|]; cbn [mbind option_bind] in Ec; [|discriminate].
      destruct (clear_keys _ _ _) as [old'|]; cbn [mbind option_bind] in Ec; [|discriminate].
      injection Ec as <-. reflexivity.
    - destruct (copy_keys _ _ _ _) as [old'|]; cbn [mbind option_bind] in Ec; [|discriminate].
      injection Ec as <-. reflexivity. }
  destruct events as [|event events].
  - intros [= <-]. cbn [core existsb negb]. rewrite andb_true_r. exact Hc.
  - pose proof (poll_events_running (event :: events) (Core.running c) (mouse e)) as Hp.
    destruct (poll_events (event :: events) (Core.running c) (mouse e)) as [running' m'].
    intros [= <-]. cbn [core Core.running fst] in *. rewrite <- Hc. exact Hp.
Qed.

(** *** Runs of [updateEvents] *)

Lemma updateEvents_first_call_witness :
  exists e',
    updateEvents 7 [1; 1; 0; 0]
      [SDL_MouseMotionEvent 5 6; SDL_MouseButtonEvent 1 1 1; SDL_MouseWheelEvent 0 (-1)]
      (engine_start [0; 1; 0; 1]) = Some e' /\ keys_ready e' /\
    forall scanCode, 0 <= scanCode < Z.of_nat (length [1; 1; 0; 0]) ->
    exists after,
      [1; 1; 0; 0] !! Z.to_nat scanCode = Some after /\
      keyPressed e' scanCode = Some (negb (after =? 0)) /\
      keyReleased e' scanCode = Some false /\
      keyHeld e' scanCode = Some false.
Proof.
  apply (updateEvents_first_call 7 [1; 1; 0; 0]
           [SDL_MouseMotionEvent 5 6; SDL_MouseButtonEvent 1 1 1; SDL_MouseWheelEvent 0 (-1)]
           (engine_start [0; 1; 0; 1])).
  - reflexivity.
  - unfold INT_MAX. simpl. lia.
  - reflexivity.
Defined.

Lemma engine_after_click_ready : keys_ready engine_after_click.
Proof.
  split; [reflexivity|]. split; [reflexivity|]. exists [0; 0; 0; 0]. split; reflexivity.
Qed.

Lemma updateEvents_key_transitions_witness :
  exists e',
    updateEvents 7 [1; 0; 0; 1] [SDL_MouseMotionEvent 8 9; SDL_QuitEvent]
      engine_after_click = Some e' /\ keys_ready e' /\
    forall scanCode, 0 <= scanCode < Z.of_nat (length [1; 0; 0; 1]) ->
    exists before after,
      SDL_keyboard engine_after_click !! Z.to_nat scanCode = Some before /\
      [1; 0; 0; 1] !! Z.to_nat scanCode = Some after /\
      keyPressed e' scanCode = Some ((before =? 0) && negb (after =? 0)) /\
      keyReleased e' scanCode = Some (negb (before =? 0) && (after =? 0)) /\
      keyHeld e' scanCode = Some (negb (before =? 0) && negb (after =? 0)).
Proof.
  apply (updateEvents_key_transitions 7 [1; 0; 0; 1]
           [SDL_MouseMotionEvent 8 9; SDL_QuitEvent] engine_after_click).
  - exact engine_after_click_ready.
  - reflexivity.
Defined.

Lemma updateEvents_buttons_agree_witness : buttons_agree (mouse engine_after_click).
Proof.
  apply (updateEvents_buttons_agree 7 [1; 1; 0; 0]
           [SDL_MouseMotionEvent 5 6; SDL_MouseButtonEvent 1 1 1; SDL_MouseWheelEvent 0 (-1)]
           (engine_start [0; 1; 0; 1]) engine_after_click).
  - repeat split.
  - vm_compute. reflexivity.
Defined.

Lemma updateEvents_last_click_witness :
  (Mouse.button (mouse engine_after_quit), Mouse.state (mouse engine_after_quit),
   Mouse.clicks (mouse engine_after_quit))
  = last_button [SDL_MouseMotionEvent 8 9; SDL_QuitEvent]
      (Mouse.button (mouse engine_after_click), Mouse.state (mouse engine_after_click),
       Mouse.clicks (mouse engine_after_click)).
Proof.
  apply (updateEvents_last_click 7 [1; 0; 0; 1]
           [SDL_MouseMotionEvent 8 9; SDL_QuitEvent] engine_after_click engine_after_quit).
  - discriminate.
  - vm_compute. reflexivity.
Defined.

Lemma updateEvents_no_event_witness :
  (rectClicked (fun _ _ _ => true) engine_idle (mkRect 0 0 10 10) = false /\
   rectPressed (fun _ _ _ => true) engine_idle (mkRect 0 0 10 10) = false) /\
  (Mouse.left (mouse engine_idle) = false /\ Mouse.middle (mouse engine_idle) = false /\
   Mouse.right (mouse engine_idle) = false) /\
  (Mouse.scroll_up (mouse engine_idle) = false /\
   Mouse.scroll_down (mouse engine_idle) = false /\
   Mouse.scroll_left (mouse engine_idle) = false /\
   Mouse.scroll_right (mouse engine_idle) = false) /\
  (Mouse.x (mouse engine_idle) = Mouse.x (mouse engine_after_click) /\
   Mouse.y (mouse engine_idle) = Mouse.y (mouse engine_after_click)).
Proof.
  apply (updateEvents_no_event 7 [1; 0; 0; 1] engine_after_click engine_idle
           (fun _ _ _ => true) (mkRect 0 0 10 10)).
  vm_compute. reflexivity.
Defined.

Lemma updateEvents_running_witness :
  isRunning engine_after_quit
  = isRunning engine_after_click
    && negb (existsb is_quit [SDL_MouseMotionEvent 8 9; SDL_QuitEvent]).
Proof.
  apply (updateEvents_running 7 [1; 0; 0; 1]
           [SDL_MouseMotionEvent 8 9; SDL_QuitEvent] engine_after_click engine_after_quit).
  vm_compute. reflexivity.
Defined.
